(** * Remindly: appointment store, remote sync and reminder dispatch

    A shallow embedding of the persistence and dispatch code of the
    Remindly application:

    - [Server]: the Express routes of [server.ts] over the SQLite tables
      [appointments] and [settings];
    - [JS]: the JavaScript built-ins the browser code calls ([btoa],
      [atob], [JSON.stringify], [JSON.parse]) over strings of UTF-16
      code units;
    - [Client]: [services/storage.ts] ([GitHubStorage],
      [LocalStorageService]) and the handlers of [App.tsx]
      ([loadInitialData], [persistData], [handleAddAppointment],
      [handleDelete], [handleTrigger]).                                  *)

From Stdlib Require Import ZArith NArith List String Ascii Bool Lia.
From Stdlib Require Import Sorting.Mergesort Sorting.Sorted Sorting.Permutation Orders.
From stdpp Require Import gmap strings.

Import ListNotations.

(** [status: 'pending' | 'sent'] in [App.tsx]; the [status] column of the
    table holds the same two texts ([DEFAULT 'pending'], [SET status =
    'sent']). *)
Inductive Status := pending | sent.

(** [response.ok]: the status is in the range 200-299. *)
Definition ok (status : nat) : bool :=
  (200 <=? status)%nat && (status <=? 299)%nat.

(** ** server.ts *)
Module Server.

(** A row of [appointments]. TEXT values are byte strings; the default
    collation compares them byte by byte. *)
Record Row := {
  id : Z;
  client_name : string;
  phone_number : string;
  appointment_date : string;
  appointment_time : string;
  status : Status;
  created_at : string
}.

(** The database file: the rows of [appointments] in rowid order, the
    [sqlite_sequence] entry kept for the AUTOINCREMENT key, and the
    [settings] table (primary key [key]). *)
Record DB := {
  appointments : list Row;
  sqlite_sequence : Z;
  settings : gmap string string
}.

Inductive ApiError :=
| AppointmentNotFound            (* "Appointment not found" *)
| WebhookNotConfigured           (* "n8n Webhook URL not configured in settings" *)
| N8nReturnedError (status : nat) (* `n8n returned an error: ${response.status}` *)
| N8nTimedOut                    (* "Request to n8n timed out" *)
| N8nConnectFailed               (* "Failed to connect to n8n. Check your Webhook URL." *)
| Uncaught.                      (* a statement threw: Express answers 500 *)

Inductive Body :=
| Appointments (rows : list Row)
| Inserted (lastInsertRowid : Z)
| Success
| Settings (m : gmap string string)
| Error (e : ApiError).

Record Response := { code : nat; body : Body }.

Definition json (b : Body) : Response := {| code := 200; body := b |}.
Definition fail (c : nat) (e : ApiError) : Response := {| code := c; body := Error e |}.

(** [ORDER BY appointment_date ASC, appointment_time ASC]. *)
Definition order_leb (a b : Row) : bool :=
  match String.compare (appointment_date a) (appointment_date b) with
  | Lt => true
  | Gt => false
  | Eq => String.leb (appointment_time a) (appointment_time b)
  end.

Module RowOrder <: TotalLeBool.
Definition t := Row.
Definition leb := order_leb.
Lemma leb_total : forall a b, leb a b = true \/ leb b a = true.
Proof.
  intros a b. unfold leb, order_leb.
  rewrite (String.compare_antisym (appointment_date a) (appointment_date b)).
  destruct (String.compare (appointment_date b) (appointment_date a)); simpl; auto.
  apply String.leb_total.
Qed.
End RowOrder.

Module RowSort := Sort RowOrder.

(** [GET /api/appointments] *)
Definition list_appointments (db : DB) : Response * DB :=
  (json (Appointments (RowSort.sort (appointments db))), db).

(** The body of [POST /api/appointments]; [None] is a field that is
    [null] or missing, which the statement refuses to store. *)
Record NewAppointment := {
  new_client_name : option string;
  new_phone_number : option string;
  new_appointment_date : option string;
  new_appointment_time : option string
}.

Definition max_rowid : Z := 9223372036854775807.

(** [info.lastInsertRowid] is a JavaScript number: the rowid itself up
    to 2^53 in absolute value, and beyond that the nearest number that a
    double holds, a tie going to the even one. *)
Definition max_safe : Z := 9007199254740992.

Definition to_number (n : Z) : Z :=
  let a := Z.abs n in
  if (a <=? max_safe)%Z then n
  else
    let ulp := (2 ^ (Z.log2 a - 52))%Z in
    let q := (a / ulp)%Z in
    let r := (a mod ulp)%Z in
    let down := (q * ulp)%Z in
    let nearest :=
      if (2 * r <? ulp)%Z then down
      else if (ulp <? 2 * r)%Z then (down + ulp)%Z
      else if Z.even q then down else (down + ulp)%Z in
    (Z.sgn n * nearest)%Z.

(** AUTOINCREMENT: the largest rowid the table has ever held. *)
Definition largest_rowid (db : DB) : Z :=
  fold_right Z.max (sqlite_sequence db) (map id (appointments db)).

(** [POST /api/appointments]; [now] is CURRENT_TIMESTAMP. *)
Definition create_appointment (now : string) (req : NewAppointment) (db : DB)
  : Response * DB :=
  match new_client_name req, new_phone_number req,
        new_appointment_date req, new_appointment_time req with
  | Some name, Some phone, Some date, Some time =>
      let last := largest_rowid db in
      if (last =? max_rowid)%Z then (fail 500 Uncaught, db)   (* SQLITE_FULL *)
      else
        let rowid := (last + 1)%Z in
        let row := {| id := rowid; client_name := name; phone_number := phone;
                      appointment_date := date; appointment_time := time;
                      status := pending; created_at := now |} in
        (json (Inserted (to_number rowid)),
         {| appointments := appointments db ++ [row];
            sqlite_sequence := rowid;
            settings := settings db |})
  | _, _, _, _ => (fail 500 Uncaught, db)                      (* NOT NULL *)
  end.

(** [DELETE /api/appointments/:id]. The route parameter is compared
    with the INTEGER key, so it is taken as the integer it denotes. *)
Definition delete_appointment (i : Z) (db : DB) : Response * DB :=
  (json Success,
   {| appointments := List.filter (fun r => negb (id r =? i)%Z) (appointments db);
      sqlite_sequence := sqlite_sequence db;
      settings := settings db |}).

(** [GET /api/settings] *)
Definition get_settings (db : DB) : Response * DB :=
  (json (Settings (settings db)), db).

(** [POST /api/settings]: INSERT OR REPLACE of the one key. *)
Definition post_settings (n8n_webhook_url : string) (db : DB) : Response * DB :=
  (json Success,
   {| appointments := appointments db;
      sqlite_sequence := sqlite_sequence db;
      settings := <["n8n_webhook_url" := n8n_webhook_url]> (settings db) |}).

(** What the [fetch] of the webhook comes to: a response, the abort of
    the 15 second timer, or any other rejection. *)
Inductive FetchOutcome := Responded (status : nat) | Aborted | Failed.

(** [UPDATE appointments SET status = 'sent' WHERE id = ?] *)
Definition set_sent (r : Row) : Row :=
  {| id := id r; client_name := client_name r; phone_number := phone_number r;
     appointment_date := appointment_date r; appointment_time := appointment_time r;
     status := sent; created_at := created_at r |}.

Definition update_sent (i : Z) (db : DB) : DB :=
  {| appointments := map (fun r => if (id r =? i)%Z then set_sent r else r) (appointments db);
     sqlite_sequence := sqlite_sequence db;
     settings := settings db |}.

(** A POST issued to the webhook: the URL and the row sent as body. *)
Definition Call : Type := string * Row.

(** [POST /api/trigger-reminder/:id]. [net] answers the one [fetch];
    the third component lists the calls made. *)
Definition trigger_reminder (net : Call -> FetchOutcome) (i : Z) (db : DB)
  : Response * DB * list Call :=
  let appointment := find (fun r => (id r =? i)%Z) (appointments db) in
  let webhookUrl := settings db !! "n8n_webhook_url" in
  match appointment with
  | None => (fail 404 AppointmentNotFound, db, [])
  | Some appointment =>
      match webhookUrl with
      | None | Some EmptyString => (fail 400 WebhookNotConfigured, db, [])
      | Some url =>
          let call := (url, appointment) in
          match net call with
          | Responded status =>
              if ok status then (json Success, update_sent i db, [call])
              else (fail 502 (N8nReturnedError status), db, [call])
          | Aborted => (fail 504 N8nTimedOut, db, [call])
          | Failed => (fail 500 N8nConnectFailed, db, [call])
          end
      end
  end.

(** *** Notions used in the statements *)

(** [a] comes no later than [b]: earlier date, or same date and a time
    that is not later, both compared as texts. *)
Definition date_time_le (a b : Row) : Prop :=
  String.ltb (appointment_date a) (appointment_date b) = true
  \/ (appointment_date a = appointment_date b
      /\ String.leb (appointment_time a) (appointment_time b) = true).

(** From [before] to [after] nothing changed but the status of the rows
    with id [i], which is now [sent]. *)
Definition only_status_sent (i : Z) (before after : list Row) : Prop :=
  length after = length before
  /\ forall (n : nat) (r : Row),
       before !! n = Some r ->
       exists r',
         after !! n = Some r'
         /\ id r' = id r /\ client_name r' = client_name r
         /\ phone_number r' = phone_number r
         /\ appointment_date r' = appointment_date r
         /\ appointment_time r' = appointment_time r
         /\ created_at r' = created_at r
         /\ (id r = i -> status r' = sent)
         /\ (id r <> i -> r' = r).

End Server.

(** ** The JavaScript built-ins used by the browser code *)
Module JS.

(** A JavaScript string is a sequence of UTF-16 code units. *)
Abbreviation jsstring := (list N).

(** An ASCII literal as a JavaScript string. *)
Definition js (s : string) : jsstring :=
  map N_of_ascii (list_ascii_of_string s).

Local Open Scope N_scope.

(** *** btoa / atob *)

Definition b64_char (v : N) : N :=
  if v <? 26 then v + 65            (* A-Z *)
  else if v <? 52 then v + 71       (* a-z *)
  else if v <? 62 then v - 4        (* 0-9 *)
  else if v =? 62 then 43           (* + *)
  else 47.                          (* / *)

Definition b64_value (c : N) : option N :=
  if (65 <=? c) && (c <=? 90) then Some (c - 65)
  else if (97 <=? c) && (c <=? 122) then Some (c - 71)
  else if (48 <=? c) && (c <=? 57) then Some (c + 4)
  else if c =? 43 then Some 62
  else if c =? 47 then Some 63
  else None.

Fixpoint b64_encode (bytes : list N) : jsstring :=
  match bytes with
  | [] => []
  | [a] => [b64_char (a / 4); b64_char ((a mod 4) * 16); 61; 61]
  | [a; b] => [b64_char (a / 4); b64_char ((a mod 4) * 16 + b / 16);
               b64_char ((b mod 16) * 4); 61]
  | a :: b :: c :: rest =>
      b64_char (a / 4) :: b64_char ((a mod 4) * 16 + b / 16)
      :: b64_char ((b mod 16) * 4 + c / 64) :: b64_char (c mod 64)
      :: b64_encode rest
  end.

(** [btoa(s)] throws InvalidCharacterError ([None]) when [s] holds a
    code unit above U+00FF. *)
Definition btoa (s : jsstring) : option jsstring :=
  if forallb (fun c => c <=? 255) s then Some (b64_encode s) else None.

Definition is_ascii_whitespace (c : N) : bool :=
  (c =? 9) || (c =? 10) || (c =? 12) || (c =? 13) || (c =? 32).

(** A length that is a multiple of four may end in one or two [=]. *)
Definition strip_padding (data : jsstring) : jsstring :=
  if (length data mod 4 =? 0)%nat then
    match rev data with
    | p :: q :: r =>
        if p =? 61 then (if q =? 61 then rev r else rev (q :: r)) else data
    | _ => data
    end
  else data.

Fixpoint b64_values (data : jsstring) : option (list N) :=
  match data with
  | [] => Some []
  | c :: r =>
      match b64_value c, b64_values r with
      | Some v, Some vs => Some (v :: vs)
      | _, _ => None
      end
  end.

Fixpoint b64_decode (sextets : list N) : list N :=
  match sextets with
  | a :: b :: c :: d :: rest =>
      (a * 4 + b / 16) :: ((b mod 16) * 16 + c / 4) :: ((c mod 4) * 64 + d)
      :: b64_decode rest
  | [a; b; c] => [a * 4 + b / 16; (b mod 16) * 16 + c / 4]
  | [a; b] => [a * 4 + b / 16]
  | _ => []
  end.

(** Forgiving-base64 decode of a text without white space. *)
Definition decode_padded (data : jsstring) : option jsstring :=
  let data := strip_padding data in
  if (length data mod 4 =? 1)%nat then None
  else option_map b64_decode (b64_values data).

(** [atob(data)]: white space is dropped first; [None] is
    InvalidCharacterError. *)
Definition atob (data : jsstring) : option jsstring :=
  decode_padded (List.filter (fun c => negb (is_ascii_whitespace c)) data).

(** *** JSON values

    Numbers are integers, as the ids are; an object keeps its members in
    the order written. *)

#[warnings="-register-all"]
Inductive json :=
| JNull
| JBool (b : bool)
| JNumber (z : Z)
| JString (s : jsstring)
| JArray (elements : list json)
| JObject (members : list (jsstring * json)).

(** [o[k]]: the last member written under [k], as [JSON.parse] leaves
    the last value of a repeated key. *)
Fixpoint get (k : jsstring) (members : list (jsstring * json)) : option json :=
  match members with
  | [] => None
  | (k', v) :: rest =>
      match get k rest with
      | Some v' => Some v'
      | None => if decide (k' = k) then Some v else None
      end
  end.

(** *** JSON.stringify *)

Definition is_lead (c : N) : bool := (0xD800 <=? c) && (c <=? 0xDBFF).
Definition is_trail (c : N) : bool := (0xDC00 <=? c) && (c <=? 0xDFFF).

Definition hex_digit (d : N) : N := if d <? 10 then d + 48 else d + 87.

(** [\uXXXX], four lowercase hexadecimal digits. *)
Definition unicode_escape (c : N) : jsstring :=
  [92; 117; hex_digit (c / 4096); hex_digit ((c / 256) mod 16);
   hex_digit ((c / 16) mod 16); hex_digit (c mod 16)].

Definition escape_unit (c : N) : jsstring :=
  if c =? 8 then [92; 98]
  else if c =? 9 then [92; 116]
  else if c =? 10 then [92; 110]
  else if c =? 12 then [92; 102]
  else if c =? 13 then [92; 114]
  else if c =? 34 then [92; 34]
  else if c =? 92 then [92; 92]
  else if c <? 32 then unicode_escape c
  else [c].

(** QuoteJSONString walks the code points: a surrogate pair is copied,
    a lone surrogate is escaped. *)
Fixpoint quote_units (s : jsstring) : jsstring :=
  match s with
  | [] => []
  | c :: rest =>
      if is_lead c then
        match rest with
        | d :: rest' =>
            if is_trail d then c :: d :: quote_units rest'
            else unicode_escape c ++ quote_units rest
        | [] => unicode_escape c
        end
      else if is_trail c then unicode_escape c ++ quote_units rest
      else escape_unit c ++ quote_units rest
  end.

Definition quote (s : jsstring) : jsstring := 34 :: quote_units s ++ [34].

(** Decimal digits of [n], most significant first, in front of [acc]. *)
Fixpoint to_digits (fuel : nat) (n : N) (acc : jsstring) : jsstring :=
  match fuel with
  | O => acc
  | S fuel =>
      let acc := (48 + n mod 10) :: acc in
      if n <? 10 then acc else to_digits fuel (n / 10) acc
  end.

(** Number::toString for the integers the program stores. *)
Definition number_to_string (z : Z) : jsstring :=
  let n := Z.abs_N z in
  let digits := to_digits (S (N.to_nat (N.log2 n))) n [] in
  if (z <? 0)%Z then 45 :: digits else digits.

Fixpoint join (sep : jsstring) (parts : list jsstring) : jsstring :=
  match parts with
  | [] => []
  | [p] => p
  | p :: ps => p ++ sep ++ join sep ps
  end.

(** SerializeJSONProperty with the state [gap], [indent]. *)
Fixpoint serialize (gap indent : jsstring) (v : json) : jsstring :=
  match v with
  | JNull => js "null"
  | JBool true => js "true"
  | JBool false => js "false"
  | JNumber z => number_to_string z
  | JString s => quote s
  | JArray elements =>
      let stepback := indent in
      let indent := indent ++ gap in
      match elements with
      | [] => js "[]"
      | _ =>
          let partial := map (serialize gap indent) elements in
          match gap with
          | [] => js "[" ++ join (js ",") partial ++ js "]"
          | _ => js "[" ++ 10 :: indent ++ join (44 :: 10 :: indent) partial
                 ++ 10 :: stepback ++ js "]"
          end
      end
  | JObject members =>
      let stepback := indent in
      let indent := indent ++ gap in
      match members with
      | [] => js "{}"
      | _ =>
          let partial :=
            map (fun kv => quote (fst kv) ++ js ":"
                           ++ match gap with [] => [] | _ => [32] end
                           ++ serialize gap indent (snd kv)) members in
          match gap with
          | [] => js "{" ++ join (js ",") partial ++ js "}"
          | _ => js "{" ++ 10 :: indent ++ join (44 :: 10 :: indent) partial
                 ++ 10 :: stepback ++ js "}"
          end
      end
  end.

(** [JSON.stringify(value)] and [JSON.stringify(value, null, 2)]. *)
Definition stringify (v : json) : jsstring := serialize [] [] v.
Definition stringify2 (v : json) : jsstring := serialize [32; 32] [] v.

(** *** JSON.parse *)

Definition is_ws (c : N) : bool :=
  (c =? 32) || (c =? 9) || (c =? 10) || (c =? 13).

Fixpoint skip_ws (s : jsstring) : jsstring :=
  match s with
  | c :: r => if is_ws c then skip_ws r else s
  | [] => []
  end.

Definition is_digit (c : N) : bool := (48 <=? c) && (c <=? 57).

Definition hex_value (c : N) : option N :=
  if is_digit c then Some (c - 48)
  else if (97 <=? c) && (c <=? 102) then Some (c - 87)
  else if (65 <=? c) && (c <=? 70) then Some (c - 55)
  else None.

Definition unescape (e : N) : option N :=
  if e =? 34 then Some 34
  else if e =? 92 then Some 92
  else if e =? 47 then Some 47
  else if e =? 98 then Some 8
  else if e =? 102 then Some 12
  else if e =? 110 then Some 10
  else if e =? 114 then Some 13
  else if e =? 116 then Some 9
  else None.

Definition prepend (c : N) (r : option (jsstring * jsstring))
  : option (jsstring * jsstring) :=
  match r with
  | Some (s, rest) => Some (c :: s, rest)
  | None => None
  end.

(** The characters of a string literal after its opening quote. *)
Fixpoint parse_string_body (s : jsstring) : option (jsstring * jsstring) :=
  match s with
  | [] => None
  | c :: r =>
      if c =? 34 then Some ([], r)
      else if c =? 92 then
        match r with
        | [] => None
        | e :: r' =>
            if e =? 117 then
              match r' with
              | h3 :: h2 :: h1 :: h0 :: r'' =>
                  match hex_value h3, hex_value h2, hex_value h1, hex_value h0 with
                  | Some d3, Some d2, Some d1, Some d0 =>
                      prepend (((d3 * 16 + d2) * 16 + d1) * 16 + d0)
                              (parse_string_body r'')
                  | _, _, _, _ => None
                  end
              | _ => None
              end
            else
              match unescape e with
              | Some u => prepend u (parse_string_body r')
              | None => None
              end
        end
      else if c <? 32 then None
      else prepend c (parse_string_body r)
  end.

Fixpoint parse_digits (acc : N) (s : jsstring) : N * jsstring :=
  match s with
  | c :: r => if is_digit c then parse_digits (acc * 10 + (c - 48)) r else (acc, s)
  | [] => (acc, [])
  end.

(** Where an integer literal may stop: not before a fraction or an
    exponent, which the program's data never has. *)
Definition integer_ends (s : jsstring) : bool :=
  match s with
  | [] => true
  | c :: _ => negb ((c =? 46) || (c =? 101) || (c =? 69))
  end.

(** [0] or a digit 1-9 followed by digits. *)
Definition parse_natural (s : jsstring) : option (N * jsstring) :=
  match s with
  | [] => None
  | c :: r =>
      if c =? 48 then
        match r with
        | d :: _ => if is_digit d then None else Some (0, r)
        | [] => Some (0, r)
        end
      else if is_digit c then Some (parse_digits (c - 48) r)
      else None
  end.

Definition parse_number (s : jsstring) : option (json * jsstring) :=
  match s with
  | [] => None
  | c :: r =>
      match (if c =? 45 then parse_natural r else parse_natural s) with
      | Some (n, rest) =>
          if integer_ends rest
          then Some (JNumber (if c =? 45 then (- Z.of_N n)%Z else Z.of_N n), rest)
          else None
      | None => None
      end
  end.

Fixpoint strip_prefix (p s : jsstring) : option jsstring :=
  match p, s with
  | [], _ => Some s
  | a :: p', b :: s' => if a =? b then strip_prefix p' s' else None
  | _ :: _, [] => None
  end.

Definition parse_literal (s : jsstring) : option (json * jsstring) :=
  match strip_prefix (js "null") s with
  | Some r => Some (JNull, r)
  | None =>
      match strip_prefix (js "true") s with
      | Some r => Some (JBool true, r)
      | None =>
          match strip_prefix (js "false") s with
          | Some r => Some (JBool false, r)
          | None => parse_number s
          end
      end
  end.

(** Recursive descent; [fuel] bounds the number of values and list
    cells still to be read. *)
Fixpoint parse_value (fuel : nat) (s : jsstring) : option (json * jsstring) :=
  match fuel with
  | O => None
  | S fuel =>
      match skip_ws s with
      | [] => None
      | c :: r =>
          if c =? 34 then
            match parse_string_body r with
            | Some (str, rest) => Some (JString str, rest)
            | None => None
            end
          else if c =? 91 then
            match skip_ws r with
            | [] => None
            | d :: r' =>
                if d =? 93 then Some (JArray [], r')
                else match parse_elements fuel (d :: r') with
                     | Some (l, rest) => Some (JArray l, rest)
                     | None => None
                     end
            end
          else if c =? 123 then
            match skip_ws r with
            | [] => None
            | d :: r' =>
                if d =? 125 then Some (JObject [], r')
                else match parse_members fuel (d :: r') with
                     | Some (m, rest) => Some (JObject m, rest)
                     | None => None
                     end
            end
          else parse_literal (c :: r)
      end
  end
with parse_elements (fuel : nat) (s : jsstring) : option (list json * jsstring) :=
  match fuel with
  | O => None
  | S fuel =>
      match parse_value fuel s with
      | None => None
      | Some (v, r) =>
          match skip_ws r with
          | [] => None
          | c :: r' =>
              if c =? 44 then
                match parse_elements fuel r' with
                | Some (l, rest) => Some (v :: l, rest)
                | None => None
                end
              else if c =? 93 then Some ([v], r')
              else None
          end
      end
  end
with parse_members (fuel : nat) (s : jsstring)
  : option (list (jsstring * json) * jsstring) :=
  match fuel with
  | O => None
  | S fuel =>
      match skip_ws s with
      | [] => None
      | q :: r0 =>
          if q =? 34 then
            match parse_string_body r0 with
            | None => None
            | Some (k, r1) =>
                match skip_ws r1 with
                | [] => None
                | colon :: r2 =>
                    if colon =? 58 then
                      match parse_value fuel r2 with
                      | None => None
                      | Some (v, r) =>
                          match skip_ws r with
                          | [] => None
                          | c :: r' =>
                              if c =? 44 then
                                match parse_members fuel r' with
                                | Some (m, rest) => Some ((k, v) :: m, rest)
                                | None => None
                                end
                              else if c =? 125 then Some ([(k, v)], r')
                              else None
                          end
                      end
                    else None
                end
            end
          else None
      end
  end.

(** [JSON.parse(text)]; [None] is SyntaxError. *)
Definition parse (text : jsstring) : option json :=
  match parse_value (S (length text)) text with
  | Some (v, rest) =>
      match skip_ws rest with
      | [] => Some v
      | _ :: _ => None
      end
  | None => None
  end.

(** *** Notions used to state that a text reads back as its value *)

(** Induction on JSON values, with the hypothesis for every element
    and member. *)
Section JsonInduction.
Variable P : json -> Prop.
Hypothesis HNull : P JNull.
Hypothesis HBool : forall b, P (JBool b).
Hypothesis HNumber : forall z, P (JNumber z).
Hypothesis HString : forall s, P (JString s).
Hypothesis HArray : forall l, Forall P l -> P (JArray l).
Hypothesis HObject : forall m, Forall (fun kv => P (snd kv)) m -> P (JObject m).

Fixpoint json_induction (v : json) : P v :=
  match v with
  | JNull => HNull
  | JBool b => HBool b
  | JNumber z => HNumber z
  | JString s => HString s
  | JArray l =>
      HArray l ((fix all (l : list json) : Forall P l :=
                   match l with
                   | [] => @List.Forall_nil _ P
                   | x :: t => @List.Forall_cons _ P x t (json_induction x) (all t)
                   end) l)
  | JObject m =>
      HObject m ((fix all (m : list (jsstring * json))
                    : Forall (fun kv => P (snd kv)) m :=
                    match m with
                    | [] => @List.Forall_nil _ _
                    | kv :: t => @List.Forall_cons _ _ kv t (json_induction (snd kv)) (all t)
                    end) m)
  end.
End JsonInduction.

(** The fuel that reading a value back takes. *)
Fixpoint size (v : json) : nat :=
  match v with
  | JArray l => S (fold_right (fun e n => S (size e + n)%nat) O l)
  | JObject m => S (fold_right (fun kv n => S (size (snd kv) + n)%nat) O m)
  | _ => 1%nat
  end.

(** A text of white space only. *)
Definition blank (s : jsstring) : Prop := Forall (fun c => is_ws c = true) s.

(** What may come after a value: the end, a comma, a closing bracket
    or white space. *)
Definition follows (r : jsstring) : bool :=
  match r with
  | [] => true
  | c :: _ => (c =? 44) || (c =? 93) || (c =? 125) || is_ws c
  end.

(** The first character of a serialized value. *)
Definition opens (c : N) : Prop :=
  c = 34 \/ c = 91 \/ c = 123 \/ c = 110 \/ c = 116 \/ c = 102 \/ c = 45
  \/ is_digit c = true.

(** A value read back from its text, whatever follows it. *)
Definition reads_back (ser : json -> jsstring) (v : json) : Prop :=
  forall r fuel, follows r = true -> (size v <= fuel)%nat ->
                 parse_value fuel (ser v ++ r) = Some (v, r).

End JS.

(** ** services/storage.ts and App.tsx *)
Module Client.
Import JS.

(** *** Data *)

(** [interface Appointment]. An [id] is a number that [Date.now()] or a
    stored file gave: an integer. *)
Record Appointment := {
  id : Z;
  client_name : jsstring;
  phone_number : jsstring;
  appointment_date : jsstring;
  appointment_time : jsstring;
  status : Status
}.

Record AppSettings := {
  n8n_webhook_url : jsstring;
  use_github : bool;
  github_token : jsstring;
  github_repo : jsstring;
  github_path : jsstring;
  github_branch : jsstring
}.

Definition DEFAULT_SETTINGS : AppSettings :=
  {| n8n_webhook_url := [];
     use_github := false;
     github_token := [];
     github_repo := [];
     github_path := js "remindly-data.json";
     github_branch := js "main" |}.

Record GitHubConfig := {
  token : jsstring;
  repo : jsstring;
  path : jsstring;
  branch : jsstring
}.

(** The form fields held by [newAppt]. *)
Record Draft := {
  draft_client_name : jsstring;
  draft_phone_number : jsstring;
  draft_appointment_date : jsstring;
  draft_appointment_time : jsstring
}.

Definition empty_draft : Draft :=
  {| draft_client_name := []; draft_phone_number := [];
     draft_appointment_date := []; draft_appointment_time := [] |}.

(** A string is truthy when it is not empty. *)
Definition truthy (s : jsstring) : bool :=
  match s with [] => false | _ :: _ => true end.

(** *** Values as JSON

    TypeScript's [T] is erased at run time; the typed model converts at
    the two places where a value becomes text or comes back from it. *)
Class Data (T : Type) := {
  to_json : T -> json;
  of_json : json -> option T
}.

Definition status_text (s : Status) : jsstring :=
  match s with pending => js "pending" | sent => js "sent" end.

Definition status_of_text (s : jsstring) : option Status :=
  if decide (s = js "pending") then Some pending
  else if decide (s = js "sent") then Some sent
  else None.

(** Property order of [{ ...newAppt, id, status }]. *)
Definition appointment_to_json (a : Appointment) : json :=
  JObject [ (js "client_name", JString (client_name a));
            (js "phone_number", JString (phone_number a));
            (js "appointment_date", JString (appointment_date a));
            (js "appointment_time", JString (appointment_time a));
            (js "id", JNumber (id a));
            (js "status", JString (status_text (status a))) ].

Definition appointment_of_json (j : json) : option Appointment :=
  match j with
  | JObject m =>
      match get (js "id") m, get (js "client_name") m, get (js "phone_number") m,
            get (js "appointment_date") m, get (js "appointment_time") m,
            get (js "status") m with
      | Some (JNumber i), Some (JString name), Some (JString phone),
        Some (JString date), Some (JString time), Some (JString st) =>
          match status_of_text st with
          | Some st =>
              Some {| id := i; client_name := name; phone_number := phone;
                      appointment_date := date; appointment_time := time;
                      status := st |}
          | None => None
          end
      | _, _, _, _, _, _ => None
      end
  | _ => None
  end.

Fixpoint appointments_of_json (l : list json) : option (list Appointment) :=
  match l with
  | [] => Some []
  | j :: rest =>
      match appointment_of_json j, appointments_of_json rest with
      | Some a, Some l' => Some (a :: l')
      | _, _ => None
      end
  end.

#[export] Instance appointments_data : Data (list Appointment) := {|
  to_json l := JArray (map appointment_to_json l);
  of_json j := match j with JArray l => appointments_of_json l | _ => None end
|}.

#[export] Instance settings_data : Data AppSettings := {|
  to_json s :=
    JObject [ (js "n8n_webhook_url", JString (n8n_webhook_url s));
              (js "use_github", JBool (use_github s));
              (js "github_token", JString (github_token s));
              (js "github_repo", JString (github_repo s));
              (js "github_path", JString (github_path s));
              (js "github_branch", JString (github_branch s)) ];
  of_json j :=
    match j with
    | JObject m =>
        match get (js "n8n_webhook_url") m, get (js "use_github") m,
              get (js "github_token") m, get (js "github_repo") m,
              get (js "github_path") m, get (js "github_branch") m with
        | Some (JString url), Some (JBool use), Some (JString tok),
          Some (JString rep), Some (JString pth), Some (JString br) =>
            Some {| n8n_webhook_url := url; use_github := use; github_token := tok;
                    github_repo := rep; github_path := pth; github_branch := br |}
        | _, _, _, _, _, _ => None
        end
    | _ => None
    end
|}.

(** *** The world the code runs in *)

(** The parsed body of a response of the contents API, with the three
    properties the code reads; a property may be undefined. *)
Record ApiJson := {
  content : option jsstring;
  sha : option jsstring;
  message : option jsstring
}.

(** A [fetch] response; [body = None] is a body that is not JSON. *)
Module Http.
Record Response := {
  status : nat;
  statusText : jsstring;
  body : option ApiJson
}.
End Http.
Abbreviation Response := Http.Response.

(** The body of the PUT request. *)
Record PutBody := {
  put_message : jsstring;
  put_content : jsstring;
  put_branch : jsstring;
  put_sha : option jsstring
}.

Record GitHubFile := { file_content : jsstring; file_sha : jsstring }.

(** A file is addressed by repository, path and branch. *)
Abbreviation Location := (jsstring * jsstring * jsstring)%type.
Abbreviation Remote := (gmap Location GitHubFile).

(** What can go wrong with one request: [fetch] rejects, or something
    other than the file service answers (401, 403, 5xx, ...). *)
Inductive Fault := Unreachable | Answer (r : Response).

(** The environment's part in one request to the remote store: what
    other writers did to it since the last request, and a fault. *)
Record Turn := { others : Remote -> Remote; fault : option Fault }.

Definition quiet : Turn := {| others := fun r => r; fault := None |}.

(** What the [fetch] of the webhook comes to. *)
Inductive FetchOutcome := Responded (st : nat) | Rejected.

(** What a [localStorage.setItem] comes to: the entry is written, or the
    call throws (the quota is used up, or the storage is not available). *)
Inductive StoreOutcome := Stored | Refused.

(** The calls to the outside, answered or not. *)
Inductive Event :=
| SetItem (key value : jsstring)
| Get (loc : Location) (tok : jsstring)
| Put (loc : Location) (tok : jsstring) (b : PutBody)
| Post (url : jsstring) (appt : Appointment)
| ConsoleError
| Alert (msg : jsstring).

(** The React state the handlers read and set. The flags that only
    drive the display ([isAdding], [isLoading], [isSaving],
    [triggeringIds], the video state) are left out. *)
Record AppState := {
  appointments : list Appointment;
  settings : AppSettings;
  newAppt : Draft
}.

Record World := {
  app : AppState;
  localStorage : gmap jsstring jsstring;
  github : Remote;
  turns : list Turn;               (* one per request to the remote store *)
  webhook : list FetchOutcome;     (* one per POST to the webhook *)
  writes : list StoreOutcome;      (* one per localStorage.setItem *)
  blob_sha : jsstring -> jsstring; (* the version token of a content *)
  trace : list Event
}.

Definition with_app (f : AppState -> AppState) (w : World) : World :=
  {| app := f (app w); localStorage := localStorage w; github := github w;
     turns := turns w; webhook := webhook w; writes := writes w;
     blob_sha := blob_sha w;
     trace := trace w |}.

Definition with_localStorage (m : gmap jsstring jsstring) (w : World) : World :=
  {| app := app w; localStorage := m; github := github w;
     turns := turns w; webhook := webhook w; writes := writes w;
     blob_sha := blob_sha w;
     trace := trace w |}.

Definition with_github (r : Remote) (t : list Turn) (w : World) : World :=
  {| app := app w; localStorage := localStorage w; github := r;
     turns := t; webhook := webhook w; writes := writes w;
     blob_sha := blob_sha w;
     trace := trace w |}.

Definition with_webhook (o : list FetchOutcome) (w : World) : World :=
  {| app := app w; localStorage := localStorage w; github := github w;
     turns := turns w; webhook := o; writes := writes w;
     blob_sha := blob_sha w;
     trace := trace w |}.

Definition with_writes (o : list StoreOutcome) (w : World) : World :=
  {| app := app w; localStorage := localStorage w; github := github w;
     turns := turns w; webhook := webhook w; writes := o;
     blob_sha := blob_sha w; trace := trace w |}.

Definition log (e : Event) (w : World) : World :=
  {| app := app w; localStorage := localStorage w; github := github w;
     turns := turns w; webhook := webhook w; writes := writes w;
     blob_sha := blob_sha w;
     trace := trace w ++ [e] |}.

(** *** Computations that change the world and may throw *)

Inductive Exception :=
| FailedToFetch           (* TypeError: fetch rejected *)
| SyntaxError             (* JSON.parse, response.json() *)
| InvalidCharacterError   (* btoa, atob *)
| QuotaExceededError      (* localStorage.setItem *)
| Error (msg : jsstring). (* new Error(msg) *)

Inductive Completion (A : Type) :=
| Normal (a : A)
| Throw (e : Exception).
Arguments Normal {A} a.
Arguments Throw {A} e.

Definition M (A : Type) : Type := World -> Completion A * World.

Definition ret {A} (a : A) : M A := fun w => (Normal a, w).

Definition throw {A} (e : Exception) : M A := fun w => (Throw e, w).

Definition bind {A B} (m : M A) (k : A -> M B) : M B :=
  fun w =>
    match m w with
    | (Normal a, w') => k a w'
    | (Throw e, w') => (Throw e, w')
    end.

(** [try { m } catch (error) { handler }] *)
Definition try_catch {A} (m : M A) (handler : Exception -> M A) : M A :=
  fun w =>
    match m w with
    | (Normal a, w') => (Normal a, w')
    | (Throw e, w') => handler e w'
    end.

Definition read {A} (f : World -> A) : M A := fun w => (Normal (f w), w).
Definition modify (f : World -> World) : M unit := fun w => (Normal tt, f w).

(** A built-in that throws [e] where the model has [None]. *)
Definition or_throw {A} (e : Exception) (o : option A) : M A :=
  match o with Some a => ret a | None => throw e end.

Declare Scope js_scope.
Delimit Scope js_scope with js.
Notation "'let*' x ':=' m 'in' k" := (bind m (fun x => k))
  (at level 10, x name, m at level 100, k at level 200) : js_scope.
Notation "m ';;' k" := (bind m (fun _ => k))
  (at level 100, k at level 200, right associativity) : js_scope.
Local Open Scope js_scope.

Definition console_error : M unit := modify (log ConsoleError).
Definition alert (msg : jsstring) : M unit := modify (log (Alert msg)).

Definition setAppointments (l : list Appointment) : M unit :=
  modify (with_app (fun s => {| appointments := l; settings := settings s;
                                newAppt := newAppt s |})).

Definition setSettings (s' : AppSettings) : M unit :=
  modify (with_app (fun s => {| appointments := appointments s; settings := s';
                                newAppt := newAppt s |})).

Definition setNewAppt (d : Draft) : M unit :=
  modify (with_app (fun s => {| appointments := appointments s;
                                settings := settings s; newAppt := d |})).

(** [localStorage.getItem], [localStorage.setItem]. A [setItem] writes
    the entry or throws and writes nothing, as the next of [writes]
    says; with [writes] used up it writes. *)
Definition getItem (key : jsstring) : M (option jsstring) :=
  read (fun w => localStorage w !! key).

Definition setItem (key value : jsstring) : M unit :=
  fun w =>
    let w' := log (SetItem key value) (with_writes (tl (writes w)) w) in
    match writes w with
    | Refused :: _ => (Throw QuotaExceededError, w')
    | Stored :: _ | [] =>
        (Normal tt, with_localStorage (<[key := value]> (localStorage w)) w')
    end.

(** *** The remote file store, as the requests see it *)

(** The contents API returns the text in lines of sixty characters. *)
Fixpoint wrap (room : nat) (s : jsstring) : jsstring :=
  match s with
  | [] => [10%N]
  | c :: r =>
      match room with
      | O => 10%N :: c :: wrap 59 r
      | S room => c :: wrap room r
      end
  end.

Definition rejected (st : nat) (text : string) (msg : jsstring) : Response :=
  {| Http.status := st; Http.statusText := js text;
     Http.body := Some {| content := None; sha := None; message := Some msg |} |}.

(** The message of the answer to a write whose version token is stale. *)
Definition version_mismatch : jsstring :=
  js "the file is at a different version than the one expected".

Definition conflict : Response := rejected 409 "Conflict" version_mismatch.

(** Modelled from the spec: the remote file-content API, which is not
    part of the repository. GET answers the current file and its
    version token, or 404 when there is none. *)
Definition api_get (loc : Location) (r : Remote) : Response :=
  match r !! loc with
  | Some f =>
      {| Http.status := 200; Http.statusText := js "OK";
         Http.body := Some {| content := Some (wrap 60 (file_content f));
                              sha := Some (file_sha f); message := None |} |}
  | None => rejected 404 "Not Found" (js "Not Found")
  end.

(** Modelled from the spec: the remote file-content API, which is not
    part of the repository. PUT writes the content when the version
    token passed is the one of the current file (none when there is no
    file), and rejects the write otherwise, leaving the file alone. *)
Definition api_put (hash : jsstring -> jsstring) (loc : Location) (b : PutBody)
    (r : Remote) : Response * Remote :=
  let written := {| file_content := put_content b; file_sha := hash (put_content b) |} in
  let accepted (st : nat) (text : string) : Response :=
    {| Http.status := st; Http.statusText := js text;
       Http.body := Some {| content := None; sha := Some (file_sha written);
                            message := None |} |} in
  match r !! loc, put_sha b with
  | None, None => (accepted 201 "Created", <[loc := written]> r)
  | Some f, Some expected =>
      if decide (expected = file_sha f)
      then (accepted 200 "OK", <[loc := written]> r)
      else (conflict, r)
  | Some f, None =>
      (rejected 422 "Unprocessable Entity" (js "the version token is missing"), r)
  | None, Some _ => (conflict, r)
  end.

(** One request: the other writers act, then the fault or the service
    decides the answer. When [turns] is used up the environment is
    [quiet]. *)
Definition request (e : Event) (serve : Remote -> Response * Remote) : M Response :=
  fun w =>
    let turn := match turns w with t :: _ => t | [] => quiet end in
    let r := others turn (github w) in
    match fault turn with
    | Some Unreachable => (Throw FailedToFetch, log e (with_github r (tl (turns w)) w))
    | Some (Answer resp) => (Normal resp, log e (with_github r (tl (turns w)) w))
    | None =>
        let (resp, r') := serve r in
        (Normal resp, log e (with_github r' (tl (turns w)) w))
    end.

Definition location (config : GitHubConfig) : Location :=
  (repo config, path config, branch config).

(** [fetch(url, { headers })] *)
Definition fetch_get (config : GitHubConfig) : M Response :=
  request (Get (location config) (token config))
          (fun r => (api_get (location config) r, r)).

(** [fetch(url, { method: 'PUT', headers, body })] *)
Definition fetch_put (config : GitHubConfig) (b : PutBody) : M Response :=
  fun w => request (Put (location config) (token config) b)
                   (api_put (blob_sha w) (location config) b) w.

(** [fetch(settings.n8n_webhook_url, { method: 'POST', ... })]; with
    [webhook] used up the request is rejected. *)
Definition fetch_post (url : jsstring) (appt : Appointment) : M nat :=
  fun w =>
    let w' := log (Post url appt) (with_webhook (tl (webhook w)) w) in
    match webhook w with
    | Responded st :: _ => (Normal st, w')
    | Rejected :: _ | [] => (Throw FailedToFetch, w')
    end.

(** [await response.json()] *)
Definition response_json (response : Response) : M ApiJson :=
  or_throw SyntaxError (Http.body response).

(** *** class GitHubStorage *)

Definition getFile (config : GitHubConfig) : M (option ApiJson) :=
  let* response := fetch_get config in
  if (Http.status response =? 404)%nat then ret None
  else if negb (ok (Http.status response))
  then throw (Error (js "GitHub API error: " ++ Http.statusText response))
  else let* file := response_json response in ret (Some file).

(** ToString of a property that may be undefined. *)
Definition to_String (o : option jsstring) : jsstring :=
  match o with Some s => s | None => js "undefined" end.

(** [JSON.parse(content)] returned as a [T]. A text that denotes no
    value of [T] has no counterpart in the typed model and is treated
    like a text that does not parse. *)
Definition JSON_parse {T} `{Data T} (text : jsstring) : M T :=
  let* j := or_throw SyntaxError (parse text) in
  or_throw SyntaxError (of_json j).

Definition loadData {T} `{Data T} (config : GitHubConfig) (defaultValue : T) : M T :=
  try_catch
    (let* file := getFile config in
     match file with
     | None => ret defaultValue
     | Some file =>
         let* content := or_throw InvalidCharacterError (atob (to_String (content file))) in
         JSON_parse content
     end)
    (fun error => console_error ;; ret defaultValue).

Definition saveData {T} `{Data T} (config : GitHubConfig) (data : T) : M unit :=
  let* existingFile := getFile config in
  let sha := match existingFile with Some f => sha f | None => None end in
  let* content := or_throw InvalidCharacterError (btoa (stringify2 (to_json data))) in
  let body :=
    {| put_message := js "Update Remindly data";
       put_content := content;
       put_branch := branch config;
       put_sha := match sha with
                  | Some s => if truthy s then Some s else None
                  | None => None
                  end |} in
  let* response := fetch_put config body in
  if negb (ok (Http.status response)) then
    let* err := response_json response in
    throw (Error (js "GitHub Save Error: " ++
                  match message err with
                  | Some m => if truthy m then m else Http.statusText response
                  | None => Http.statusText response
                  end))
  else ret tt.

(** *** LocalStorageService *)

Definition load {T} `{Data T} (key : jsstring) (defaultValue : T) : M T :=
  let* saved := getItem key in
  match saved with
  | None => ret defaultValue
  | Some saved =>
      if negb (truthy saved) then ret defaultValue
      else try_catch (JSON_parse saved) (fun _ => ret defaultValue)
  end.

Definition save {T} `{Data T} (key : jsstring) (data : T) : M unit :=
  setItem key (stringify (to_json data)).

(** *** App *)

(** [settings.use_github && settings.github_token && settings.github_repo] *)
Definition remote_enabled (s : AppSettings) : bool :=
  use_github s && truthy (github_token s) && truthy (github_repo s).

(** [new GitHubStorage({ token, repo, path, branch })] *)
Definition GitHubStorage (s : AppSettings) : GitHubConfig :=
  {| token := github_token s; repo := github_repo s;
     path := github_path s; branch := github_branch s |}.

Definition remindly_appointments : jsstring := js "remindly_appointments".
Definition remindly_settings : jsstring := js "remindly_settings".

Definition loadInitialData (currentSettings : AppSettings) : M unit :=
  try_catch
    (if remote_enabled currentSettings then
       let* data := loadData (GitHubStorage currentSettings) ([] : list Appointment) in
       setAppointments data
     else
       let* data := load remindly_appointments ([] : list Appointment) in
       setAppointments data)
    (fun error =>
       console_error ;;
       let* data := load remindly_appointments ([] : list Appointment) in
       setAppointments data).

(** The effect run on mount. *)
Definition mount : M unit :=
  let* initialSettings := load remindly_settings DEFAULT_SETTINGS in
  setSettings initialSettings ;;
  loadInitialData initialSettings.

Definition persistData (newAppointments : list Appointment) : M unit :=
  setAppointments newAppointments ;;
  try_catch
    (save remindly_appointments newAppointments ;;
     let* settings := read (fun w => settings (app w)) in
     if remote_enabled settings
     then saveData (GitHubStorage settings) newAppointments
     else ret tt)
    (fun error => console_error).

(** [now] is the value of [Date.now()]. *)
Definition handleAddAppointment (now : Z) : M unit :=
  let* newAppt := read (fun w => newAppt (app w)) in
  let* appointments := read (fun w => appointments (app w)) in
  let appt := {| id := now;
                 client_name := draft_client_name newAppt;
                 phone_number := draft_phone_number newAppt;
                 appointment_date := draft_appointment_date newAppt;
                 appointment_time := draft_appointment_time newAppt;
                 status := pending |} in
  let updated := appointments ++ [appt] in
  persistData updated ;;
  setNewAppt empty_draft.

Definition handleDelete (i : Z) : M unit :=
  let* appointments := read (fun w => appointments (app w)) in
  let updated := List.filter (fun a => negb (id a =? i)%Z) appointments in
  persistData updated.

(** [{ ...a, status: 'sent' }] *)
Definition set_sent (a : Appointment) : Appointment :=
  {| id := id a; client_name := client_name a; phone_number := phone_number a;
     appointment_date := appointment_date a; appointment_time := appointment_time a;
     status := sent |}.

Definition handleTrigger (i : Z) : M unit :=
  let* appointments := read (fun w => appointments (app w)) in
  let* settings := read (fun w => settings (app w)) in
  let appt := find (fun a => (id a =? i)%Z) appointments in
  match appt with
  | Some appt =>
      if truthy (n8n_webhook_url settings) then
        try_catch
          (let* res := fetch_post (n8n_webhook_url settings) appt in
           if ok res then
             let updated := map (fun a => if (id a =? i)%Z then set_sent a else a)
                                appointments in
             persistData updated
           else alert (js "n8n error: " ++ number_to_string (Z.of_nat res)))
          (fun error =>
             console_error ;;
             alert (js "Network error. Make sure your n8n webhook allows CORS or check your connection."))
      else alert (js "Missing appointment data or n8n Webhook URL")
  | None => alert (js "Missing appointment data or n8n Webhook URL")
  end.

Definition saveSettings : M unit :=
  let* settings := read (fun w => settings (app w)) in
  save remindly_settings settings ;;
  alert (js "Settings saved locally! Attempting to sync...") ;;
  loadInitialData settings.

(** *** Notions used in the statements *)

(** The next [localStorage.setItem] writes its entry. *)
Definition accepted (w : World) : bool :=
  match writes w with Refused :: _ => false | _ => true end.

(** The events of a computation that only talks to the remote store. *)
Definition remote_event (e : Event) : Prop :=
  match e with
  | Get _ _ | Put _ _ _ | ConsoleError => True
  | SetItem _ _ | Post _ _ | Alert _ => False
  end.

(** [m] leaves the page state, the local store and the webhook alone and
    adds only remote events to the trace. *)
Definition remote_only {A} (m : M A) : Prop :=
  forall w,
    app (snd (m w)) = app w
    /\ localStorage (snd (m w)) = localStorage w
    /\ webhook (snd (m w)) = webhook w
    /\ exists es, trace (snd (m w)) = trace w ++ es /\ Forall remote_event es.

(** The text [saveData] sends for [data], and the value [loadData] makes
    of a text it receives. *)
Definition encode {T} `{Data T} (data : T) : option jsstring :=
  btoa (stringify2 (to_json data)).

Definition decode {T} `{Data T} (content : jsstring) : option T :=
  match atob content with
  | Some text =>
      match parse text with
      | Some j => of_json j
      | None => None
      end
  | None => None
  end.

(** The ways the GET of [loadData] fails on the next turn: the request
    is rejected, the answer is an error other than 404, or the content
    of the file does not decode. *)
Inductive GetFails (config : GitHubConfig) (w : World) : Prop :=
| fails_unreachable (t : Turn) (rest : list Turn) :
    turns w = t :: rest -> fault t = Some Unreachable -> GetFails config w
| fails_status (t : Turn) (rest : list Turn) (r : Response) :
    turns w = t :: rest -> fault t = Some (Answer r) ->
    Http.status r <> 404%nat -> ok (Http.status r) = false -> GetFails config w
| fails_decode (t : Turn) (rest : list Turn) (f : GitHubFile) :
    turns w = t :: rest -> fault t = None ->
    others t (github w) !! location config = Some f ->
    decode (T := list Appointment) (wrap 60 (file_content f)) = None ->
    GetFails config w.

(** From [before] to [after] nothing changed but the status of the
    appointments with id [i], which is now [sent]. *)
Definition only_status_sent (i : Z) (before after : list Appointment) : Prop :=
  length after = length before
  /\ forall (n : nat) (a : Appointment),
       before !! n = Some a ->
       exists a',
         after !! n = Some a'
         /\ id a' = id a /\ client_name a' = client_name a
         /\ phone_number a' = phone_number a
         /\ appointment_date a' = appointment_date a
         /\ appointment_time a' = appointment_time a
         /\ (id a = i -> status a' = sent)
         /\ (id a <> i -> a' = a).

End Client.

(** ** Sample data *)
Module Samples.
Import JS.

(** An appointment at 09:00 on the given date. *)
Definition at_nine (i : Z) (date : string) : Server.Row :=
  {| Server.id := i; Server.client_name := "Ana"; Server.phone_number := "+1555";
     Server.appointment_date := date; Server.appointment_time := "09:00";
     Server.status := pending; Server.created_at := "2025-02-01 10:00:00" |}.

Definition empty_db : Server.DB :=
  {| Server.appointments := []; Server.sqlite_sequence := 0; Server.settings := ∅ |}.

(** One appointment, id 1, and a webhook configured. *)
Definition one_row_db : Server.DB :=
  {| Server.appointments := [at_nine 1 "2025-03-01"];
     Server.sqlite_sequence := 1;
     Server.settings := {[ "n8n_webhook_url" := "https://n8n.example/webhook" ]} |}.

Definition ana : Client.Appointment :=
  {| Client.id := 1; Client.client_name := js "Ana"; Client.phone_number := js "+1555";
     Client.appointment_date := js "2025-03-01"; Client.appointment_time := js "09:00";
     Client.status := pending |}.

(** A client whose name starts with U+0141, a letter outside Latin-1. *)
Definition lukasz : Client.Appointment :=
  {| Client.id := 2; Client.client_name := 321%N :: js "ukasz";
     Client.phone_number := js "+48555";
     Client.appointment_date := js "2025-03-02"; Client.appointment_time := js "09:00";
     Client.status := pending |}.

Definition local_settings : Client.AppSettings :=
  {| Client.n8n_webhook_url := js "https://n8n.example/webhook";
     Client.use_github := false;
     Client.github_token := []; Client.github_repo := [];
     Client.github_path := js "remindly-data.json";
     Client.github_branch := js "main" |}.

Definition remote_settings : Client.AppSettings :=
  {| Client.n8n_webhook_url := js "https://n8n.example/webhook";
     Client.use_github := true;
     Client.github_token := js "ghp_token"; Client.github_repo := js "owner/repo";
     Client.github_path := js "remindly-data.json";
     Client.github_branch := js "main" |}.

(** A page showing [l] under settings [s], with an empty local store and
    an empty remote store, facing the turns [t] and the webhook answers
    [o]. *)
Definition page (s : Client.AppSettings) (l : list Client.Appointment)
    (t : list Client.Turn) (o : list Client.FetchOutcome) : Client.World :=
  {| Client.app := {| Client.appointments := l; Client.settings := s;
                      Client.newAppt := Client.empty_draft |};
     Client.localStorage := ∅;
     Client.github := ∅;
     Client.turns := t;
     Client.webhook := o;
     Client.writes := [];
     Client.blob_sha := fun c => 35%N :: c;
     Client.trace := [] |}.

(** The remote file as our GET sees it, and as another writer leaves
    it afterwards; both hold the text of an empty array. *)
Definition seen_file : Client.GitHubFile :=
  {| Client.file_content := js "W10="; Client.file_sha := js "a11" |}.

Definition foreign_file : Client.GitHubFile :=
  {| Client.file_content := js "W10="; Client.file_sha := js "f00" |}.

(** A turn in which the other writers leave [f] at the place
    [remote_settings] names, and the service answers. *)
Definition leaves (f : Client.GitHubFile) : Client.Turn :=
  {| Client.others := fun _ => {[ Client.location (Client.GitHubStorage remote_settings) := f ]};
     Client.fault := None |}.

(** A turn in which the request is rejected. *)
Definition offline : Client.Turn :=
  {| Client.others := fun r => r; Client.fault := Some Client.Unreachable |}.

End Samples.

(** ** The server as a whole *)
Module Routes.
Import Server.

(** The requests the routes answer. [PostAppointment] carries the value
    of CURRENT_TIMESTAMP at the time of the insert. *)
Inductive Request :=
| GetAppointments
| PostAppointment (stamp : string) (req : NewAppointment)
| DeleteAppointment (i : Z)
| GetSettings
| PostSettings (n8n_webhook_url : string)
| TriggerReminder (i : Z).

(** The route table of [startServer]. *)
Definition handle (net : Call -> FetchOutcome) (rq : Request) (db : DB)
  : Response * DB :=
  match rq with
  | GetAppointments => list_appointments db
  | PostAppointment stamp req => create_appointment stamp req db
  | DeleteAppointment i => delete_appointment i db
  | GetSettings => get_settings db
  | PostSettings url => post_settings url db
  | TriggerReminder i => fst (trigger_reminder net i db)
  end.

(** The database after a sequence of requests. *)
Fixpoint serve (net : Call -> FetchOutcome) (rqs : list Request) (db : DB) : DB :=
  match rqs with
  | [] => db
  | rq :: rest => serve net rest (snd (handle net rq db))
  end.

(** The database of a first start: both tables just created. *)
Definition created : DB :=
  {| appointments := []; sqlite_sequence := 0; settings := ∅ |}.

(** The keys are in order: the rows are in ascending order of id, every
    id is positive and at most the recorded sequence value, and that
    value is a 64-bit rowid. *)
Definition keys_in_order (db : DB) : Prop :=
  StronglySorted Z.lt (map id (appointments db))
  /\ Forall (fun r => 0 < id r <= sqlite_sequence db)%Z (appointments db)
  /\ (0 <= sqlite_sequence db <= max_rowid)%Z.

End Routes.

(** ** The page as a whole *)
Module Page.
Import JS Client.

(** The state of [App] before its effect has run. *)
Definition initial : AppState :=
  {| appointments := []; settings := DEFAULT_SETTINGS; newAppt := empty_draft |}.

(** The page opened anew in the browser of [w], and opened in another
    browser, whose local store is empty. *)
Definition opened (w : World) : World := with_app (fun _ => initial) w.

Definition elsewhere (w : World) : World := with_localStorage ∅ (opened w).

(** The environment's part in the next request to the remote store. *)
Definition next_turn (w : World) : Turn :=
  match turns w with t :: _ => t | [] => quiet end.

(** A turn in which nobody else writes and the service answers; a world
    in which every turn to come is such. *)
Definition still (t : Turn) : Prop :=
  fault t = None /\ forall r, others t r = r.

Definition calm (w : World) : Prop := Forall still (turns w).

(** The local entry holds the record set the page shows. *)
Definition in_sync (w : World) : Prop :=
  localStorage w !! remindly_appointments
  = Some (stringify (to_json (appointments (app w)))).

(** An event that is a request over the network. *)
Definition network_event (e : Event) : Prop :=
  match e with
  | Get _ _ | Put _ _ _ | Post _ _ => True
  | SetItem _ _ | ConsoleError | Alert _ => False
  end.

(** The local store takes every write to come. *)
Definition roomy (w : World) : Prop := Forall (fun o => o = Stored) (writes w).

(** [appointments.map((appt) => ...)]: the page lists the records in the
    order of its state. *)
Definition shown (w : World) : list Appointment := appointments (app w).

(** A request to the webhook. *)
Definition is_post (e : Event) : bool :=
  match e with Post _ _ => true | _ => false end.

End Page.

(** * Properties *)

(** Case analysis on every comparison of code units in the goal. *)
Ltac ncases :=
  repeat match goal with
         | |- context [(?a <=? ?b)%N] => destruct (N.leb_spec a b)
         | |- context [(?a <? ?b)%N] => destruct (N.ltb_spec a b)
         | |- context [(?a =? ?b)%N] => destruct (N.eqb_spec a b)
         end; simpl; try lia; try reflexivity.

(** ** btoa and atob *)
Section Base64Facts.
Import JS.
Local Open Scope N_scope.

Lemma b64_value_char (v : N) : v < 64 -> b64_value (b64_char v) = Some v.
Proof.
  intros H. unfold b64_char.
  destruct (N.ltb_spec v 26); [unfold b64_value; ncases; f_equal; lia|].
  destruct (N.ltb_spec v 52); [unfold b64_value; ncases; f_equal; lia|].
  destruct (N.ltb_spec v 62); [unfold b64_value; ncases; f_equal; lia|].
  destruct (N.eqb_spec v 62) as [->|]; [reflexivity|].
  assert (v = 63) as -> by lia. reflexivity.
Qed.

Lemma b64_char_solid (v : N) :
  is_ascii_whitespace (b64_char v) = false /\ (b64_char v =? 61) = false.
Proof.
  unfold b64_char, is_ascii_whitespace.
  destruct (N.ltb_spec v 26); [split; ncases|].
  destruct (N.ltb_spec v 52); [split; ncases|].
  destruct (N.ltb_spec v 62); [split; ncases|].
  destruct (N.eqb_spec v 62); split; reflexivity.
Qed.

Lemma div_mod_pack (q r d : N) :
  r < d -> (q * d + r) / d = q /\ (q * d + r) mod d = r.
Proof.
  intros H. split.
  - symmetry. apply (N.div_unique _ d q r); lia.
  - symmetry. apply (N.mod_unique _ d q r); lia.
Qed.

(** The three bytes behind four sextets. *)
Lemma sextets_bytes (a b c : N) :
  a < 256 -> b < 256 -> c < 256 ->
  let v1 := a / 4 in
  let v2 := (a mod 4) * 16 + b / 16 in
  let v3 := (b mod 16) * 4 + c / 64 in
  let v4 := c mod 64 in
  (v1 < 64 /\ v2 < 64 /\ v3 < 64 /\ v4 < 64)
  /\ v1 * 4 + v2 / 16 = a
  /\ (v2 mod 16) * 16 + v3 / 4 = b
  /\ (v3 mod 4) * 64 + v4 = c.
Proof.
  intros Ha Hb Hc. cbv zeta.
  pose proof (N.div_mod a 4 ltac:(lia)) as Da.
  pose proof (N.div_mod b 16 ltac:(lia)) as Db.
  pose proof (N.div_mod c 64 ltac:(lia)) as Dc.
  pose proof (N.mod_lt a 4 ltac:(lia)) as Ma.
  pose proof (N.mod_lt b 16 ltac:(lia)) as Mb.
  pose proof (N.mod_lt c 64 ltac:(lia)) as Mc.
  assert (a / 4 < 64) as Qa by (apply N.Div0.div_lt_upper_bound; lia).
  assert (b / 16 < 16) as Qb by (apply N.Div0.div_lt_upper_bound; lia).
  assert (c / 64 < 4) as Qc by (apply N.Div0.div_lt_upper_bound; lia).
  destruct (div_mod_pack (a mod 4) (b / 16) 16 Qb) as [E1 E2].
  destruct (div_mod_pack (b mod 16) (c / 64) 4 Qc) as [E3 E4].
  rewrite E1, E2, E3, E4.
  generalize dependent (a / 4). generalize dependent (a mod 4).
  generalize dependent (b / 16). generalize dependent (b mod 16).
  generalize dependent (c / 64). generalize dependent (c mod 64).
  intros. lia.
Qed.

Lemma length_plus4_mod (A : Type) (x1 x2 x3 x4 : A) (y : list A) :
  (length (x1 :: x2 :: x3 :: x4 :: y) mod 4 = length y mod 4)%nat.
Proof.
  cbn [length]. replace (S (S (S (S (length y))))) with (length y + 1 * 4)%nat by lia.
  apply Nat.Div0.mod_add.
Qed.

Lemma rev_two (A : Type) (y : list A) :
  (2 <= length y)%nat -> exists p q r, rev y = p :: q :: r.
Proof.
  intros H. rewrite <- length_rev in H.
  destruct (rev y) as [|p [|q r]]; simpl in H; try lia. eauto.
Qed.

Lemma strip_padding_cons4 (x1 x2 x3 x4 : N) (y : jsstring) :
  y <> [] -> (length y mod 4 = 0)%nat ->
  strip_padding (x1 :: x2 :: x3 :: x4 :: y) = x1 :: x2 :: x3 :: x4 :: strip_padding y.
Proof.
  intros Hy Hlen. unfold strip_padding.
  rewrite length_plus4_mod, Hlen. cbn [Nat.eqb].
  assert (2 <= length y)%nat as H2.
  { destruct y as [|? [|? ?]]; [contradiction|simpl in Hlen; discriminate|simpl; lia]. }
  destruct (rev_two _ y H2) as (p & q & r & E).
  change (rev (x1 :: x2 :: x3 :: x4 :: y))
    with ((((rev y ++ [x4]) ++ [x3]) ++ [x2]) ++ [x1]).
  rewrite E. cbn [app].
  destruct (p =? 61); [|reflexivity].
  destruct (q =? 61).
  - rewrite !rev_app_distr. reflexivity.
  - cbn [rev]. rewrite !rev_app_distr. reflexivity.
Qed.

Lemma decode_padded_cons4 (x1 x2 x3 x4 v1 v2 v3 v4 : N) (y : jsstring) :
  y <> [] -> (length y mod 4 = 0)%nat ->
  b64_value x1 = Some v1 -> b64_value x2 = Some v2 ->
  b64_value x3 = Some v3 -> b64_value x4 = Some v4 ->
  decode_padded (x1 :: x2 :: x3 :: x4 :: y) =
  option_map (fun bytes => (v1 * 4 + v2 / 16) :: ((v2 mod 16) * 16 + v3 / 4)
                           :: ((v3 mod 4) * 64 + v4) :: bytes)
             (decode_padded y).
Proof.
  intros Hy Hlen E1 E2 E3 E4. unfold decode_padded.
  rewrite strip_padding_cons4 by assumption. cbv zeta.
  rewrite length_plus4_mod.
  destruct (length (strip_padding y) mod 4 =? 1)%nat; [reflexivity|].
  cbn [b64_values]. rewrite E1, E2, E3, E4.
  destruct (b64_values (strip_padding y)); reflexivity.
Qed.

Lemma list_ind3 (A : Type) (P : list A -> Prop) :
  P [] -> (forall a, P [a]) -> (forall a b, P [a; b]) ->
  (forall a b c l, P l -> P (a :: b :: c :: l)) ->
  forall l, P l.
Proof.
  intros H0 H1 H2 H3.
  assert (forall l, P l /\ (forall a, P (a :: l)) /\ (forall a b, P (a :: b :: l))) as H.
  { induction l as [|x l (IH0 & IH1 & IH2)]; [auto|].
    repeat split; auto. }
  intros l. apply H.
Qed.

Lemma b64_encode_length (s : jsstring) : (length (b64_encode s) mod 4 = 0)%nat.
Proof.
  induction s as [| | |a b c l IH] using list_ind3; try reflexivity.
  change (b64_encode (a :: b :: c :: l))
    with (b64_char (a / 4) :: b64_char ((a mod 4) * 16 + b / 16)
          :: b64_char ((b mod 16) * 4 + c / 64) :: b64_char (c mod 64)
          :: b64_encode l).
  now rewrite length_plus4_mod.
Qed.

Lemma b64_encode_solid (s : jsstring) :
  Forall (fun c => is_ascii_whitespace c = false) (b64_encode s).
Proof.
  induction s as [| | |a b c l IH] using list_ind3; cbn [b64_encode];
    repeat (constructor; try apply b64_char_solid; try reflexivity).
  assumption.
Qed.

Lemma b64_encode_nonempty (d : N) (l : jsstring) : b64_encode (d :: l) <> [].
Proof. destruct l as [|? [|? ?]]; discriminate. Qed.

Lemma decode_padded_encode (s : jsstring) :
  Forall (fun c => c < 256) s -> decode_padded (b64_encode s) = Some s.
Proof.
  induction s as [|a|a b|a b c l IH] using list_ind3; intros Hs.
  - reflexivity.
  - inversion Hs as [|? ? Ha _]; subst.
    destruct (sextets_bytes a 0 0 Ha ltac:(lia) ltac:(lia)) as ((L1 & L2 & _) & B1 & _).
    cbv zeta in *. change (0 / 16) with 0 in *. rewrite N.add_0_r in *.
    cbn [b64_encode]. unfold decode_padded, strip_padding. cbn.
    rewrite !b64_value_char by assumption. cbn. now rewrite B1.
  - inversion Hs as [|? ? Ha Hs']; subst. inversion Hs' as [|? ? Hb _]; subst.
    destruct (sextets_bytes a b 0 Ha Hb ltac:(lia)) as ((L1 & L2 & L3 & _) & B1 & B2 & _).
    cbv zeta in *. change (0 / 64) with 0 in *. rewrite N.add_0_r in *.
    cbn [b64_encode]. unfold decode_padded, strip_padding. cbn [length rev app].
    change (4 mod 4 =? 0)%nat with true. cbv iota.
    change (61 =? 61) with true. cbv iota.
    destruct (b64_char_solid (b mod 16 * 4)) as [_ ->].
    cbn [rev app length]. change (3 mod 4 =? 1)%nat with false. cbv iota.
    cbn [b64_values]. rewrite !b64_value_char by assumption.
    cbn [option_map b64_decode]. now rewrite B1, B2.
  - inversion Hs as [|? ? Ha Hs1]; subst. inversion Hs1 as [|? ? Hb Hs2]; subst.
    inversion Hs2 as [|? ? Hc Hl]; subst.
    destruct (sextets_bytes a b c Ha Hb Hc) as ((L1 & L2 & L3 & L4) & B1 & B2 & B3).
    cbv zeta in *.
    change (b64_encode (a :: b :: c :: l))
      with (b64_char (a / 4) :: b64_char ((a mod 4) * 16 + b / 16)
            :: b64_char ((b mod 16) * 4 + c / 64) :: b64_char (c mod 64)
            :: b64_encode l).
    destruct l as [|d l].
    + cbn [b64_encode]. unfold decode_padded, strip_padding. cbn [length rev app].
      change (4 mod 4 =? 0)%nat with true. cbv iota.
      destruct (b64_char_solid (c mod 64)) as [_ ->].
      change (4 mod 4 =? 1)%nat with false. cbv iota.
      cbn [b64_values]. rewrite !b64_value_char by assumption.
      cbn [option_map b64_decode]. now rewrite B1, B2, B3.
    + rewrite (decode_padded_cons4 _ _ _ _ _ _ _ _ _
                 (b64_encode_nonempty d l)
                 (b64_encode_length (d :: l))
                 (b64_value_char _ L1) (b64_value_char _ L2)
                 (b64_value_char _ L3) (b64_value_char _ L4)).
      rewrite (IH Hl). cbn [option_map]. now rewrite B1, B2, B3.
Qed.
End Base64Facts.

(** ** JSON.stringify and JSON.parse *)
Section JsonFacts.
Import JS.
Local Open Scope N_scope.

Lemma hex_value_digit (d : N) : d < 16 -> hex_value (hex_digit d) = Some d.
Proof.
  intros H. unfold hex_value, hex_digit, is_digit.
  destruct (N.ltb_spec d 10).
  - ncases. f_equal. lia.
  - ncases. f_equal. lia.
Qed.

Lemma hex_digits_value (c : N) :
  c < 65536 ->
  ((c / 4096 * 16 + (c / 256) mod 16) * 16 + (c / 16) mod 16) * 16 + c mod 16 = c.
Proof.
  intros H.
  pose proof (N.div_mod c 16 ltac:(lia)).
  pose proof (N.div_mod (c / 16) 16 ltac:(lia)).
  pose proof (N.div_mod (c / 256) 16 ltac:(lia)).
  replace (c / 256) with (c / 16 / 16) in * by (rewrite N.Div0.div_div; reflexivity).
  replace (c / 4096) with (c / 16 / 16 / 16) in * by (rewrite !N.Div0.div_div; reflexivity).
  lia.
Qed.

Lemma parse_unicode_escape (c : N) (r : jsstring) :
  c < 65536 ->
  parse_string_body (unicode_escape c ++ r) = prepend c (parse_string_body r).
Proof.
  intros H. unfold unicode_escape. simpl.
  assert (c / 4096 < 16) by (apply N.Div0.div_lt_upper_bound; lia).
  rewrite !hex_value_digit by (try apply N.mod_lt; lia).
  now rewrite hex_digits_value.
Qed.

Lemma parse_plain_unit (c : N) (r : jsstring) :
  c <> 34 -> c <> 92 -> 32 <= c ->
  parse_string_body (c :: r) = prepend c (parse_string_body r).
Proof.
  intros H1 H2 H3. simpl.
  destruct (N.eqb_spec c 34); [contradiction|].
  destruct (N.eqb_spec c 92); [contradiction|].
  destruct (N.ltb_spec c 32); [lia|]. reflexivity.
Qed.

Lemma parse_escape_unit (c : N) (r : jsstring) :
  parse_string_body (escape_unit c ++ r) = prepend c (parse_string_body r).
Proof.
  unfold escape_unit.
  destruct (N.eqb_spec c 8) as [->|]; [reflexivity|].
  destruct (N.eqb_spec c 9) as [->|]; [reflexivity|].
  destruct (N.eqb_spec c 10) as [->|]; [reflexivity|].
  destruct (N.eqb_spec c 12) as [->|]; [reflexivity|].
  destruct (N.eqb_spec c 13) as [->|]; [reflexivity|].
  destruct (N.eqb_spec c 34) as [->|]; [reflexivity|].
  destruct (N.eqb_spec c 92) as [->|]; [reflexivity|].
  destruct (N.ltb_spec c 32).
  - apply parse_unicode_escape. lia.
  - now apply parse_plain_unit.
Qed.

Lemma surrogate_plain (c : N) :
  is_lead c || is_trail c = true -> c <> 34 /\ c <> 92 /\ 32 <= c /\ c < 65536.
Proof.
  unfold is_lead, is_trail. intros H.
  apply orb_true_iff in H. rewrite !andb_true_iff, !N.leb_le in H. lia.
Qed.

Lemma quote_units_cons (c : N) (rest : jsstring) :
  quote_units (c :: rest) =
  if is_lead c then
    match rest with
    | d :: rest' =>
        if is_trail d then c :: d :: quote_units rest'
        else unicode_escape c ++ quote_units rest
    | [] => unicode_escape c
    end
  else if is_trail c then unicode_escape c ++ quote_units rest
  else escape_unit c ++ quote_units rest.
Proof. reflexivity. Qed.

Lemma parse_quote_units_upto (n : nat) :
  forall s r, (length s <= n)%nat ->
              parse_string_body (quote_units s ++ 34 :: r) = Some (s, r).
Proof.
  induction n as [|n IH]; intros [|c rest] r Hlen; simpl in Hlen; try lia;
    try reflexivity.
  rewrite quote_units_cons.
  destruct (is_lead c) eqn:Lc.
  - destruct (surrogate_plain c) as (c1 & c2 & c3 & c4); [now rewrite Lc|].
    destruct rest as [|d rest'].
    + rewrite parse_unicode_escape by assumption. reflexivity.
    + destruct (is_trail d) eqn:Td.
      * destruct (surrogate_plain d) as (d1 & d2 & d3 & d4);
          [rewrite Td; apply orb_true_r|].
        rewrite <- !app_comm_cons.
        rewrite parse_plain_unit by assumption.
        rewrite parse_plain_unit by assumption.
        rewrite IH by (simpl in Hlen; lia). reflexivity.
      * rewrite <- app_assoc, parse_unicode_escape by assumption.
        rewrite IH by lia. reflexivity.
  - destruct (is_trail c) eqn:Tc.
    + destruct (surrogate_plain c) as (c1 & c2 & c3 & c4);
        [rewrite Tc; apply orb_true_r|].
      rewrite <- app_assoc, parse_unicode_escape by assumption.
      rewrite IH by lia. reflexivity.
    + rewrite <- app_assoc, parse_escape_unit.
      rewrite IH by lia. reflexivity.
Qed.

Lemma parse_quote_units (s r : jsstring) :
  parse_string_body (quote_units s ++ 34 :: r) = Some (s, r).
Proof. apply (parse_quote_units_upto (length s)). lia. Qed.

(** Numbers *)

Lemma to_digits_app (fuel : nat) :
  forall n acc r, to_digits fuel n acc ++ r = to_digits fuel n (acc ++ r).
Proof.
  induction fuel as [|fuel IH]; intros n acc r; simpl; [reflexivity|].
  destruct (n <? 10); [reflexivity|]. now rewrite IH.
Qed.

Lemma digit_is_digit (d : N) : d < 10 -> is_digit (48 + d) = true.
Proof. intros H. unfold is_digit. ncases. Qed.

Lemma parse_digits_to_digits (fuel : nat) :
  forall n acc, n < 2 ^ N.of_nat fuel -> 0 < n ->
    exists d r, to_digits fuel n acc = d :: r /\ is_digit d = true /\ d <> 48
                /\ parse_digits (d - 48) r = parse_digits n acc.
Proof.
  induction fuel as [|fuel IH]; intros n acc Hn Hpos.
  - simpl in Hn. lia.
  - simpl to_digits. destruct (N.ltb_spec n 10) as [Hlt|Hge].
    + exists (48 + n mod 10), acc. rewrite N.mod_small by assumption.
      repeat split.
      * now apply digit_is_digit.
      * lia.
      * f_equal. lia.
    + rewrite Nat2N.inj_succ, N.pow_succ_r' in Hn.
      destruct (IH (n / 10) ((48 + n mod 10) :: acc)) as (d & r & E & Hd & Hz & Hp).
      * apply N.Div0.div_lt_upper_bound. lia.
      * apply N.div_str_pos. lia.
      * exists d, r. repeat split; try assumption.
        rewrite Hp. simpl.
        rewrite digit_is_digit by (apply N.mod_lt; lia).
        f_equal. pose proof (N.div_mod n 10 ltac:(lia)) as Hdm.
        generalize dependent (n / 10). generalize dependent (n mod 10).
        intros. lia.
Qed.

Lemma follows_head (c : N) (r : jsstring) :
  follows (c :: r) = true -> is_digit c = false /\ integer_ends (c :: r) = true.
Proof.
  unfold follows, is_ws, integer_ends, is_digit. intros H.
  rewrite !orb_true_iff, !N.eqb_eq in H.
  assert (c = 44 \/ c = 93 \/ c = 125 \/ c = 32 \/ c = 9 \/ c = 10 \/ c = 13)
    as Hc by tauto.
  clear H. split; ncases.
Qed.

Lemma follows_not_digit (r : jsstring) (n : N) :
  follows r = true -> parse_digits n r = (n, r) /\ integer_ends r = true.
Proof.
  destruct r as [|c r]; [auto|]. intros H.
  destruct (follows_head c r H) as [Hd He]. split; [|assumption].
  simpl. now rewrite Hd.
Qed.

Lemma parse_natural_to_digits (n : N) (r : jsstring) :
  follows r = true ->
  parse_natural (to_digits (S (N.to_nat (N.log2 n))) n [] ++ r) = Some (n, r).
Proof.
  intros Hr. rewrite to_digits_app. simpl app.
  destruct (N.eq_dec n 0) as [->|Hn].
  - simpl. destruct r as [|c r]; [reflexivity|].
    destruct (follows_head c r Hr) as [-> _]. reflexivity.
  - destruct (parse_digits_to_digits (S (N.to_nat (N.log2 n))) n r)
      as (d & t & E & Hd & Hz & Hp).
    + rewrite Nat2N.inj_succ, N2Nat.id. apply N.log2_spec. lia.
    + lia.
    + rewrite E. unfold parse_natural.
      destruct (N.eqb_spec d 48); [contradiction|]. rewrite Hd, Hp.
      now destruct (follows_not_digit r n Hr) as [-> _].
Qed.

Lemma number_to_string_head (z : Z) :
  exists c t, number_to_string z = c :: t /\ (c = 45 \/ is_digit c = true).
Proof.
  unfold number_to_string. destruct (z <? 0)%Z; [eauto|].
  destruct (N.eq_dec (Z.abs_N z) 0) as [->|Hn].
  - exists 48, []. auto.
  - destruct (parse_digits_to_digits (S (N.to_nat (N.log2 (Z.abs_N z)))) (Z.abs_N z) [])
      as (d & t & E & Hd & _).
    + rewrite Nat2N.inj_succ, N2Nat.id. apply N.log2_spec. lia.
    + lia.
    + rewrite E. eauto.
Qed.

Lemma parse_number_cons (c : N) (r : jsstring) :
  parse_number (c :: r) =
  match (if c =? 45 then parse_natural r else parse_natural (c :: r)) with
  | Some (n, rest) =>
      if integer_ends rest
      then Some (JNumber (if c =? 45 then (- Z.of_N n)%Z else Z.of_N n), rest)
      else None
  | None => None
  end.
Proof. reflexivity. Qed.

Lemma parse_number_to_string (z : Z) (r : jsstring) :
  follows r = true ->
  parse_number (number_to_string z ++ r) = Some (JNumber z, r).
Proof.
  intros Hr. pose proof (parse_natural_to_digits (Z.abs_N z) r Hr) as Hp.
  destruct (follows_not_digit r 0 Hr) as [_ He].
  destruct (number_to_string_head z) as (c & t & E & Hc).
  unfold number_to_string in *.
  destruct (Z.ltb_spec z 0) as [Hneg|Hpos].
  - rewrite <- app_comm_cons, parse_number_cons. simpl (45 =? 45).
    cbv iota. rewrite Hp, He. do 3 f_equal. lia.
  - rewrite E in *. rewrite <- app_comm_cons in *. rewrite parse_number_cons.
    destruct (N.eqb_spec c 45) as [->|Hc45].
    + exfalso. destruct Hc as [_|Hc]; [|discriminate].
      clear Hp. revert E.
      destruct (N.eq_dec (Z.abs_N z) 0) as [->|Hn]; [discriminate|].
      destruct (parse_digits_to_digits (S (N.to_nat (N.log2 (Z.abs_N z)))) (Z.abs_N z) [])
        as (d & t' & E' & Hd & _).
      * rewrite Nat2N.inj_succ, N2Nat.id. apply N.log2_spec. lia.
      * lia.
      * rewrite E'. intros [= -> _]. discriminate.
    + rewrite Hp, He. do 3 f_equal. lia.
Qed.

Lemma skip_ws_blank (pre s : jsstring) : blank pre -> skip_ws (pre ++ s) = skip_ws s.
Proof. induction 1 as [|c pre Hc _ IH]; simpl; [reflexivity|]. now rewrite Hc. Qed.

Lemma skip_ws_solid (c : N) (s : jsstring) : is_ws c = false -> skip_ws (c :: s) = c :: s.
Proof. intros H. simpl. now rewrite H. Qed.

Lemma skip_ws_idem (s : jsstring) : skip_ws (skip_ws s) = skip_ws s.
Proof.
  induction s as [|c s IH]; simpl; [reflexivity|].
  destruct (is_ws c) eqn:E; [assumption|]. simpl. now rewrite E.
Qed.

Lemma parse_value_eq (fuel : nat) (s : jsstring) :
  parse_value (S fuel) s =
  match skip_ws s with
  | [] => None
  | c :: r =>
      if c =? 34 then
        match parse_string_body r with
        | Some (str, rest) => Some (JString str, rest)
        | None => None
        end
      else if c =? 91 then
        match skip_ws r with
        | [] => None
        | d :: r' =>
            if d =? 93 then Some (JArray [], r')
            else match parse_elements fuel (d :: r') with
                 | Some (l, rest) => Some (JArray l, rest)
                 | None => None
                 end
        end
      else if c =? 123 then
        match skip_ws r with
        | [] => None
        | d :: r' =>
            if d =? 125 then Some (JObject [], r')
            else match parse_members fuel (d :: r') with
                 | Some (m, rest) => Some (JObject m, rest)
                 | None => None
                 end
        end
      else parse_literal (c :: r)
  end.
Proof. reflexivity. Qed.

Lemma parse_elements_eq (fuel : nat) (s : jsstring) :
  parse_elements (S fuel) s =
  match parse_value fuel s with
  | None => None
  | Some (v, r) =>
      match skip_ws r with
      | [] => None
      | c :: r' =>
          if c =? 44 then
            match parse_elements fuel r' with
            | Some (l, rest) => Some (v :: l, rest)
            | None => None
            end
          else if c =? 93 then Some ([v], r')
          else None
      end
  end.
Proof. reflexivity. Qed.

Lemma parse_members_eq (fuel : nat) (s : jsstring) :
  parse_members (S fuel) s =
  match skip_ws s with
  | [] => None
  | q :: r0 =>
      if q =? 34 then
        match parse_string_body r0 with
        | None => None
        | Some (k, r1) =>
            match skip_ws r1 with
            | [] => None
            | colon :: r2 =>
                if colon =? 58 then
                  match parse_value fuel r2 with
                  | None => None
                  | Some (v, r) =>
                      match skip_ws r with
                      | [] => None
                      | c :: r' =>
                          if c =? 44 then
                            match parse_members fuel r' with
                            | Some (m, rest) => Some ((k, v) :: m, rest)
                            | None => None
                            end
                          else if c =? 125 then Some ([(k, v)], r')
                          else None
                      end
                  end
                else None
            end
        end
      else None
  end.
Proof. reflexivity. Qed.

Lemma parse_value_blank (fuel : nat) (pre s : jsstring) :
  blank pre -> parse_value fuel (pre ++ s) = parse_value fuel s.
Proof.
  intros H. destruct fuel as [|fuel]; [reflexivity|].
  rewrite !parse_value_eq. now rewrite skip_ws_blank.
Qed.

Lemma parse_elements_blank (fuel : nat) (pre s : jsstring) :
  blank pre -> parse_elements fuel (pre ++ s) = parse_elements fuel s.
Proof.
  intros H. destruct fuel as [|fuel]; [reflexivity|].
  rewrite !parse_elements_eq. now rewrite parse_value_blank.
Qed.

Lemma parse_members_blank (fuel : nat) (pre s : jsstring) :
  blank pre -> parse_members fuel (pre ++ s) = parse_members fuel s.
Proof.
  intros H. destruct fuel as [|fuel]; [reflexivity|].
  rewrite !parse_members_eq. now rewrite skip_ws_blank.
Qed.

Lemma serialize_opens (gap indent : jsstring) (v : json) :
  exists c t, serialize gap indent v = c :: t /\ opens c.
Proof.
  unfold opens. destruct v as [|[]|z|s|[|x l]|[|kv m]];
    try (destruct gap); try (eexists _, _; split; [reflexivity|auto 10]);
    destruct (number_to_string_head z) as (c & t & E & Hc);
    exists c, t; simpl; (split; [assumption|]); tauto.
Qed.

Lemma opens_solid (c : N) : opens c -> is_ws c = false /\ c <> 93 /\ c <> 125 /\ c <> 44.
Proof.
  unfold opens, is_ws, is_digit.
  intros H. rewrite andb_true_iff, !N.leb_le in H.
  assert (is_ws c = false) as Hw.
  { unfold is_ws. ncases. }
  unfold is_ws in Hw. rewrite Hw. repeat split; lia.
Qed.

Lemma blank_app (a b : jsstring) : blank a -> blank b -> blank (a ++ b).
Proof. unfold blank. intros. apply Forall_app; auto. Qed.

Lemma follows_closing (post r : jsstring) (c : N) :
  blank post -> c = 93 \/ c = 125 \/ c = 44 -> follows (post ++ c :: r) = true.
Proof.
  intros Hb Hc. destruct Hb as [|x post Hx _]; simpl.
  - destruct Hc as [->|[->| ->]]; reflexivity.
  - rewrite Hx. now rewrite !orb_true_r.
Qed.

Lemma join_two (sep a b : jsstring) (rest : list jsstring) :
  join sep (a :: b :: rest) = a ++ sep ++ join sep (b :: rest).
Proof. reflexivity. Qed.

Lemma parse_elements_join (pre post : jsstring) (ser : json -> jsstring) :
  blank pre -> blank post ->
  forall l, l <> [] -> Forall (reads_back ser) l ->
  forall r fuel,
    (fold_right (fun e n => S (size e + n)) O l <= fuel)%nat ->
    parse_elements fuel (join (44 :: pre) (map ser l) ++ post ++ 93 :: r) = Some (l, r).
Proof.
  intros Hpre Hpost l. induction l as [|x l IH]; [contradiction|].
  intros _ Hall r fuel Hfuel. inversion Hall as [|? ? Hx Hl]; subst.
  simpl in Hfuel. destruct fuel as [|fuel]; [lia|].
  rewrite parse_elements_eq. destruct l as [|y l].
  - simpl join. rewrite Hx; [|apply follows_closing; auto|lia].
    rewrite skip_ws_blank by assumption. reflexivity.
  - simpl map. rewrite join_two, <- !app_assoc.
    rewrite Hx; [|apply (follows_closing []); [constructor|auto]|lia].
    rewrite <- app_comm_cons, skip_ws_solid by reflexivity.
    simpl (44 =? 44). cbv iota.
    rewrite parse_elements_blank by assumption.
    change (ser y :: map ser l) with (map ser (y :: l)).
    rewrite (IH ltac:(discriminate) Hl r fuel); [reflexivity|]. lia.
Qed.

Lemma parse_member (fuel : nat) (k sp : jsstring) (v : json)
    (ser : json -> jsstring) (rest : jsstring) :
  blank sp -> reads_back ser v -> follows rest = true -> (size v <= fuel)%nat ->
  parse_members (S fuel) (quote k ++ 58 :: sp ++ ser v ++ rest) =
  match skip_ws rest with
  | [] => None
  | c :: r' =>
      if c =? 44 then
        match parse_members fuel r' with
        | Some (m, rest) => Some ((k, v) :: m, rest)
        | None => None
        end
      else if c =? 125 then Some ([(k, v)], r')
      else None
  end.
Proof.
  intros Hsp Hv Hrest Hfuel. rewrite parse_members_eq.
  unfold quote. rewrite <- app_comm_cons, <- app_assoc.
  rewrite skip_ws_solid by reflexivity. simpl (34 =? 34). cbv iota.
  rewrite <- app_comm_cons. simpl ([] ++ _).
  rewrite parse_quote_units.
  rewrite skip_ws_solid by reflexivity. simpl (58 =? 58). cbv iota.
  rewrite parse_value_blank by assumption.
  rewrite Hv by assumption. reflexivity.
Qed.

Lemma parse_members_join (pre post sp : jsstring) (ser : json -> jsstring) :
  blank pre -> blank post -> blank sp ->
  forall m, m <> [] -> Forall (fun kv => reads_back ser (snd kv)) m ->
  forall r fuel,
    (fold_right (fun kv n => S (size (snd kv) + n)) O m <= fuel)%nat ->
    parse_members fuel
      (join (44 :: pre) (map (fun kv => quote (fst kv) ++ 58 :: sp ++ ser (snd kv)) m)
       ++ post ++ 125 :: r) = Some (m, r).
Proof.
  intros Hpre Hpost Hsp m. induction m as [|[k v] m IH]; [contradiction|].
  intros _ Hall r fuel Hfuel. inversion Hall as [|? ? Hx Hl]; subst.
  simpl in Hfuel, Hx. destruct fuel as [|fuel]; [lia|].
  destruct m as [|kv m].
  - cbn [join map fst snd].
    replace ((quote k ++ 58 :: sp ++ ser v) ++ post ++ 125 :: r)
      with (quote k ++ 58 :: sp ++ ser v ++ post ++ 125 :: r)
      by (now rewrite <- !app_assoc, <- app_comm_cons, <- app_assoc).
    rewrite (parse_member fuel k sp v ser (post ++ 125 :: r));
      [|assumption|assumption|apply follows_closing; auto|lia].
    rewrite skip_ws_blank by assumption. reflexivity.
  - cbn [map]. rewrite join_two. cbn [fst snd].
    match goal with
    | |- parse_members _ (((_ ++ 58 :: sp ++ ser v) ++ ?sep ++ ?rest) ++ ?tail) = _ =>
        replace (((quote k ++ 58 :: sp ++ ser v) ++ sep ++ rest) ++ tail)
          with (quote k ++ 58 :: sp ++ ser v ++ 44 :: pre ++ rest ++ tail)
          by (now rewrite <- !app_assoc, <- !app_comm_cons, <- !app_assoc);
        rewrite (parse_member fuel k sp v ser (44 :: pre ++ rest ++ tail));
        [|assumption|assumption|apply (follows_closing []); [constructor|auto]|lia]
    end.
    rewrite skip_ws_solid by reflexivity. simpl (44 =? 44). cbv iota.
    rewrite parse_members_blank by assumption.
    match goal with
    | |- context [join ?sep (?x :: map ?g m)] =>
        change (x :: map g m) with (map g (kv :: m))
    end.
    rewrite (IH ltac:(discriminate) Hl r fuel); [reflexivity|]. simpl in *. lia.
Qed.

Lemma parse_literal_number (c : N) (t : jsstring) :
  c = 45 \/ is_digit c = true -> parse_literal (c :: t) = parse_number (c :: t).
Proof.
  intros Hc. unfold parse_literal.
  assert (c <> 110 /\ c <> 116 /\ c <> 102) as (H1 & H2 & H3).
  { unfold is_digit in Hc. rewrite andb_true_iff, !N.leb_le in Hc. lia. }
  cbn [js list_ascii_of_string map strip_prefix].
  change (N_of_ascii "n") with 110. change (N_of_ascii "t") with 116.
  change (N_of_ascii "f") with 102.
  destruct (N.eqb_spec 110 c); [congruence|].
  destruct (N.eqb_spec 116 c); [congruence|].
  destruct (N.eqb_spec 102 c); [congruence|]. reflexivity.
Qed.

Lemma join_opens (sep tail : jsstring) (ser : json -> jsstring) (x : json)
    (l : list json) :
  (exists c t, ser x = c :: t /\ opens c) ->
  exists c t, join sep (map ser (x :: l)) ++ tail = c :: t /\ opens c.
Proof.
  intros (c & t & E & Hc). cbn [map]. destruct l as [|y l].
  - cbn [map join]. rewrite E. eauto.
  - cbn [map]. rewrite join_two, E. eauto.
Qed.

Theorem parse_serialize (v : json) :
  forall gap indent, blank gap -> blank indent -> reads_back (serialize gap indent) v.
Proof.
  induction v as [|b|z|s|l IH|m IH] using json_induction;
    intros gap indent Hgap Hindent r fuel Hr Hfuel;
    (destruct fuel as [|fuel]; [simpl in Hfuel; lia|]).
  - reflexivity.
  - destruct b; reflexivity.
  - cbn [serialize]. destruct (number_to_string_head z) as (c & t & E & Hc).
    pose proof (parse_number_to_string z r Hr) as Hp. rewrite E in *.
    assert (opens c) as Ho by (unfold opens; tauto).
    destruct (opens_solid c Ho) as (Hw & _).
    rewrite parse_value_eq, <- app_comm_cons, skip_ws_solid by assumption.
    unfold is_digit in Hc. rewrite andb_true_iff, !N.leb_le in Hc.
    destruct (N.eqb_spec c 34); [lia|].
    destruct (N.eqb_spec c 91); [lia|].
    destruct (N.eqb_spec c 123); [lia|].
    rewrite parse_literal_number.
    + now rewrite <- app_comm_cons in Hp.
    + unfold is_digit. rewrite andb_true_iff, !N.leb_le. lia.
  - cbn [serialize]. unfold quote.
    rewrite parse_value_eq, <- app_comm_cons, <- app_assoc, skip_ws_solid by reflexivity.
    simpl (34 =? 34). cbv iota. cbn [app]. now rewrite parse_quote_units.
  - destruct l as [|x l]; [reflexivity|].
    set (pre := match gap with [] => [] | _ => 10 :: indent ++ gap end).
    set (post := match gap with [] => [] | _ => 10 :: indent end).
    assert (blank pre) as Hpre.
    { subst pre. destruct gap; [constructor|].
      constructor; [reflexivity|]. now apply blank_app. }
    assert (blank post) as Hpost.
    { subst post. destruct gap; [constructor|]. now constructor. }
    assert (serialize gap indent (JArray (x :: l)) ++ r =
            91 :: pre ++ join (44 :: pre) (map (serialize gap (indent ++ gap)) (x :: l))
               ++ post ++ 93 :: r) as ->.
    { subst pre post. destruct gap; cbn [serialize js list_ascii_of_string map app];
        change (N_of_ascii "[") with 91; change (N_of_ascii "]") with 93;
        change (N_of_ascii ",") with 44;
        cbn [app]; repeat (rewrite <- ?app_assoc, <- ?app_comm_cons);
        reflexivity. }
    assert (Forall (reads_back (serialize gap (indent ++ gap))) (x :: l)) as Hall.
    { eapply List.Forall_impl; [|exact IH]. intros v Hv. apply Hv; [assumption|].
      now apply blank_app. }
    destruct (join_opens (44 :: pre) (post ++ 93 :: r)
                (serialize gap (indent ++ gap)) x l (serialize_opens _ _ _))
      as (c & t & E & Hc).
    destruct (opens_solid c Hc) as (Hw & H93 & _).
    rewrite parse_value_eq, skip_ws_solid by reflexivity.
    simpl (91 =? 34). simpl (91 =? 91). cbv iota.
    rewrite skip_ws_blank by assumption. rewrite E, skip_ws_solid by assumption.
    destruct (N.eqb_spec c 93); [contradiction|]. rewrite <- E.
    rewrite (parse_elements_join pre post _ Hpre Hpost (x :: l)
               ltac:(discriminate) Hall r fuel); [reflexivity|].
    simpl in Hfuel. simpl. lia.
  - destruct m as [|kv m]; [reflexivity|].
    set (pre := match gap with [] => [] | _ => 10 :: indent ++ gap end).
    set (post := match gap with [] => [] | _ => 10 :: indent end).
    set (sp := match gap with [] => [] | _ => [32] end).
    assert (blank pre) as Hpre.
    { subst pre. destruct gap; [constructor|].
      constructor; [reflexivity|]. now apply blank_app. }
    assert (blank post) as Hpost.
    { subst post. destruct gap; [constructor|]. now constructor. }
    assert (blank sp) as Hsp.
    { subst sp. destruct gap; repeat constructor. }
    assert (serialize gap indent (JObject (kv :: m)) ++ r =
            123 :: pre ++ join (44 :: pre)
              (map (fun kv => quote (fst kv) ++ 58 :: sp
                              ++ serialize gap (indent ++ gap) (snd kv)) (kv :: m))
               ++ post ++ 125 :: r) as ->.
    { subst pre post sp. destruct gap; cbn [serialize js list_ascii_of_string map app];
        change (N_of_ascii "{") with 123; change (N_of_ascii "}") with 125;
        change (N_of_ascii ",") with 44; change (N_of_ascii ":") with 58;
        cbn [app]; repeat (rewrite <- ?app_assoc, <- ?app_comm_cons);
        reflexivity. }
    assert (Forall (fun kv => reads_back (serialize gap (indent ++ gap)) (snd kv))
                   (kv :: m)) as Hall.
    { eapply List.Forall_impl; [|exact IH]. intros v Hv. apply Hv; [assumption|].
      now apply blank_app. }
    rewrite parse_value_eq, skip_ws_solid by reflexivity.
    simpl (123 =? 34). simpl (123 =? 91). simpl (123 =? 123). cbv iota.
    rewrite skip_ws_blank by assumption.
    assert (exists t, join (44 :: pre)
              (map (fun kv => quote (fst kv) ++ 58 :: sp
                              ++ serialize gap (indent ++ gap) (snd kv)) (kv :: m))
               ++ post ++ 125 :: r = 34 :: t) as (t & E).
    { cbn [map]. destruct m; [cbn [map join]|cbn [map]; rewrite join_two];
        unfold quote; eexists; reflexivity. }
    rewrite E, skip_ws_solid by reflexivity. simpl (34 =? 125). cbv iota.
    rewrite <- E.
    rewrite (parse_members_join pre post sp _ Hpre Hpost Hsp (kv :: m)
               ltac:(discriminate) Hall r fuel); [reflexivity|].
    simpl in Hfuel. simpl. lia.
Qed.

Lemma size_join (sep : jsstring) (ser : json -> jsstring) (l : list json) :
  sep <> [] -> l <> [] ->
  Forall (fun v => (size v <= length (ser v))%nat) l ->
  (fold_right (fun e n => S (size e + n)) O l
   <= S (length (join sep (map ser l))))%nat.
Proof.
  intros Hsep. induction l as [|x l IH]; [contradiction|].
  intros _ Hall. inversion Hall as [|? ? Hx Hl]; subst.
  destruct l as [|y l].
  - simpl. lia.
  - cbn [map]. rewrite join_two, !length_app. cbn [fold_right].
    specialize (IH ltac:(discriminate) Hl). cbn [map fold_right] in IH.
    destruct sep; [contradiction|]. cbn [length]. lia.
Qed.

Lemma size_join_members (sep : jsstring) (ser : jsstring * json -> jsstring)
    (m : list (jsstring * json)) :
  sep <> [] -> m <> [] ->
  Forall (fun kv => (size (snd kv) <= length (ser kv))%nat) m ->
  (fold_right (fun kv n => S (size (snd kv) + n)) O m
   <= S (length (join sep (map ser m))))%nat.
Proof.
  intros Hsep. induction m as [|x m IH]; [contradiction|].
  intros _ Hall. inversion Hall as [|? ? Hx Hl]; subst.
  destruct m as [|y m].
  - simpl. lia.
  - cbn [map]. rewrite join_two, !length_app. cbn [fold_right].
    specialize (IH ltac:(discriminate) Hl). cbn [map fold_right] in IH.
    destruct sep; [contradiction|]. cbn [length]. lia.
Qed.

Lemma size_serialize (v : json) :
  forall gap indent, (size v <= length (serialize gap indent v))%nat.
Proof.
  induction v as [|b|z|s|l IH|m IH] using json_induction; intros gap indent.
  - simpl. lia.
  - destruct b; simpl; lia.
  - cbn [serialize size]. destruct (number_to_string_head z) as (c & t & -> & _).
    simpl. lia.
  - cbn [serialize size]. unfold quote. simpl. lia.
  - destruct l as [|x l]; [simpl; lia|].
    assert (Forall (fun v => (size v <= length (serialize gap (indent ++ gap) v))%nat)
                   (x :: l)) as Hall.
    { eapply List.Forall_impl; [|exact IH]. intros v Hv. apply Hv. }
    cbn [size]. destruct gap as [|g gap].
    + pose proof (size_join (js ",") _ (x :: l) ltac:(discriminate)
                    ltac:(discriminate) Hall) as H.
      cbn [serialize]. rewrite !length_app. simpl (length (js _)). lia.
    + pose proof (size_join (44 :: 10 :: indent ++ g :: gap) _ (x :: l)
                    ltac:(discriminate) ltac:(discriminate) Hall) as H.
      cbn [serialize]. rewrite !length_app. cbn [length].
      rewrite !length_app. cbn [length]. rewrite !length_app.
      simpl (length (js _)). lia.
  - destruct m as [|kv m]; [simpl; lia|].
    cbn [size]. destruct gap as [|g gap].
    + match goal with
      | |- context [serialize [] indent (JObject ?mm)] =>
          pose proof (size_join_members (js ",")
            (fun kv => quote (fst kv) ++ js ":" ++ [] ++ serialize [] (indent ++ []) (snd kv))
            mm ltac:(discriminate) ltac:(discriminate)) as H
      end.
      cbn [serialize]. rewrite !length_app. simpl (length (js _)).
      enough (Nat.le (fold_right (fun kv n => S (size (snd kv) + n)) O (kv :: m))
                (S (length (join (js ",")
                (map (fun kv => quote (fst kv) ++ js ":" ++ [] ++
                        serialize [] (indent ++ []) (snd kv)) (kv :: m)))))) by lia.
      apply H. eapply List.Forall_impl; [|exact IH].
      intros [k v] Hv. cbn [fst snd] in *. rewrite !length_app.
      specialize (Hv [] (indent ++ [])). lia.
    + match goal with
      | |- context [serialize (g :: gap) indent (JObject ?mm)] =>
          pose proof (size_join_members (44 :: 10 :: indent ++ g :: gap)
            (fun kv => quote (fst kv) ++ js ":" ++ [32] ++
                       serialize (g :: gap) (indent ++ g :: gap) (snd kv))
            mm ltac:(discriminate) ltac:(discriminate)) as H
      end.
      cbn [serialize]. rewrite !length_app. cbn [length].
      rewrite !length_app. cbn [length]. rewrite !length_app.
      simpl (length (js _)).
      enough (Nat.le (fold_right (fun kv n => S (size (snd kv) + n)) O (kv :: m))
                (S (length (join (44 :: 10 :: indent ++ g :: gap)
                (map (fun kv => quote (fst kv) ++ js ":" ++ [32] ++
                        serialize (g :: gap) (indent ++ g :: gap) (snd kv)) (kv :: m))))))
        by lia.
      apply H. eapply List.Forall_impl; [|exact IH].
      intros [k v] Hv. cbn [fst snd] in *. rewrite !length_app.
      specialize (Hv (g :: gap) (indent ++ g :: gap)). lia.
Qed.

Lemma parse_serialized (gap : jsstring) (v : json) :
  blank gap -> parse (serialize gap [] v) = Some v.
Proof.
  intros Hgap. unfold parse.
  pose proof (parse_serialize v gap [] Hgap ltac:(constructor) []
                (S (length (serialize gap [] v))) eq_refl) as H.
  rewrite app_nil_r in H. rewrite H; [reflexivity|].
  pose proof (size_serialize v gap []). lia.
Qed.

(** [JSON.parse(JSON.stringify(v))] and
    [JSON.parse(JSON.stringify(v, null, 2))] give [v] back. *)
Theorem parse_stringify (v : json) : parse (stringify v) = Some v.
Proof. apply parse_serialized. constructor. Qed.

Theorem parse_stringify2 (v : json) : parse (stringify2 v) = Some v.
Proof. apply parse_serialized. repeat constructor. Qed.
End JsonFacts.

(** ** Byte-wise comparison of texts *)
Section TextOrder.

Lemma ascii_compare_refl (a : ascii) : Ascii.compare a a = Eq.
Proof. unfold Ascii.compare. apply N.compare_refl. Qed.

Lemma ascii_compare_lt_trans (a b c : ascii) :
  Ascii.compare a b = Lt -> Ascii.compare b c = Lt -> Ascii.compare a c = Lt.
Proof.
  unfold Ascii.compare. rewrite !N.compare_lt_iff. apply N.lt_trans.
Qed.

Lemma string_compare_refl (s : string) : String.compare s s = Eq.
Proof.
  induction s as [|x s IH]; simpl; [reflexivity|].
  now rewrite ascii_compare_refl.
Qed.

Lemma string_compare_lt_trans (a : string) :
  forall b c, String.compare a b = Lt -> String.compare b c = Lt ->
              String.compare a c = Lt.
Proof.
  induction a as [|x a IH]; intros [|y b] [|z c]; simpl; try congruence.
  destruct (Ascii.compare x y) eqn:Exy; try discriminate.
  - apply Ascii.compare_eq_iff in Exy. subst y.
    destruct (Ascii.compare x z); try congruence. apply IH.
  - intros _. destruct (Ascii.compare y z) eqn:Eyz; try discriminate.
    + apply Ascii.compare_eq_iff in Eyz. subst z. now rewrite Exy.
    + now rewrite (ascii_compare_lt_trans x y z).
Qed.

Lemma string_leb_trans (a b c : string) :
  String.leb a b = true -> String.leb b c = true -> String.leb a c = true.
Proof.
  unfold String.leb.
  destruct (String.compare a b) eqn:Eab; try discriminate;
    destruct (String.compare b c) eqn:Ebc; try discriminate; intros _ _.
  - apply String.compare_eq_iff in Eab, Ebc. subst. now rewrite string_compare_refl.
  - apply String.compare_eq_iff in Eab. subst. now rewrite Ebc.
  - apply String.compare_eq_iff in Ebc. subst. now rewrite Eab.
  - now rewrite (string_compare_lt_trans a b c).
Qed.

End TextOrder.

(** ** Records found by their id *)
Section ById.
Context {A : Type} (key : A -> Z).

Lemma filter_absent (i : Z) (l : list A) :
  (forall r, In r l -> key r <> i) ->
  List.filter (fun r => negb (key r =? i)%Z) l = l.
Proof.
  induction l as [|r l IH]; simpl; intros H; [reflexivity|].
  destruct (Z.eqb_spec (key r) i) as [E|_]; simpl.
  - exfalso. exact (H r (or_introl eq_refl) E).
  - f_equal. apply IH. intros r' Hr'. apply H. now right.
Qed.

Lemma find_absent (i : Z) (l : list A) :
  (forall r, In r l -> key r <> i) ->
  find (fun r => (key r =? i)%Z) l = None.
Proof.
  induction l as [|r l IH]; simpl; intros H; [reflexivity|].
  destruct (Z.eqb_spec (key r) i) as [E|_].
  - exfalso. exact (H r (or_introl eq_refl) E).
  - apply IH. intros r' Hr'. apply H. now right.
Qed.

Lemma find_present (i : Z) (l : list A) :
  (exists r, In r l /\ key r = i) ->
  exists r, find (fun r => (key r =? i)%Z) l = Some r /\ In r l /\ key r = i.
Proof.
  induction l as [|r l IH]; simpl; intros [r0 [Hin E]]; [contradiction|].
  destruct (Z.eqb_spec (key r) i) as [E'|NE].
  - exists r. auto.
  - destruct Hin as [->|Hin]; [contradiction|].
    destruct IH as [r1 [F [I1 E1]]]; [eauto|]. exists r1. auto.
Qed.

(** Marking the records of one id, as the UPDATE and the [map] do. *)
Variable mark : A -> A.
Hypothesis mark_key : forall a, key (mark a) = key a.
Hypothesis mark_twice : forall a, mark (mark a) = mark a.

Lemma map_mark_twice (i : Z) (l : list A) :
  map (fun a => if (key a =? i)%Z then mark a else a)
      (map (fun a => if (key a =? i)%Z then mark a else a) l)
  = map (fun a => if (key a =? i)%Z then mark a else a) l.
Proof.
  rewrite map_map. apply map_ext. intros a.
  destruct (Z.eqb_spec (key a) i) as [E|NE].
  - now rewrite mark_key, E, Z.eqb_refl.
  - destruct (Z.eqb_spec (key a) i); [contradiction|reflexivity].
Qed.

Lemma find_map_mark (i : Z) (l : list A) (a : A) :
  find (fun r => (key r =? i)%Z) l = Some a ->
  find (fun r => (key r =? i)%Z)
       (map (fun a => if (key a =? i)%Z then mark a else a) l) = Some (mark a).
Proof.
  induction l as [|r l IH]; simpl; [discriminate|].
  destruct (Z.eqb_spec (key r) i) as [E|NE].
  - intros [= ->]. now rewrite mark_key, E, Z.eqb_refl.
  - destruct (Z.eqb_spec (key r) i); [contradiction|]. exact IH.
Qed.

Lemma map_mark_frame (i : Z) (l : list A) (n : nat) (r : A) :
  l !! n = Some r ->
  map (fun a => if (key a =? i)%Z then mark a else a) l !! n
  = Some (if (key r =? i)%Z then mark r else r).
Proof.
  intros Hn. change (map ?f ?l) with (f <$> l). now rewrite list_lookup_fmap, Hn.
Qed.
End ById.

(** ** The routes of the server *)
Section ServerFacts.
Import Server.

Lemma order_leb_date_time (a b : Row) :
  order_leb a b = true <-> date_time_le a b.
Proof.
  unfold order_leb, date_time_le, String.ltb.
  destruct (String.compare (appointment_date a) (appointment_date b)) eqn:E.
  - apply String.compare_eq_iff in E. intuition congruence.
  - intuition.
  - split; [discriminate|]. intros [H|[H _]]; [discriminate|].
    rewrite H, string_compare_refl in E. discriminate.
Qed.

Lemma order_leb_trans : Transitive (fun a b => is_true (order_leb a b)).
Proof.
  intros a b c. unfold is_true. rewrite !order_leb_date_time.
  unfold date_time_le, String.ltb.
  intros [Hab|[Hab Tab]] [Hbc|[Hbc Tbc]].
  - left. destruct (String.compare (appointment_date a) (appointment_date b)) eqn:E1;
      try discriminate.
    destruct (String.compare (appointment_date b) (appointment_date c)) eqn:E2;
      try discriminate.
    now rewrite (string_compare_lt_trans _ _ _ E1 E2).
  - left. now rewrite <- Hbc.
  - left. now rewrite Hab.
  - right. split; [congruence|]. eapply string_leb_trans; eauto.
Qed.

Lemma largest_rowid_bound (db : DB) (r : Row) :
  In r (appointments db) -> (id r <= largest_rowid db)%Z.
Proof.
  unfold largest_rowid. generalize (sqlite_sequence db).
  induction (appointments db) as [|x rows IH]; simpl; intros s H; [contradiction|].
  destruct H as [->|H]; [lia|]. specialize (IH s H). lia.
Qed.

Lemma set_sent_twice (r : Row) : set_sent (set_sent r) = set_sent r.
Proof. reflexivity. Qed.

Lemma update_sent_twice (i : Z) (db : DB) :
  update_sent i (update_sent i db) = update_sent i db.
Proof.
  unfold update_sent. cbn [appointments sqlite_sequence settings]. f_equal.
  now apply (map_mark_twice id set_sent).
Qed.

Lemma strongly_sorted_date_time (rows : list Row) :
  StronglySorted (fun a b => is_true (order_leb a b)) rows ->
  StronglySorted date_time_le rows.
Proof.
  induction 1 as [|r rows _ IH Hall]; constructor; [assumption|].
  eapply List.Forall_impl; [|exact Hall].
  intros b Hb. now apply order_leb_date_time.
Qed.

Lemma list_appointments_sorted (db : DB) :
  exists rows,
    list_appointments db = (json (Appointments rows), db)
    /\ Permutation (appointments db) rows
    /\ StronglySorted date_time_le rows.
Proof.
  exists (RowSort.sort (appointments db)). repeat split.
  - apply RowSort.Permuted_sort.
  - apply strongly_sorted_date_time, RowSort.StronglySorted_sort, order_leb_trans.
Qed.

Lemma delete_absent (i : Z) (db : DB) :
  (forall r, In r (appointments db) -> id r <> i) ->
  delete_appointment i db = (json Success, db).
Proof.
  intros H. unfold delete_appointment. rewrite (filter_absent id) by assumption.
  now destruct db.
Qed.

Lemma trigger_absent (net : Call -> FetchOutcome) (i : Z) (db : DB) :
  (forall r, In r (appointments db) -> id r <> i) ->
  trigger_reminder net i db = (fail 404 AppointmentNotFound, db, []).
Proof.
  intros H. unfold trigger_reminder. now rewrite (find_absent id).
Qed.

Lemma to_number_exact (n : Z) :
  (- max_safe <= n <= max_safe)%Z -> to_number n = n.
Proof.
  intros Hn. unfold to_number.
  destruct (Z.leb_spec (Z.abs n) max_safe) as [_|Habs]; [reflexivity|lia].
Qed.

Lemma create_appends (now name phone date time : string) (db : DB) :
  (largest_rowid db < max_rowid)%Z ->
  let req := {| new_client_name := Some name; new_phone_number := Some phone;
                new_appointment_date := Some date; new_appointment_time := Some time |} in
  let row := {| id := largest_rowid db + 1; client_name := name; phone_number := phone;
                appointment_date := date; appointment_time := time;
                status := pending; created_at := now |} in
  create_appointment now req db =
    (json (Inserted (to_number (id row))),
     {| appointments := appointments db ++ [row];
        sqlite_sequence := id row; settings := settings db |})
  /\ (forall r, In r (appointments db) -> id r <> id row).
Proof.
  intros Hroom req row. split.
  - unfold create_appointment. cbn [req new_client_name new_phone_number
      new_appointment_date new_appointment_time].
    destruct (Z.eqb_spec (largest_rowid db) max_rowid); [lia|]. reflexivity.
  - intros r Hr. pose proof (largest_rowid_bound db r Hr). cbn [row id]. lia.
Qed.

Lemma trigger_rejected (net : Call -> FetchOutcome) (i : Z) (db : DB)
    (url : string) (st : nat) :
  (exists r, In r (appointments db) /\ id r = i) ->
  settings db !! "n8n_webhook_url" = Some url -> url <> EmptyString ->
  (forall appointment, net (url, appointment) = Responded st) ->
  ok st = false ->
  exists appointment,
    In appointment (appointments db) /\ id appointment = i
    /\ trigger_reminder net i db
       = (fail 502 (N8nReturnedError st), db, [(url, appointment)]).
Proof.
  intros Hin Hurl Hne Hnet Hst.
  destruct (find_present id i (appointments db) Hin) as (r & Hfind & Hr & Hid).
  exists r. repeat split; try assumption.
  unfold trigger_reminder. rewrite Hfind, Hurl.
  destruct url as [|c url]; [contradiction|]. now rewrite Hnet, Hst.
Qed.

Lemma trigger_success (net : Call -> FetchOutcome) (i : Z) (db : DB) :
  fst (fst (trigger_reminder net i db)) = json Success ->
  snd (fst (trigger_reminder net i db)) = update_sent i db.
Proof.
  unfold trigger_reminder.
  destruct (find _ _) as [r|]; [|discriminate].
  destruct (settings db !! _) as [[|c url]|]; try discriminate.
  destruct (net _) as [st| |]; try discriminate.
  destruct (ok st); [reflexivity|discriminate].
Qed.

Lemma trigger_state (net : Call -> FetchOutcome) (i : Z) (db : DB) :
  snd (fst (trigger_reminder net i db)) = db
  \/ (fst (fst (trigger_reminder net i db)) = json Success
      /\ snd (fst (trigger_reminder net i db)) = update_sent i db).
Proof.
  unfold trigger_reminder.
  destruct (find _ _) as [r|]; [|now left].
  destruct (settings db !! _) as [[|c url]|]; try now left.
  destruct (net _) as [st| |]; try now left.
  destruct (ok st); [now right|now left].
Qed.

Lemma trigger_twice (net : Call -> FetchOutcome) (i : Z) (db : DB) :
  snd (fst (trigger_reminder net i (snd (fst (trigger_reminder net i db)))))
  = snd (fst (trigger_reminder net i db)).
Proof.
  destruct (trigger_state net i db) as [H|[_ H]]; rewrite H.
  - assumption.
  - destruct (trigger_state net i (update_sent i db)) as [H'|[_ H']]; rewrite H'.
    + reflexivity.
    + apply update_sent_twice.
Qed.

Lemma update_sent_frame (i : Z) (db : DB) :
  sqlite_sequence (update_sent i db) = sqlite_sequence db
  /\ settings (update_sent i db) = settings db
  /\ only_status_sent i (appointments db) (appointments (update_sent i db)).
Proof.
  repeat split.
  - unfold update_sent. cbn. apply length_map.
  - intros n r Hn. unfold update_sent. cbn [appointments].
    exists (if (id r =? i)%Z then set_sent r else r). split.
    + now apply (map_mark_frame id set_sent).
    + destruct (Z.eqb_spec (id r) i); repeat split; try reflexivity;
        intros; try contradiction; reflexivity.
Qed.
End ServerFacts.

(** ** The storage services and the handlers of the page *)
Section ClientFacts.
Import JS Client.

Lemma status_of_status_text (s : Status) : status_of_text (status_text s) = Some s.
Proof. destruct s; reflexivity. Qed.

Lemma appointment_of_to_json (a : Appointment) :
  appointment_of_json (appointment_to_json a) = Some a.
Proof.
  destruct a as [i name phone date time st].
  unfold appointment_of_json, appointment_to_json.
  cbn [id client_name phone_number appointment_date appointment_time status].
  change (get (js "id") _) with (Some (JNumber i)).
  change (get (js "client_name") _) with (Some (JString name)).
  change (get (js "phone_number") _) with (Some (JString phone)).
  change (get (js "appointment_date") _) with (Some (JString date)).
  change (get (js "appointment_time") _) with (Some (JString time)).
  change (get (js "status") _) with (Some (JString (status_text st))).
  cbv iota. now rewrite status_of_status_text.
Qed.

Lemma appointments_of_to_json (l : list Appointment) :
  of_json (to_json l) = Some l.
Proof.
  cbn [of_json to_json appointments_data].
  induction l as [|a l IH]; [reflexivity|].
  cbn [map appointments_of_json]. now rewrite appointment_of_to_json, IH.
Qed.

Lemma JSON_parse_stringify (l : list Appointment) (w : World) :
  JSON_parse (stringify (to_json l)) w = (Normal l, w).
Proof.
  unfold JSON_parse, bind, or_throw.
  rewrite parse_stringify. cbn [ret]. now rewrite appointments_of_to_json.
Qed.

Lemma JSON_parse_stringify2 (l : list Appointment) (w : World) :
  JSON_parse (stringify2 (to_json l)) w = (Normal l, w).
Proof.
  unfold JSON_parse, bind, or_throw.
  rewrite parse_stringify2. cbn [ret]. now rewrite appointments_of_to_json.
Qed.

Lemma stringify_truthy (l : list Appointment) : truthy (stringify (to_json l)) = true.
Proof. destruct l; reflexivity. Qed.


Lemma remote_only_ret {A} (a : A) : remote_only (ret a).
Proof. intros w. cbn. repeat split. exists []. now rewrite app_nil_r. Qed.

Lemma remote_only_throw {A} (e : Exception) : remote_only (@throw A e).
Proof. intros w. cbn. repeat split. exists []. now rewrite app_nil_r. Qed.

Lemma remote_only_or_throw {A} (e : Exception) (o : option A) :
  remote_only (or_throw e o).
Proof. destruct o; [apply remote_only_ret|apply remote_only_throw]. Qed.

Lemma remote_only_bind {A B} (m : M A) (k : A -> M B) :
  remote_only m -> (forall a, remote_only (k a)) -> remote_only (bind m k).
Proof.
  intros Hm Hk w. unfold bind.
  destruct (Hm w) as (H1 & H2 & H3 & es & H4 & H5).
  destruct (m w) as [[a|e] w1]; cbn [snd] in *.
  - destruct (Hk a w1) as (K1 & K2 & K3 & es' & K4 & K5).
    rewrite K1, K2, K3, K4, H1, H2, H3, H4. repeat split.
    exists (es ++ es'). rewrite app_assoc. split; [reflexivity|].
    apply Forall_app; auto.
  - repeat split; eauto.
Qed.

Lemma remote_only_try_catch {A} (m : M A) (h : Exception -> M A) :
  remote_only m -> (forall e, remote_only (h e)) -> remote_only (try_catch m h).
Proof.
  intros Hm Hh w. unfold try_catch.
  destruct (Hm w) as (H1 & H2 & H3 & es & H4 & H5).
  destruct (m w) as [[a|e] w1]; cbn [snd] in *.
  - repeat split; eauto.
  - destruct (Hh e w1) as (K1 & K2 & K3 & es' & K4 & K5).
    rewrite K1, K2, K3, K4, H1, H2, H3, H4. repeat split.
    exists (es ++ es'). rewrite app_assoc. split; [reflexivity|].
    apply Forall_app; auto.
Qed.

Lemma remote_only_console_error : remote_only console_error.
Proof.
  intros w. cbn. repeat split. exists [ConsoleError]. split; [reflexivity|].
  repeat constructor.
Qed.

Lemma remote_only_request (e : Event) (serve : Remote -> Response * Remote) :
  remote_event e -> remote_only (request e serve).
Proof.
  intros He w. unfold request.
  destruct (fault _) as [[|resp]|]; [| |destruct (serve _)]; cbn;
    (repeat split; exists [e]; split; [reflexivity|repeat constructor; assumption]).
Qed.

Lemma remote_only_fetch_put (config : GitHubConfig) (b : PutBody) :
  remote_only (fetch_put config b).
Proof.
  intros w. unfold fetch_put.
  exact (remote_only_request (Put (location config) (token config) b) _ I w).
Qed.

Lemma remote_only_getFile (config : GitHubConfig) : remote_only (getFile config).
Proof.
  unfold getFile. apply remote_only_bind.
  - apply remote_only_request. exact I.
  - intros response. destruct (_ =? _)%nat; [apply remote_only_ret|].
    destruct (negb _); [apply remote_only_throw|].
    apply remote_only_bind; [apply remote_only_or_throw|intros; apply remote_only_ret].
Qed.

Lemma remote_only_saveData {T} `{Data T} (config : GitHubConfig) (data : T) :
  remote_only (saveData config data).
Proof.
  unfold saveData. apply remote_only_bind; [apply remote_only_getFile|].
  intros existingFile. apply remote_only_bind; [apply remote_only_or_throw|].
  intros content. apply remote_only_bind.
  - apply remote_only_fetch_put.
  - intros response. destruct (negb _); [|apply remote_only_ret].
    apply remote_only_bind; [apply remote_only_or_throw|intros; apply remote_only_throw].
Qed.

Lemma remote_only_loadData {T} `{Data T} (config : GitHubConfig) (d : T) :
  remote_only (loadData config d).
Proof.
  unfold loadData. apply remote_only_try_catch.
  - apply remote_only_bind; [apply remote_only_getFile|].
    intros [file|]; [|apply remote_only_ret].
    apply remote_only_bind; [apply remote_only_or_throw|].
    intros content. unfold JSON_parse.
    apply remote_only_bind; [apply remote_only_or_throw|intros; apply remote_only_or_throw].
  - intros e. apply remote_only_bind; [apply remote_only_console_error|].
    intros; apply remote_only_ret.
Qed.

(** [save] is one call of [setItem], which writes the entry or throws. *)
Lemma save_world {T} `{Data T} (key : jsstring) (data : T) (w : World) :
  save key data w
  = let w' := log (SetItem key (stringify (to_json data)))
                  (with_writes (tl (writes w)) w) in
    if accepted w
    then (Normal tt,
          with_localStorage (<[key := stringify (to_json data)]> (localStorage w)) w')
    else (Throw QuotaExceededError, w').
Proof.
  unfold save, setItem, accepted. destruct (writes w) as [|[|] rest]; reflexivity.
Qed.

(** [persistData] never throws; it sets the state, calls [setItem] first
    and talks to the remote store only when the entry was written. *)
Lemma persistData_spec (l : list Appointment) (w : World) :
  exists w',
    persistData l w = (Normal tt, w')
    /\ appointments (app w') = l
    /\ settings (app w') = settings (app w)
    /\ newAppt (app w') = newAppt (app w)
    /\ localStorage w'
       = (if accepted w
          then <[remindly_appointments := stringify (to_json l)]> (localStorage w)
          else localStorage w)
    /\ webhook w' = webhook w
    /\ exists es, trace w' = trace w ++ SetItem remindly_appointments (stringify (to_json l)) :: es
                  /\ Forall remote_event es.
Proof.
  unfold persistData, bind, try_catch, setAppointments, modify, read.
  cbn [fst snd].
  set (w1 := with_app _ w).
  rewrite (save_world remindly_appointments l w1). cbv zeta.
  assert (accepted w1 = accepted w) as -> by reflexivity.
  destruct (accepted w).
  - set (w2 := with_localStorage _ _).
    assert (app w2 = {| appointments := l; settings := settings (app w);
                        newAppt := newAppt (app w) |}) as Happ by reflexivity.
    assert (localStorage w2 =
            <[remindly_appointments := stringify (to_json l)]> (localStorage w)) as Hls
        by reflexivity.
    assert (trace w2 = trace w ++ [SetItem remindly_appointments (stringify (to_json l))])
      as Htr by reflexivity.
    assert (webhook w2 = webhook w) as Hwh by reflexivity.
    rewrite Happ. cbn [settings].
    destruct (remote_enabled (settings (app w))).
    + destruct (remote_only_saveData (GitHubStorage (settings (app w))) l w2)
        as (H1 & H2 & H3 & es & H4 & H5).
      destruct (saveData _ l w2) as [[[]|e] w3]; cbn [snd] in *.
      * exists w3. rewrite H1, H2, H3, H4, Happ, Hls, Htr, Hwh. repeat split.
        exists es. now rewrite <- app_assoc.
      * exists (log ConsoleError w3). cbn [console_error modify log app localStorage
          webhook trace]. rewrite H1, H2, H3, H4, Happ, Hls, Htr, Hwh. repeat split.
        exists (es ++ [ConsoleError]). rewrite <- !app_assoc. split; [reflexivity|].
        apply Forall_app. split; [assumption|repeat constructor].
    + exists w2. cbn [ret]. rewrite Happ, Hls, Htr, Hwh. repeat split.
      exists []. split; [reflexivity|constructor].
  - eexists. split; [reflexivity|].
    cbn [console_error modify log app localStorage webhook trace with_writes with_app
         appointments settings newAppt].
    repeat split. exists [ConsoleError]. rewrite <- app_assoc.
    split; [reflexivity|repeat constructor].
Qed.
Lemma handleTrigger_absent (i : Z) (w : World) :
  (forall a, In a (appointments (app w)) -> id a <> i) ->
  handleTrigger i w
  = (Normal tt, log (Alert (js "Missing appointment data or n8n Webhook URL")) w).
Proof.
  intros H. unfold handleTrigger, bind, read. cbn [fst snd].
  now rewrite (find_absent id).
Qed.

Lemma handleTrigger_rejected (i : Z) (w : World) (st : nat) (rest : list FetchOutcome) :
  (exists a, In a (appointments (app w)) /\ id a = i) ->
  truthy (n8n_webhook_url (settings (app w))) = true ->
  webhook w = Responded st :: rest ->
  ok st = false ->
  exists appt,
    In appt (appointments (app w)) /\ id appt = i
    /\ handleTrigger i w
       = (Normal tt,
          log (Alert (js "n8n error: " ++ number_to_string (Z.of_nat st)))
              (log (Post (n8n_webhook_url (settings (app w))) appt)
                   (with_webhook rest w))).
Proof.
  intros Hin Hurl Hweb Hst.
  destruct (find_present id i _ Hin) as (appt & Hfind & Ha & Hid).
  exists appt. repeat split; try assumption.
  unfold handleTrigger, bind, read, try_catch, fetch_post. cbn [fst snd].
  rewrite Hfind, Hurl, Hweb. cbn [tl]. now rewrite Hst.
Qed.

Lemma handleTrigger_ok (i : Z) (w : World) (st : nat) (rest : list FetchOutcome)
    (appt : Appointment) :
  find (fun a => (id a =? i)%Z) (appointments (app w)) = Some appt ->
  truthy (n8n_webhook_url (settings (app w))) = true ->
  webhook w = Responded st :: rest ->
  ok st = true ->
  handleTrigger i w
  = persistData (map (fun a => if (id a =? i)%Z then set_sent a else a)
                     (appointments (app w)))
                (log (Post (n8n_webhook_url (settings (app w))) appt)
                     (with_webhook rest w)).
Proof.
  intros Hfind Hurl Hweb Hst.
  unfold handleTrigger, bind, read, try_catch, fetch_post. cbn [fst snd].
  rewrite Hfind, Hurl, Hweb. cbn [tl]. rewrite Hst.
  destruct (persistData_spec
              (map (fun a => if (id a =? i)%Z then set_sent a else a)
                   (appointments (app w)))
              (log (Post (n8n_webhook_url (settings (app w))) appt)
                   (with_webhook rest w))) as (w' & -> & _).
  reflexivity.
Qed.

Lemma handleDelete_absent (i : Z) (w : World) :
  (forall a, In a (appointments (app w)) -> id a <> i) ->
  handleDelete i w = persistData (appointments (app w)) w.
Proof.
  intros H. unfold handleDelete, bind, read. cbn [fst snd].
  now rewrite (filter_absent id).
Qed.

Lemma handleAddAppointment_spec (now : Z) (w : World) :
  let appt := {| id := now;
                 client_name := draft_client_name (newAppt (app w));
                 phone_number := draft_phone_number (newAppt (app w));
                 appointment_date := draft_appointment_date (newAppt (app w));
                 appointment_time := draft_appointment_time (newAppt (app w));
                 status := pending |} in
  exists w',
    handleAddAppointment now w = (Normal tt, w')
    /\ appointments (app w') = appointments (app w) ++ [appt]
    /\ newAppt (app w') = empty_draft.
Proof.
  intros appt. unfold handleAddAppointment, bind, read. cbn [fst snd]. fold appt.
  destruct (persistData_spec (appointments (app w) ++ [appt]) w)
    as (w1 & -> & Happ & _).
  eexists. split; [reflexivity|]. cbn. now rewrite Happ.
Qed.
Lemma sent_keeps_id (a : Appointment) : id (set_sent a) = id a.
Proof. reflexivity. Qed.

Lemma sent_twice (a : Appointment) : set_sent (set_sent a) = set_sent a.
Proof. reflexivity. Qed.

Lemma handleTrigger_not_found (i : Z) (w : World) :
  find (fun a => (id a =? i)%Z) (appointments (app w)) = None ->
  handleTrigger i w
  = (Normal tt, log (Alert (js "Missing appointment data or n8n Webhook URL")) w).
Proof.
  intros H. unfold handleTrigger, bind, read. cbn [fst snd]. now rewrite H.
Qed.

Lemma handleTrigger_no_url (i : Z) (w : World) :
  truthy (n8n_webhook_url (settings (app w))) = false ->
  handleTrigger i w
  = (Normal tt, log (Alert (js "Missing appointment data or n8n Webhook URL")) w).
Proof.
  intros H. unfold handleTrigger, bind, read. cbn [fst snd]. rewrite H.
  now destruct (find _ _).
Qed.

(** Two dispatches that the webhook accepts leave the record set that
    one leaves. *)
Lemma handleTrigger_twice (i : Z) (w : World) (s1 s2 : nat) (rest : list FetchOutcome) :
  webhook w = Responded s1 :: Responded s2 :: rest ->
  ok s1 = true -> ok s2 = true ->
  appointments (app (snd (handleTrigger i (snd (handleTrigger i w)))))
  = appointments (app (snd (handleTrigger i w))).
Proof.
  intros Hweb H1 H2.
  destruct (find (fun a => (id a =? i)%Z) (appointments (app w))) as [appt|] eqn:Hfind.
  - destruct (truthy (n8n_webhook_url (settings (app w)))) eqn:Hurl.
    + rewrite (handleTrigger_ok i w s1 (Responded s2 :: rest) appt Hfind Hurl Hweb H1).
      match goal with
      | |- context [persistData ?l ?w1] =>
          destruct (persistData_spec l w1) as (w2 & -> & Ha & Hs & _ & _ & Hw & _)
      end.
      cbn [snd]. cbn [webhook with_webhook log] in Hw. cbn [settings app log with_webhook] in Hs.
      assert (find (fun a => (id a =? i)%Z) (appointments (app w2))
              = Some (set_sent appt)) as Hfind2.
      { rewrite Ha. now apply (find_map_mark id set_sent sent_keeps_id). }
      rewrite (handleTrigger_ok i w2 s2 rest (set_sent appt) Hfind2
                 ltac:(now rewrite Hs) Hw H2).
      match goal with
      | |- context [persistData ?l ?w1] =>
          destruct (persistData_spec l w1) as (w3 & -> & Ha3 & _)
      end.
      cbn [snd]. rewrite Ha3, Ha.
      apply (map_mark_twice id set_sent sent_keeps_id sent_twice).
    + rewrite (handleTrigger_no_url i w Hurl). cbn [snd].
      now rewrite handleTrigger_no_url.
  - rewrite (handleTrigger_not_found i w Hfind). cbn [snd].
    now rewrite handleTrigger_not_found.
Qed.

Lemma map_sent_frame (i : Z) (l : list Appointment) :
  only_status_sent i l (map (fun a => if (id a =? i)%Z then set_sent a else a) l).
Proof.
  split; [apply length_map|].
  intros n a Hn. exists (if (id a =? i)%Z then set_sent a else a). split.
  - now apply (map_mark_frame id set_sent).
  - destruct (Z.eqb_spec (id a) i); repeat split; try reflexivity;
      intros; try contradiction; reflexivity.
Qed.
End ClientFacts.

(** * The claims about records, listing and dispatch *)
Section RecordClaims.
Import JS Client Samples.

(** C8, as the code has it. The listing of the server is in ascending
    order of (appointment_date, appointment_time), compared as plain
    texts: the answer of [GET /api/appointments] is a rearrangement of
    the stored rows in which every row comes no later than all the rows
    after it, and rows dated 2025-03-02 and 2025-03-01, both at 09:00,
    come back with 2025-03-01 first. The page does not sort: it lists
    the records in the order of its state, where [handleAddAppointment]
    puts the new record last whatever its date and time, and
    [handleDelete] and [handleTrigger] keep the order of the records
    that stay. *)
Theorem listing_order :
  (forall db : Server.DB,
     exists rows,
       Server.list_appointments db = (Server.json (Server.Appointments rows), db)
       /\ Permutation (Server.appointments db) rows
       /\ StronglySorted Server.date_time_le rows)
  /\ (forall seq st,
        fst (Server.list_appointments
               {| Server.appointments := [at_nine 1 "2025-03-02"; at_nine 2 "2025-03-01"];
                  Server.sqlite_sequence := seq; Server.settings := st |})
        = Server.json (Server.Appointments
                         [at_nine 2 "2025-03-01"; at_nine 1 "2025-03-02"]))
  /\ (forall (now : Z) (w : Client.World),
        exists appt,
          Page.shown (snd (Client.handleAddAppointment now w)) = Page.shown w ++ [appt]
          /\ Client.appointment_date appt
             = Client.draft_appointment_date (Client.newAppt (Client.app w))
          /\ Client.appointment_time appt
             = Client.draft_appointment_time (Client.newAppt (Client.app w)))
  /\ (forall (i : Z) (w : Client.World),
        Page.shown (snd (Client.handleDelete i w))
        = List.filter (fun a => negb (Client.id a =? i)%Z) (Page.shown w)
        /\ map Client.appointment_date (Page.shown (snd (Client.handleTrigger i w)))
           = map Client.appointment_date (Page.shown w)
        /\ map Client.appointment_time (Page.shown (snd (Client.handleTrigger i w)))
           = map Client.appointment_time (Page.shown w)).
Proof.
  split; [apply list_appointments_sorted|].
  split; [intros seq st; reflexivity|].
  unfold Page.shown. split.
  - intros now w. destruct (handleAddAppointment_spec now w) as (w' & Hh & Ha & _).
    cbv zeta in Ha. rewrite Hh. cbn [snd]. rewrite Ha.
    eexists. split; [reflexivity|]. split; reflexivity.
  - intros i w. split.
    + unfold Client.handleDelete, Client.bind, Client.read. cbn [fst snd].
      match goal with |- context [Client.persistData ?l w] =>
        destruct (persistData_spec l w) as (w' & Hp & Ha & _) end.
      rewrite Hp. exact Ha.
    + destruct (find (fun a => (Client.id a =? i)%Z)
                  (Client.appointments (Client.app w))) as [appt|] eqn:Hfind;
        [|rewrite (handleTrigger_not_found i w Hfind); split; reflexivity].
      destruct (Client.truthy (Client.n8n_webhook_url (Client.settings (Client.app w))))
        eqn:Hurl; [|rewrite (handleTrigger_no_url i w Hurl); split; reflexivity].
      destruct (Client.webhook w) as [|[st|] rest] eqn:Hweb.
      * unfold Client.handleTrigger, Client.bind, Client.read. cbn [fst snd].
        rewrite Hfind, Hurl. unfold Client.try_catch, Client.bind, Client.fetch_post.
        rewrite Hweb. split; reflexivity.
      * destruct (ok st) eqn:Hok.
        -- rewrite (handleTrigger_ok i w st rest appt Hfind Hurl Hweb Hok).
           match goal with |- context [Client.persistData ?l ?w1] =>
             destruct (persistData_spec l w1) as (w' & Hp & Ha & _) end.
           rewrite Hp. cbn [snd]. rewrite Ha.
           cbn [Client.app Client.log Client.with_webhook]. rewrite !map_map.
           split; apply map_ext; intros a; now destruct (Client.id a =? i)%Z.
        -- unfold Client.handleTrigger, Client.bind, Client.read. cbn [fst snd].
           rewrite Hfind, Hurl. unfold Client.try_catch, Client.bind, Client.fetch_post.
           rewrite Hweb, Hok. split; reflexivity.
      * unfold Client.handleTrigger, Client.bind, Client.read. cbn [fst snd].
        rewrite Hfind, Hurl. unfold Client.try_catch, Client.bind, Client.fetch_post.
        rewrite Hweb. split; reflexivity.
Qed.

(** C8, as the claim states it, fails for the page: records dated
    2025-03-02 and 2025-03-01, both at 09:00 and created in this order,
    are listed with 2025-03-02 first. *)
Lemma page_lists_in_creation_order :
  let draft (date : string) :=
    {| Client.draft_client_name := js "Ana"; Client.draft_phone_number := js "+1555";
       Client.draft_appointment_date := js date;
       Client.draft_appointment_time := js "09:00" |} in
  let w1 := snd (Client.handleAddAppointment 1
                   (snd (Client.setNewAppt (draft "2025-03-02")
                           (page local_settings [] [] [])))) in
  let w2 := snd (Client.handleAddAppointment 2
                   (snd (Client.setNewAppt (draft "2025-03-01") w1))) in
  map Client.appointment_date (Page.shown w2) = [js "2025-03-02"; js "2025-03-01"]
  /\ map Client.appointment_time (Page.shown w2) = [js "09:00"; js "09:00"].
Proof. cbv zeta. split; vm_compute; reflexivity. Qed.


(** C9. Marking an appointment as sent twice leaves the record set that
    marking it once leaves, on the server (the UPDATE, and two calls of
    the trigger route) and in the browser (the [map] over the
    appointments, and two dispatches that the webhook accepts). It holds
    for every id, present or not. *)
Theorem mark_sent_idempotent (i : Z) (db : Server.DB) (w : Client.World)
    (net : Server.Call -> Server.FetchOutcome) :
  Server.update_sent i (Server.update_sent i db) = Server.update_sent i db
  /\ snd (fst (Server.trigger_reminder net i
                 (snd (fst (Server.trigger_reminder net i db)))))
     = snd (fst (Server.trigger_reminder net i db))
  /\ (let mark := map (fun a => if (Client.id a =? i)%Z then Client.set_sent a else a) in
      mark (mark (Client.appointments (Client.app w)))
      = mark (Client.appointments (Client.app w)))
  /\ (let w0 := Client.with_webhook [Client.Responded 200; Client.Responded 200] w in
      Client.appointments
        (Client.app (snd (Client.handleTrigger i (snd (Client.handleTrigger i w0)))))
      = Client.appointments (Client.app (snd (Client.handleTrigger i w0)))).
Proof.
  repeat split.
  - apply update_sent_twice.
  - apply trigger_twice.
  - apply (map_mark_twice Client.id Client.set_sent sent_keeps_id sent_twice).
  - cbv zeta. now apply (handleTrigger_twice i _ 200 200 []).
Qed.


(** C10. A successful dispatch of appointment [i] changes nothing in the
    record set but the status of the target, which becomes sent: its id,
    client_name, phone_number, appointment_date and appointment_time
    stay, and every other appointment stays as it was. On the server the
    dispatch is a call of the trigger route answered with success; in
    the browser it is [handleTrigger] for a present appointment, with a
    webhook URL set and a 2xx answer. *)
Theorem dispatch_changes_only_status
    (net : Server.Call -> Server.FetchOutcome) (i : Z) (db : Server.DB)
    (w : Client.World) (st : nat) (rest : list Client.FetchOutcome)
    (Hserver : fst (fst (Server.trigger_reminder net i db)) = Server.json Server.Success)
    (Hpresent : exists a, In a (Client.appointments (Client.app w)) /\ Client.id a = i)
    (Hurl : Client.truthy (Client.n8n_webhook_url (Client.settings (Client.app w))) = true)
    (Hweb : Client.webhook w = Client.Responded st :: rest)
    (Hok : ok st = true) :
  let db' := snd (fst (Server.trigger_reminder net i db)) in
  let w' := snd (Client.handleTrigger i w) in
  (Server.only_status_sent i (Server.appointments db) (Server.appointments db')
   /\ Server.sqlite_sequence db' = Server.sqlite_sequence db
   /\ Server.settings db' = Server.settings db)
  /\ (Client.only_status_sent i (Client.appointments (Client.app w))
                                (Client.appointments (Client.app w'))
      /\ Client.settings (Client.app w') = Client.settings (Client.app w)).
Proof.
  cbv zeta. split.
  - rewrite (trigger_success net i db Hserver).
    destruct (update_sent_frame i db) as (Hs & Hst & Hrows). auto.
  - destruct (find_present Client.id i _ Hpresent) as (appt & Hfind & _).
    rewrite (handleTrigger_ok i w st rest appt Hfind Hurl Hweb Hok).
    match goal with
    | |- context [Client.persistData ?l ?w1] =>
        destruct (persistData_spec l w1) as (w2 & -> & Ha & Hs & _)
    end.
    cbn [snd]. rewrite Ha, Hs. split; [apply map_sent_frame|reflexivity].
Qed.

Lemma dispatch_changes_only_status_witness :
  let net := fun _ : Server.Call => Server.Responded 200 in
  let w := page local_settings [ana] [] [Client.Responded 200] in
  fst (fst (Server.trigger_reminder net 1 one_row_db)) = Server.json Server.Success
  /\ (exists a, In a (Client.appointments (Client.app w)) /\ Client.id a = 1%Z)
  /\ Client.truthy (Client.n8n_webhook_url (Client.settings (Client.app w))) = true
  /\ Client.webhook w = [Client.Responded 200]
  /\ ok 200 = true
  /\ Server.only_status_sent 1 (Server.appointments one_row_db)
       (Server.appointments (snd (fst (Server.trigger_reminder net 1 one_row_db))))
  /\ Client.only_status_sent 1 (Client.appointments (Client.app w))
       (Client.appointments (Client.app (snd (Client.handleTrigger 1 w)))).
Proof.
  cbv zeta.
  assert (exists a, In a [ana] /\ Client.id a = 1%Z) as Hpresent
      by (exists ana; split; [left|]; reflexivity).
  pose proof (dispatch_changes_only_status
                (fun _ => Server.Responded 200) 1 one_row_db
                (page local_settings [ana] [] [Client.Responded 200]) 200 []
                eq_refl Hpresent eq_refl eq_refl eq_refl) as H.
  cbv zeta in H. destruct H as [[Hs _] [Hc _]].
  split; [reflexivity|]. split; [exact Hpresent|].
  do 3 (split; [reflexivity|]). split; assumption.
Defined.

(** C7. When the appointment is present, a webhook URL is set and the
    webhook answers with a status outside 200-299, the dispatch fails as
    rejected downstream, carrying that status (the server answers 502
    with "n8n returned an error: <status>", the browser alerts "n8n
    error: <status>"), and the record set is unchanged, so the
    appointment remains pending. *)
Theorem rejected_dispatch_changes_nothing
    (net : Server.Call -> Server.FetchOutcome) (i : Z) (db : Server.DB)
    (url : string) (w : Client.World) (st : nat) (rest : list Client.FetchOutcome)
    (Hrow : exists r, In r (Server.appointments db) /\ Server.id r = i)
    (Hsetting : Server.settings db !! "n8n_webhook_url" = Some url)
    (Hset : url <> EmptyString)
    (Hnet : forall appointment, net (url, appointment) = Server.Responded st)
    (Hpresent : exists a, In a (Client.appointments (Client.app w)) /\ Client.id a = i)
    (Hurl : Client.truthy (Client.n8n_webhook_url (Client.settings (Client.app w))) = true)
    (Hweb : Client.webhook w = Client.Responded st :: rest)
    (Hrejected : ok st = false) :
  (exists appointment,
     In appointment (Server.appointments db) /\ Server.id appointment = i
     /\ Server.trigger_reminder net i db
        = (Server.fail 502 (Server.N8nReturnedError st), db, [(url, appointment)]))
  /\ (exists appt w',
        In appt (Client.appointments (Client.app w)) /\ Client.id appt = i
        /\ Client.handleTrigger i w = (Client.Normal tt, w')
        /\ Client.app w' = Client.app w
        /\ Client.localStorage w' = Client.localStorage w
        /\ Client.github w' = Client.github w
        /\ Client.trace w'
           = Client.trace w
             ++ [Client.Post (Client.n8n_webhook_url (Client.settings (Client.app w))) appt;
                 Client.Alert (js "n8n error: " ++ number_to_string (Z.of_nat st))]).
Proof.
  split.
  - now apply trigger_rejected.
  - destruct (handleTrigger_rejected i w st rest Hpresent Hurl Hweb Hrejected)
      as (appt & Hin & Hid & ->).
    exists appt. eexists. repeat split; try assumption.
    cbn [Client.trace Client.log Client.with_webhook]. now rewrite <- app_assoc.
Qed.

Lemma rejected_dispatch_changes_nothing_witness :
  let net := fun _ : Server.Call => Server.Responded 500 in
  let w := page local_settings [ana] [] [Client.Responded 500] in
  (exists r, In r (Server.appointments one_row_db) /\ Server.id r = 1%Z)
  /\ Server.settings one_row_db !! "n8n_webhook_url"
     = Some "https://n8n.example/webhook"%string
  /\ "https://n8n.example/webhook"%string <> EmptyString
  /\ (forall appointment,
        net ("https://n8n.example/webhook"%string, appointment) = Server.Responded 500)
  /\ (exists a, In a (Client.appointments (Client.app w)) /\ Client.id a = 1%Z)
  /\ Client.truthy (Client.n8n_webhook_url (Client.settings (Client.app w))) = true
  /\ Client.webhook w = [Client.Responded 500]
  /\ ok 500 = false
  /\ Server.trigger_reminder net 1 one_row_db
     = (Server.fail 502 (Server.N8nReturnedError 500), one_row_db,
        [("https://n8n.example/webhook"%string, at_nine 1 "2025-03-01")])
  /\ Client.appointments (Client.app (snd (Client.handleTrigger 1 w))) = [ana].
Proof.
  cbv zeta.
  assert (exists r, In r (Server.appointments one_row_db) /\ Server.id r = 1%Z) as Hrow
      by (exists (at_nine 1 "2025-03-01"); split; [left|]; reflexivity).
  assert (exists a, In a [ana] /\ Client.id a = 1%Z) as Hpresent
      by (exists ana; split; [left|]; reflexivity).
  destruct (rejected_dispatch_changes_nothing
              (fun _ => Server.Responded 500) 1 one_row_db
              "https://n8n.example/webhook"
              (page local_settings [ana] [] [Client.Responded 500]) 500 []
              Hrow eq_refl ltac:(discriminate) (fun _ => eq_refl)
              Hpresent eq_refl eq_refl eq_refl)
    as [(r & Hr & _ & Hs) (appt & w' & _ & _ & Hc & Happ & _)].
  split; [exact Hrow|]. split; [reflexivity|]. split; [discriminate|].
  split; [reflexivity|]. split; [exact Hpresent|].
  do 3 (split; [reflexivity|]). split.
  - rewrite Hs. destruct Hr as [<-|[]]. reflexivity.
  - rewrite Hc. cbn [snd]. now rewrite Happ.
Defined.


(** C4, as the code has it. For an id that no record has, removing
    leaves the record set unchanged and reports success, not NotFound
    (the server answers 200 with success: true; the browser persists the
    unchanged set and raises nothing); a dispatch for such an id fails
    as not found (404 "Appointment not found" on the server, an alert in
    the browser) without a call to the webhook and leaves the record set
    unchanged. *)
Theorem absent_id_leaves_set_unchanged
    (i : Z) (db : Server.DB) (w : Client.World)
    (Hdb : forall r, In r (Server.appointments db) -> Server.id r <> i)
    (Hw : forall a, In a (Client.appointments (Client.app w)) -> Client.id a <> i) :
  Server.delete_appointment i db = (Server.json Server.Success, db)
  /\ (forall net, Server.trigger_reminder net i db
                  = (Server.fail 404 Server.AppointmentNotFound, db, []))
  /\ (exists w',
        Client.handleDelete i w = (Client.Normal tt, w')
        /\ Client.appointments (Client.app w') = Client.appointments (Client.app w)
        /\ exists es,
             Client.trace w'
             = Client.trace w
               ++ Client.SetItem Client.remindly_appointments
                    (stringify (Client.to_json (Client.appointments (Client.app w))))
                  :: es
             /\ Forall Client.remote_event es)
  /\ Client.handleTrigger i w
     = (Client.Normal tt,
        Client.log (Client.Alert (js "Missing appointment data or n8n Webhook URL")) w).
Proof.
  split; [now apply delete_absent|].
  split; [intros net; now apply trigger_absent|].
  split; [|now apply handleTrigger_absent].
  rewrite (handleDelete_absent i w Hw).
  destruct (persistData_spec (Client.appointments (Client.app w)) w)
    as (w' & -> & Ha & _ & _ & _ & _ & es & Ht & Hes).
  exists w'. split; [reflexivity|]. split; [assumption|]. eauto.
Qed.

Lemma absent_id_leaves_set_unchanged_witness :
  let w := page local_settings [ana] [] [] in
  (forall r, In r (Server.appointments one_row_db) -> Server.id r <> 7%Z)
  /\ (forall a, In a (Client.appointments (Client.app w)) -> Client.id a <> 7%Z)
  /\ Server.delete_appointment 7 one_row_db = (Server.json Server.Success, one_row_db)
  /\ Client.appointments (Client.app (snd (Client.handleDelete 7 w))) = [ana].
Proof.
  cbv zeta.
  assert (forall r, In r (Server.appointments one_row_db) -> Server.id r <> 7%Z) as Hdb.
  { intros r [<-|[]]. discriminate. }
  assert (forall a, In a [ana] -> Client.id a <> 7%Z) as Hw.
  { intros a [<-|[]]. discriminate. }
  destruct (absent_id_leaves_set_unchanged 7 one_row_db
              (page local_settings [ana] [] []) Hdb Hw)
    as (Hdel & _ & (w' & Hh & Ha & _) & _).
  split; [exact Hdb|]. split; [exact Hw|]. split; [exact Hdel|].
  rewrite Hh. exact Ha.
Defined.

(** C4, as the claim states it, fails: removing an id that no record has
    does not fail with NotFound. In an empty record set the server
    answers the removal of id 1 with 200 and success: true, and the
    browser's removal completes without raising and without an alert. *)
Lemma delete_absent_id_succeeds :
  (forall r, In r (Server.appointments empty_db) -> Server.id r <> 1%Z)
  /\ fst (Server.delete_appointment 1 empty_db) = Server.json Server.Success
  /\ Server.code (fst (Server.delete_appointment 1 empty_db)) <> 404%nat
  /\ fst (Client.handleDelete 1 (page local_settings [] [] [])) = Client.Normal tt
  /\ Forall (fun e => forall msg, e <> Client.Alert msg)
            (Client.trace (snd (Client.handleDelete 1 (page local_settings [] [] [])))).
Proof.
  split; [intros r []|]. split; [reflexivity|]. split; [discriminate|].
  split; [reflexivity|].
  vm_compute. repeat constructor. discriminate.
Qed.

(** C5, as the code has it. Creating does not check that client_name and
    phone_number are non-empty: the server refuses only a field that is
    missing or null, and the browser's handler takes the draft as it is
    (the form marks its inputs as required). Every creation that is not
    refused appends exactly one record, with status pending and the
    fields given, so the record set grows by one. On the server the new
    id is one more than the largest id the table has held, hence fresh;
    the id answered is that id as a JavaScript number, which is the id
    itself up to 2^53. In the browser the id is the clock reading, taken
    unchecked: it is fresh exactly when no record carries that value,
    and when one does the set holds two records with one id. *)
Theorem create_appends_pending_record
    (stamp name phone date time : string) (db : Server.DB)
    (now : Z) (w : Client.World)
    (Hroom : (Server.largest_rowid db < Server.max_rowid)%Z) :
  (exists row db',
     Server.create_appointment stamp
       {| Server.new_client_name := Some name; Server.new_phone_number := Some phone;
          Server.new_appointment_date := Some date;
          Server.new_appointment_time := Some time |} db
     = (Server.json (Server.Inserted (Server.to_number (Server.id row))), db')
     /\ ((- Server.max_safe <= Server.id row <= Server.max_safe)%Z ->
         Server.to_number (Server.id row) = Server.id row)
     /\ Server.appointments db' = Server.appointments db ++ [row]
     /\ length (Server.appointments db') = S (length (Server.appointments db))
     /\ Server.status row = pending
     /\ Server.client_name row = name /\ Server.phone_number row = phone
     /\ Server.appointment_date row = date /\ Server.appointment_time row = time
     /\ Server.id row = (Server.largest_rowid db + 1)%Z
     /\ (forall r, In r (Server.appointments db) -> Server.id r <> Server.id row))
  /\ (forall req,
        Server.new_client_name req = None \/ Server.new_phone_number req = None ->
        Server.create_appointment stamp req db = (Server.fail 500 Server.Uncaught, db))
  /\ (exists appt w',
        Client.handleAddAppointment now w = (Client.Normal tt, w')
        /\ Client.appointments (Client.app w')
           = Client.appointments (Client.app w) ++ [appt]
        /\ length (Client.appointments (Client.app w'))
           = S (length (Client.appointments (Client.app w)))
        /\ Client.status appt = pending
        /\ Client.id appt = now
        /\ Client.client_name appt = Client.draft_client_name (Client.newAppt (Client.app w))
        /\ Client.phone_number appt = Client.draft_phone_number (Client.newAppt (Client.app w))
        /\ Client.appointment_date appt
           = Client.draft_appointment_date (Client.newAppt (Client.app w))
        /\ Client.appointment_time appt
           = Client.draft_appointment_time (Client.newAppt (Client.app w))
        /\ (List.NoDup (map Client.id (Client.appointments (Client.app w))) ->
            (List.NoDup (map Client.id (Client.appointments (Client.app w')))
             <-> forall a, In a (Client.appointments (Client.app w)) -> Client.id a <> now))).
Proof.
  split; [|split].
  - destruct (create_appends stamp name phone date time db Hroom) as [Hc Hfresh].
    eexists _, _. split; [exact Hc|]. split; [apply to_number_exact|].
    cbn [Server.appointments].
    rewrite length_app. cbn. repeat split; try reflexivity; [lia|exact Hfresh].
  - intros req Hreq. unfold Server.create_appointment.
    destruct Hreq as [-> | ->]; [reflexivity|].
    now destruct (Server.new_client_name req).
  - destruct (handleAddAppointment_spec now w) as (w' & Hh & Ha & _).
    eexists _, w'. split; [exact Hh|]. split; [exact Ha|].
    rewrite Ha, length_app. cbn [length]. split; [lia|].
    do 6 (split; [reflexivity|]).
    intros Hdistinct. rewrite map_app. cbn [map Client.id]. split.
    + intros Hd a Hin Hid. apply List.NoDup_remove_2 in Hd.
      apply Hd. rewrite app_nil_r. apply in_map_iff. eauto.
    + intros Hfresh. apply List.NoDup_app; [exact Hdistinct|repeat constructor; intros []|].
      intros x Hin [<-|[]]. apply in_map_iff in Hin as (a & Hid & Hin).
      exact (Hfresh a Hin Hid).
Qed.

Lemma create_appends_pending_record_witness :
  let w := page local_settings [ana] [] [] in
  (Server.largest_rowid one_row_db < Server.max_rowid)%Z
  /\ fst (Server.create_appointment "2025-02-02 08:00:00"
            {| Server.new_client_name := Some "Bea"%string;
               Server.new_phone_number := Some "+1666"%string;
               Server.new_appointment_date := Some "2025-03-03"%string;
               Server.new_appointment_time := Some "10:30"%string |}
            one_row_db) = Server.json (Server.Inserted 2)
  /\ length (Server.appointments
               (snd (Server.create_appointment "2025-02-02 08:00:00"
                       {| Server.new_client_name := Some "Bea"%string;
                          Server.new_phone_number := Some "+1666"%string;
                          Server.new_appointment_date := Some "2025-03-03"%string;
                          Server.new_appointment_time := Some "10:30"%string |}
                       one_row_db))) = 2%nat
  /\ length (Client.appointments
               (Client.app (snd (Client.handleAddAppointment 1741000000000 w)))) = 2%nat.
Proof.
  cbv zeta.
  destruct (create_appends_pending_record "2025-02-02 08:00:00" "Bea" "+1666"
              "2025-03-03" "10:30" one_row_db 1741000000000
              (page local_settings [ana] [] []) eq_refl)
    as ((row & db' & Hc & Hexact & _ & Hlen & _ & _ & _ & _ & _ & Hid & _) & _
        & (appt & w' & Hh & _ & Hlen' & _)).
  split; [reflexivity|]. rewrite Hc, Hh. cbn [fst snd].
  split; [|split; [exact Hlen|exact Hlen']].
  rewrite Hexact; rewrite Hid; [reflexivity|].
  split; vm_compute; discriminate.
Defined.

(** C5, as the claim states it, fails twice: creation does not validate
    that client_name and phone_number are non-empty, and in the browser
    the id is not checked to be new. With both fields empty the server
    stores the row and answers with its id, and the browser's handler
    appends a record with empty name and number; and a creation at the
    clock reading 1 on a page that shows a record with id 1 leaves two
    records with id 1. *)
Lemma create_checks_neither_fields_nor_id :
  let req := {| Server.new_client_name := Some EmptyString;
                Server.new_phone_number := Some EmptyString;
                Server.new_appointment_date := Some "2025-03-01"%string;
                Server.new_appointment_time := Some "09:00"%string |} in
  let w := page local_settings [] [] [] in
  fst (Server.create_appointment "2025-02-02 08:00:00" req empty_db)
  = Server.json (Server.Inserted 1)
  /\ map Server.client_name
       (Server.appointments
          (snd (Server.create_appointment "2025-02-02 08:00:00" req empty_db)))
     = [EmptyString]
  /\ Client.draft_client_name (Client.newAppt (Client.app w)) = []
  /\ fst (Client.handleAddAppointment 5 w) = Client.Normal tt
  /\ map Client.client_name
       (Client.appointments (Client.app (snd (Client.handleAddAppointment 5 w))))
     = [[]]
  /\ map Client.id (Client.appointments (Client.app (page local_settings [ana] [] [])))
     = [1%Z]
  /\ map Client.id
       (Client.appointments
          (Client.app (snd (Client.handleAddAppointment 1
                              (page local_settings [ana] [] [])))))
     = [1%Z; 1%Z].
Proof. cbv zeta. repeat split; reflexivity. Qed.

End RecordClaims.

(** * The claims about the local and the remote store *)
Section StorageClaims.
Import JS Client Samples.

Lemma load_after_save (l : list Appointment) (w : World) :
  localStorage w !! remindly_appointments = Some (stringify (to_json l)) ->
  load remindly_appointments ([] : list Appointment) w = (Normal l, w).
Proof.
  intros H. unfold load, bind, getItem, read. cbn [fst snd]. rewrite H.
  rewrite stringify_truthy. cbn [negb]. unfold try_catch.
  now rewrite JSON_parse_stringify.
Qed.

(** C3. Every write whose local write is accepted persists the value
    to the local store before any remote attempt, and no remote outcome
    undoes or prevents it: [persistData] does not raise, the first thing
    it does to the outside is the [setItem] of the record set,
    everything after that is traffic with the remote store, and a local
    load after it returns yields the written value. This holds for every
    answer and every failure of the remote store. *)
Theorem persistData_local_first (l : list Appointment) (w : World)
    (Haccepted : accepted w = true) :
  exists w' es,
    persistData l w = (Normal tt, w')
    /\ trace w' = trace w ++ SetItem remindly_appointments (stringify (to_json l)) :: es
    /\ Forall remote_event es
    /\ localStorage w' !! remindly_appointments = Some (stringify (to_json l))
    /\ load remindly_appointments ([] : list Appointment) w' = (Normal l, w').
Proof.
  destruct (persistData_spec l w) as (w' & Hp & _ & _ & _ & Hls & _ & es & Ht & Hes).
  rewrite Haccepted in Hls.
  assert (localStorage w' !! remindly_appointments = Some (stringify (to_json l))) as Hk
      by (rewrite Hls; apply lookup_insert_eq).
  exists w', es. repeat split; try assumption.
  now apply load_after_save.
Qed.

Lemma persistData_local_first_witness :
  let w := page remote_settings [] [offline] [] in
  accepted w = true
  /\ fst (persistData [ana] w) = Normal tt
  /\ fst (load remindly_appointments ([] : list Appointment) (snd (persistData [ana] w)))
     = Normal [ana].
Proof.
  cbv zeta.
  destruct (persistData_local_first [ana] (page remote_settings [] [offline] []) eq_refl)
    as (w' & es & Hp & _ & _ & _ & Hl).
  split; [reflexivity|]. rewrite Hp. cbn [fst snd]. rewrite Hl. split; reflexivity.
Defined.

Lemma getFile_found (config : GitHubConfig) (w : World) (t : Turn) (ts : list Turn)
    (f : GitHubFile) :
  turns w = t :: ts -> fault t = None ->
  others t (github w) !! location config = Some f ->
  getFile config w
  = (Normal (Some {| content := Some (wrap 60 (file_content f));
                     sha := Some (file_sha f); message := None |}),
     log (Get (location config) (token config))
         (with_github (others t (github w)) ts w)).
Proof.
  intros Hturns Hfault Hfile.
  unfold getFile, bind, fetch_get, request. rewrite Hturns, Hfault.
  unfold api_get. rewrite Hfile. reflexivity.
Qed.

(** C6. A remote write passes the version token that its own GET of the
    same path has just returned (when the file exists) as the [sha] of
    the PUT. When other writers have moved the file to another version
    between the two requests, the service answers 409 and [saveData]
    throws the save error carrying the service's message; the remote
    store is left as the other writers left it, and the trace holds the
    one GET and the one PUT: nothing is retried. *)
Theorem saveData_expected_version
    (config : GitHubConfig) (l : list Appointment) (w : World)
    (t1 t2 : Turn) (rest : list Turn) (f : GitHubFile) (text : jsstring)
    (Hturns : turns w = t1 :: t2 :: rest)
    (Hget : fault t1 = None)
    (Hfile : others t1 (github w) !! location config = Some f)
    (Hsha : truthy (file_sha f) = true)
    (Hcontent : encode l = Some text) :
  let sent := {| put_message := js "Update Remindly data"; put_content := text;
                 put_branch := branch config; put_sha := Some (file_sha f) |} in
  let current := others t2 (others t1 (github w)) in
  trace (snd (saveData config l w))
  = trace w ++ [Get (location config) (token config);
                Put (location config) (token config) sent]
  /\ (fault t2 = None ->
      (forall f', current !! location config = Some f' -> file_sha f' <> file_sha f) ->
      fst (saveData config l w)
      = Throw (Error (js "GitHub Save Error: " ++ version_mismatch))
      /\ github (snd (saveData config l w)) = current
      /\ turns (snd (saveData config l w)) = rest).
Proof.
  cbv zeta. unfold encode in Hcontent.
  unfold saveData, bind.
  rewrite (getFile_found config w t1 (t2 :: rest) f Hturns Hget Hfile).
  cbn [sha]. rewrite Hcontent. cbn [or_throw ret]. rewrite Hsha.
  unfold fetch_put, request.
  cbn [turns log with_github github tl blob_sha].
  split.
  - destruct (fault t2) as [[|resp]|].
    + cbn. now rewrite <- app_assoc.
    + destruct (negb (ok (Http.status resp))).
      * unfold response_json, or_throw. destruct (Http.body resp); cbn;
          now rewrite <- app_assoc.
      * cbn. now rewrite <- app_assoc.
    + destruct (api_put _ _ _ _) as [resp r'].
      destruct (negb (ok (Http.status resp))).
      * unfold response_json, or_throw. destruct (Http.body resp); cbn;
          now rewrite <- app_assoc.
      * cbn. now rewrite <- app_assoc.
  - intros Hput Hstale. rewrite Hput.
    assert (api_put (blob_sha w) (location config)
              {| put_message := js "Update Remindly data"; put_content := text;
                 put_branch := branch config; put_sha := Some (file_sha f) |}
              (others t2 (others t1 (github w)))
            = (conflict, others t2 (others t1 (github w)))) as ->.
    { unfold api_put. cbn [put_sha].
      destruct (others t2 (others t1 (github w)) !! location config) as [f'|] eqn:E;
        [|reflexivity].
      destruct (decide (file_sha f = file_sha f')) as [Heq|_]; [|reflexivity].
      exfalso. exact (Hstale f' eq_refl (eq_sym Heq)). }
    repeat split.
Qed.

Lemma saveData_expected_version_witness :
  let config := GitHubStorage remote_settings in
  let w := page remote_settings [ana] [leaves seen_file; leaves foreign_file] [] in
  turns w = [leaves seen_file; leaves foreign_file]
  /\ fault (leaves seen_file) = None
  /\ others (leaves seen_file) (github w) !! location config = Some seen_file
  /\ truthy (file_sha seen_file) = true
  /\ (exists text, encode [ana] = Some text)
  /\ fault (leaves foreign_file) = None
  /\ (forall f', others (leaves foreign_file) (others (leaves seen_file) (github w))
                 !! location config = Some f' -> file_sha f' <> file_sha seen_file)
  /\ fst (saveData config [ana] w)
     = Throw (Error (js "GitHub Save Error: " ++ version_mismatch))
  /\ github (snd (saveData config [ana] w)) !! location config = Some foreign_file.
Proof.
  cbv zeta.
  assert (exists text, encode [ana] = Some text) as [text Htext]
      by (eexists; vm_compute; reflexivity).
  assert (forall f', others (leaves foreign_file)
                       (others (leaves seen_file)
                          (github (page remote_settings [ana]
                                     [leaves seen_file; leaves foreign_file] [])))
                     !! location (GitHubStorage remote_settings) = Some f'
                     -> file_sha f' <> file_sha seen_file) as Hstale.
  { intros f' Hf. cbn [others leaves] in Hf. rewrite lookup_singleton_eq in Hf.
    injection Hf as <-. discriminate. }
  destruct (saveData_expected_version (GitHubStorage remote_settings) [ana]
              (page remote_settings [ana] [leaves seen_file; leaves foreign_file] [])
              (leaves seen_file) (leaves foreign_file) [] seen_file text
              eq_refl eq_refl (lookup_singleton_eq _ _) eq_refl Htext)
    as [_ H].
  destruct (H eq_refl Hstale) as (Hthrow & Hgithub & _).
  split; [reflexivity|]. split; [reflexivity|].
  split; [apply lookup_singleton_eq|]. split; [reflexivity|].
  split; [exists text; exact Htext|]. split; [reflexivity|].
  split; [exact Hstale|]. split; [exact Hthrow|].
  rewrite Hgithub. apply lookup_singleton_eq.
Defined.

Lemma loadData_fails (config : GitHubConfig) (w : World) :
  GetFails config w -> fst (loadData config ([] : list Appointment) w) = Normal [].
Proof.
  intros [t rest Hturns Hfault|t rest r Hturns Hfault H404 Hok|t rest f Hturns Hfault Hfile Hdec].
  - unfold loadData, try_catch, bind, getFile, bind, fetch_get, request.
    now rewrite Hturns, Hfault.
  - unfold loadData, try_catch, bind, getFile, bind, fetch_get, request.
    rewrite Hturns, Hfault.
    destruct (Nat.eqb_spec (Http.status r) 404); [contradiction|].
    now rewrite Hok.
  - unfold loadData, try_catch, bind.
    rewrite (getFile_found config w t rest f Hturns Hfault Hfile).
    cbn [content to_String]. unfold decode in Hdec.
    destruct (atob _) as [text|]; [|reflexivity].
    cbn [or_throw ret]. unfold JSON_parse, bind.
    destruct (parse text) as [j|]; [|reflexivity].
    cbn [or_throw ret]. now rewrite Hdec.
Qed.

(** C2, what the code does. With the remote store enabled, a read whose
    GET fails does not raise, but it returns the empty default and not
    the value of the local store: [loadData] catches the failure itself
    and returns its default, so the local fallback in the [catch] of
    [loadInitialData] is never reached. The local store is left as it
    was, and nothing but the request and the logging of its failure
    happens. *)
Theorem loadInitialData_remote_failure
    (s : AppSettings) (w : World)
    (Henabled : remote_enabled s = true)
    (Hfails : GetFails (GitHubStorage s) w) :
  exists w',
    loadInitialData s w = (Normal tt, w')
    /\ appointments (app w') = []
    /\ localStorage w' = localStorage w
    /\ Forall remote_event (skipn (length (trace w)) (trace w')).
Proof.
  pose proof (loadData_fails (GitHubStorage s) w Hfails) as Hload.
  destruct (remote_only_loadData (GitHubStorage s) ([] : list Appointment) w)
    as (_ & Hls & _ & es & Ht & Hes).
  unfold loadInitialData, try_catch, bind. rewrite Henabled.
  destruct (loadData _ _ w) as [res w1]. cbn [fst snd] in *. subst res.
  eexists. split; [reflexivity|]. cbn. repeat split; try assumption.
  rewrite Ht, skipn_app, Nat.sub_diag, skipn_all. exact Hes.
Qed.

Lemma loadInitialData_remote_failure_witness :
  let w := snd (save remindly_appointments [ana] (page remote_settings [] [offline] [])) in
  remote_enabled remote_settings = true
  /\ GetFails (GitHubStorage remote_settings) w
  /\ fst (load remindly_appointments ([] : list Appointment) w) = Normal [ana]
  /\ fst (loadInitialData remote_settings w) = Normal tt
  /\ appointments (app (snd (loadInitialData remote_settings w))) = [].
Proof.
  cbv zeta.
  assert (GetFails (GitHubStorage remote_settings)
            (snd (save remindly_appointments [ana]
                    (page remote_settings [] [offline] [])))) as Hfails
      by (now apply (fails_unreachable _ _ offline [])).
  destruct (loadInitialData_remote_failure remote_settings _ eq_refl Hfails)
    as (w' & Hl & Ha & _).
  split; [reflexivity|]. split; [exact Hfails|].
  split; [vm_compute; reflexivity|].
  rewrite Hl. split; [reflexivity|exact Ha].
Defined.

Local Open Scope N_scope.

Lemma btoa_beyond_latin1 (c : N) (s : jsstring) :
  In c s -> 255 < c -> btoa s = None.
Proof.
  intros Hin Hc. unfold btoa.
  destruct (forallb (fun c => c <=? 255) s) eqn:E; [|reflexivity].
  rewrite forallb_forall in E. specialize (E c Hin).
  apply N.leb_le in E. lia.
Qed.

Lemma quote_units_keeps (c : N) (n : nat) :
  255 < c -> is_lead c || is_trail c = false ->
  forall s, (length s <= n)%nat -> In c s -> In c (quote_units s).
Proof.
  intros Hc Hs. apply orb_false_iff in Hs as [Hl Ht].
  induction n as [|n IH]; intros [|x rest] Hlen Hin; simpl in Hlen;
    try lia; try contradiction.
  rewrite quote_units_cons.
  assert (x = c -> escape_unit x = [c]) as Hesc.
  { intros ->. unfold escape_unit. ncases. }
  destruct (is_lead x) eqn:Lx.
  - destruct Hin as [->|Hin]; [congruence|].
    destruct rest as [|d rest']; [contradiction|].
    destruct (is_trail d) eqn:Td.
    + destruct Hin as [->|Hin]; [congruence|].
      right. right. apply IH; [simpl in Hlen; lia|assumption].
    + apply in_or_app. right. apply IH; [lia|assumption].
  - destruct (is_trail x) eqn:Tx.
    + destruct Hin as [->|Hin]; [congruence|].
      apply in_or_app. right. apply IH; [lia|assumption].
    + apply in_or_app. destruct Hin as [E|Hin].
      * left. rewrite (Hesc E). now left.
      * right. apply IH; [lia|assumption].
Qed.

Lemma in_join (c : N) (sep part : jsstring) (parts : list jsstring) :
  In part parts -> In c part -> In c (join sep parts).
Proof.
  induction parts as [|p parts IH]; [contradiction|].
  intros [->|Hin] Hc.
  - destruct parts; [assumption|]. rewrite join_two. apply in_or_app. now left.
  - destruct parts as [|q parts]; [contradiction|].
    rewrite join_two. apply in_or_app. right. apply in_or_app. right. now apply IH.
Qed.

Lemma in_serialize_list (c : N) (gap indent : jsstring) (part : jsstring)
    (parts : list jsstring) (open close : string) :
  In part parts -> In c part ->
  In c (match gap with
        | [] => js open ++ join (js ",") parts ++ js close
        | _ => js open ++ 10 :: (indent ++ gap)
                 ++ join (44 :: 10 :: indent ++ gap) parts
                 ++ 10 :: indent ++ js close
        end).
Proof.
  intros Hp Hc. destruct gap.
  - apply in_or_app. right. apply in_or_app. left. now apply (in_join c _ part).
  - apply in_or_app. right. right. apply in_or_app. right.
    apply in_or_app. left. now apply (in_join c _ part).
Qed.

Lemma client_name_in_text (c : N) (gap indent : jsstring) (a : Appointment) :
  255 < c -> is_lead c || is_trail c = false ->
  In c (client_name a) -> In c (serialize gap indent (appointment_to_json a)).
Proof.
  intros Hc Hs Hin. unfold appointment_to_json. cbn [serialize].
  apply (in_serialize_list c gap indent
           (quote (js "client_name") ++ js ":" ++ match gap with [] => [] | _ => [32] end
            ++ serialize gap (indent ++ gap) (JString (client_name a)))).
  - left. reflexivity.
  - apply in_or_app. right. apply in_or_app. right. apply in_or_app. right.
    cbn [serialize]. unfold quote. right. apply in_or_app. left.
    now apply (quote_units_keeps c (length (client_name a))).
Qed.

Lemma client_name_in_array (c : N) (gap indent : jsstring) (a : Appointment)
    (l : list Appointment) :
  255 < c -> is_lead c || is_trail c = false ->
  In a l -> In c (client_name a) -> In c (serialize gap indent (to_json l)).
Proof.
  intros Hc Hs Ha Hin. cbn [to_json appointments_data].
  destruct l as [|x l]; [contradiction|].
  cbn [serialize map].
  change (serialize gap (indent ++ gap) (appointment_to_json x)
          :: map (serialize gap (indent ++ gap)) (map appointment_to_json l))
    with (map (serialize gap (indent ++ gap)) (map appointment_to_json (x :: l))).
  apply (in_serialize_list c gap indent
           (serialize gap (indent ++ gap) (appointment_to_json a))).
  - apply in_map, in_map. assumption.
  - now apply client_name_in_text.
Qed.

Lemma getFile_trace (config : GitHubConfig) (w : World) :
  trace (snd (getFile config w)) = trace w ++ [Get (location config) (token config)].
Proof.
  unfold getFile, bind, fetch_get, request.
  destruct (fault _) as [[|resp]|]; [reflexivity| |].
  - destruct (Http.status resp =? 404)%nat; [reflexivity|].
    destruct (negb (ok (Http.status resp))); [reflexivity|].
    unfold response_json, or_throw. now destruct (Http.body resp).
  - unfold api_get. now destruct (_ !! _).
Qed.

(** C1, what the code does. A record set with a client_name that holds a
    character outside Latin-1 (a code unit above U+00FF; a lone
    surrogate apart, which JSON.stringify escapes) has no encoding for
    the remote store: [btoa] throws on the JSON text. [saveData] then
    fails after its GET and sends no PUT, so there is nothing to decode
    back. *)
Theorem saveData_beyond_latin1
    (config : GitHubConfig) (l : list Appointment) (a : Appointment) (c : N) (w : World)
    (Ha : In a l)
    (Hc : In c (client_name a))
    (Hbeyond : 255 < c)
    (Hscalar : is_lead c || is_trail c = false) :
  encode l = None
  /\ exists e w',
       saveData config l w = (Throw e, w')
       /\ trace w' = trace w ++ [Get (location config) (token config)].
Proof.
  assert (encode l = None) as Henc.
  { unfold encode. apply (btoa_beyond_latin1 c); [|assumption].
    now apply (client_name_in_array c _ _ a). }
  split; [assumption|]. unfold encode in Henc.
  pose proof (getFile_trace config w) as Ht.
  unfold saveData, bind. destruct (getFile config w) as [[file|e] w1]; cbn [snd] in Ht.
  - rewrite Henc. cbn [or_throw throw]. eauto.
  - eauto.
Qed.

Lemma saveData_beyond_latin1_witness :
  let config := GitHubStorage remote_settings in
  let w := page remote_settings [lukasz] [] [] in
  In lukasz [lukasz]
  /\ In 321 (client_name lukasz)
  /\ 255 < 321
  /\ is_lead 321 || is_trail 321 = false
  /\ encode [lukasz] = None
  /\ fst (saveData config [lukasz] w) = Throw InvalidCharacterError
  /\ github (snd (saveData config [lukasz] w)) !! location config = None.
Proof.
  cbv zeta.
  destruct (saveData_beyond_latin1 (GitHubStorage remote_settings) [lukasz] lukasz 321
              (page remote_settings [lukasz] [] [])
              (or_introl eq_refl) (or_introl eq_refl) eq_refl eq_refl)
    as [Henc _].
  split; [now left|]. split; [now left|]. split; [reflexivity|].
  split; [reflexivity|]. split; [exact Henc|].
  split; vm_compute; reflexivity.
Defined.

Lemma wrap_filtered (room : nat) (s : jsstring) :
  List.filter (fun c => negb (is_ascii_whitespace c)) (wrap room s)
  = List.filter (fun c => negb (is_ascii_whitespace c)) s.
Proof.
  revert room. induction s as [|c s IH]; intros room; [reflexivity|].
  destruct room; cbn [wrap List.filter];
    change (negb (is_ascii_whitespace 10)) with false; cbv iota;
    now rewrite IH.
Qed.

Lemma filter_solid (s : jsstring) :
  Forall (fun c => is_ascii_whitespace c = false) s ->
  List.filter (fun c => negb (is_ascii_whitespace c)) s = s.
Proof.
  induction 1 as [|c s Hc _ IH]; [reflexivity|].
  cbn [List.filter]. now rewrite Hc, IH.
Qed.

Lemma atob_btoa (s text : jsstring) :
  btoa s = Some text -> atob (wrap 60 text) = Some s.
Proof.
  unfold btoa. destruct (forallb _ s) eqn:E; [|discriminate].
  intros [= <-]. unfold atob.
  rewrite wrap_filtered, (filter_solid _ (b64_encode_solid s)).
  apply decode_padded_encode. apply List.Forall_forall. intros c Hc.
  rewrite forallb_forall in E. specialize (E c Hc). apply N.leb_le in E. lia.
Qed.

(** What does hold of the transport: a record set that has an encoding
    is read back from it exactly, also through the line breaks the
    service inserts. *)
Theorem decode_encode (l : list Appointment) (text : jsstring) :
  encode l = Some text -> decode (wrap 60 text) = Some l.
Proof.
  unfold encode, decode. intros H. rewrite (atob_btoa _ _ H).
  rewrite parse_stringify2. apply appointments_of_to_json.
Qed.
End StorageClaims.

(** * Further properties of the server *)
Section ServerMore.
Import Server Routes.

Lemma largest_rowid_sequence (db : DB) :
  Forall (fun r => 0 < id r <= sqlite_sequence db)%Z (appointments db) ->
  largest_rowid db = sqlite_sequence db.
Proof.
  unfold largest_rowid. induction 1 as [|r rows Hr _ IH]; simpl; [reflexivity|].
  rewrite IH. lia.
Qed.

Lemma sorted_ids_app (ids : list Z) (x : Z) :
  StronglySorted Z.lt ids -> Forall (fun y => y < x)%Z ids ->
  StronglySorted Z.lt (ids ++ [x]).
Proof.
  induction 1 as [|y ids Hs IH Hy]; intros Hall; simpl.
  - repeat constructor.
  - inversion Hall as [|? ? Hyx Hrest]; subst. constructor; [now apply IH|].
    apply Forall_app. split; [assumption|]. now repeat constructor.
Qed.

Lemma sorted_ids_filter (f : Row -> bool) (rows : list Row) :
  StronglySorted Z.lt (map id rows) ->
  StronglySorted Z.lt (map id (List.filter f rows)).
Proof.
  induction rows as [|r rows IH]; simpl; intros H; [constructor|].
  inversion H as [|? ? Hs Hall]; subst.
  destruct (f r); simpl; [|now apply IH].
  constructor; [now apply IH|].
  rewrite List.Forall_forall in *. intros y Hy. apply Hall.
  apply in_map_iff in Hy as (r' & <- & Hr'). apply in_map.
  now apply filter_In in Hr'.
Qed.

Lemma map_id_update_sent (i : Z) (rows : list Row) :
  map id (map (fun r => if (id r =? i)%Z then set_sent r else r) rows) = map id rows.
Proof.
  rewrite map_map. apply map_ext. intros r. now destruct (id r =? i)%Z.
Qed.

Lemma keys_in_order_update_sent (i : Z) (db : DB) :
  keys_in_order db -> keys_in_order (update_sent i db).
Proof.
  intros (Hs & Hb & Hq). unfold keys_in_order, update_sent.
  cbn [appointments sqlite_sequence]. rewrite map_id_update_sent.
  repeat split; try assumption; try apply Hq.
  rewrite List.Forall_forall in *. intros r Hr.
  apply in_map_iff in Hr as (r0 & <- & Hr0). specialize (Hb r0 Hr0).
  now destruct (id r0 =? i)%Z.
Qed.

Lemma keys_in_order_handle (net : Call -> FetchOutcome) (rq : Request) (db : DB) :
  keys_in_order db -> keys_in_order (snd (handle net rq db)).
Proof.
  intros Hk. destruct rq as [|stamp req|i| |url|i]; cbn [handle];
    try exact Hk.
  - destruct Hk as (Hs & Hb & Hq). unfold create_appointment.
    destruct (new_client_name req), (new_phone_number req),
      (new_appointment_date req), (new_appointment_time req);
      try (repeat split; assumption || apply Hq).
    rewrite (largest_rowid_sequence db Hb).
    destruct (Z.eqb_spec (sqlite_sequence db) max_rowid);
      [repeat split; assumption || apply Hq|].
    unfold keys_in_order. cbn [snd appointments sqlite_sequence id].
    rewrite map_app. cbn [map id]. repeat split; try lia.
    + apply sorted_ids_app; [assumption|].
      rewrite List.Forall_forall in *. intros y Hy.
      apply in_map_iff in Hy as (r & <- & Hr). specialize (Hb r Hr). lia.
    + apply Forall_app. split.
      * eapply List.Forall_impl; [|exact Hb]. cbn. intros r Hr. lia.
      * repeat constructor; cbn; lia.
  - destruct Hk as (Hs & Hb & Hq). unfold keys_in_order, delete_appointment.
    cbn [snd appointments sqlite_sequence]. repeat split; try apply Hq.
    + now apply sorted_ids_filter.
    + rewrite List.Forall_forall in *. intros r Hr. apply Hb.
      now apply filter_In in Hr.
  - destruct (trigger_state net i db) as [->|[_ ->]];
      [assumption|now apply keys_in_order_update_sent].
Qed.

Lemma sorted_ids_nodup (ids : list Z) : StronglySorted Z.lt ids -> List.NoDup ids.
Proof.
  induction 1 as [|y ids _ IH Hy]; constructor; [|assumption].
  intros Hin. rewrite List.Forall_forall in Hy. specialize (Hy y Hin). lia.
Qed.

(** X1. The keys stay in order through every request: in the database of
    a first start, and after any sequence of requests to the routes, the
    rows are in ascending order of id, so no two rows share an id; every
    id is positive and at most the recorded sequence value, which stays a
    64-bit rowid. Each single request keeps this. *)
Theorem serve_keeps_keys_in_order (net : Call -> FetchOutcome) :
  (forall rq db, keys_in_order db -> keys_in_order (snd (handle net rq db)))
  /\ (forall rqs,
        keys_in_order (serve net rqs created)
        /\ List.NoDup (map id (appointments (serve net rqs created)))).
Proof.
  split; [intros; now apply keys_in_order_handle|].
  assert (forall rqs db, keys_in_order db -> keys_in_order (serve net rqs db)) as H.
  { induction rqs as [|rq rqs IH]; intros db Hk; [exact Hk|].
    cbn [serve]. apply IH. now apply keys_in_order_handle. }
  assert (keys_in_order created) as Hc.
  { unfold keys_in_order, created, max_rowid. cbn. repeat split; try constructor; lia. }
  intros rqs. split; [now apply H|].
  apply sorted_ids_nodup. now apply (H rqs created Hc).
Qed.

(** X2. An id is never given twice. With the keys in order and room in
    the sequence, a creation that follows the deletion of any id stores
    its row under the sequence value plus one, which is above every id
    the table held before the deletion, the deleted one included. The
    id answered is that id as a JavaScript number: the id itself while
    the sequence value is below 2^53. *)
Theorem deleted_id_not_reused
    (stamp name phone date time : string) (i : Z) (db : DB)
    (Hkeys : keys_in_order db)
    (Hroom : (sqlite_sequence db < max_rowid)%Z) :
  exists row db',
    create_appointment stamp
      {| new_client_name := Some name; new_phone_number := Some phone;
         new_appointment_date := Some date; new_appointment_time := Some time |}
      (snd (delete_appointment i db))
    = (json (Inserted (to_number (id row))), db')
    /\ appointments db'
       = List.filter (fun r => negb (id r =? i)%Z) (appointments db) ++ [row]
    /\ id row = (sqlite_sequence db + 1)%Z
    /\ (forall r, In r (appointments db) -> (id r < id row)%Z)
    /\ sqlite_sequence db' = id row
    /\ ((sqlite_sequence db < max_safe)%Z -> to_number (id row) = id row).
Proof.
  pose proof (keys_in_order_handle (fun _ => Failed) (DeleteAppointment i) db Hkeys)
    as (_ & Hb' & _).
  cbn [handle] in Hb'. destruct Hkeys as (_ & Hb & Hseq).
  unfold create_appointment.
  cbn [new_client_name new_phone_number new_appointment_date new_appointment_time].
  rewrite (largest_rowid_sequence _ Hb').
  cbn [delete_appointment snd sqlite_sequence appointments].
  destruct (Z.eqb_spec (sqlite_sequence db) max_rowid); [lia|].
  exists {| id := sqlite_sequence db + 1; client_name := name; phone_number := phone;
            appointment_date := date; appointment_time := time;
            status := pending; created_at := stamp |}.
  eexists. split; [reflexivity|]. cbn [id appointments sqlite_sequence].
  split; [reflexivity|]. split; [reflexivity|]. split; [|split; [reflexivity|]].
  - intros r Hr. rewrite List.Forall_forall in Hb. specialize (Hb r Hr). lia.
  - intros Hsafe. apply to_number_exact. unfold max_safe in *. lia.
Qed.

Lemma deleted_id_not_reused_witness :
  keys_in_order Samples.one_row_db
  /\ (sqlite_sequence Samples.one_row_db < max_rowid)%Z
  /\ fst (create_appointment "2025-02-02 08:00:00"
            {| new_client_name := Some "Bea"%string; new_phone_number := Some "+1666"%string;
               new_appointment_date := Some "2025-03-03"%string;
               new_appointment_time := Some "10:30"%string |}
            (snd (delete_appointment 1 Samples.one_row_db)))
     = json (Inserted 2).
Proof.
  assert (keys_in_order Samples.one_row_db) as Hk.
  { unfold keys_in_order, max_rowid. cbn.
    repeat split; repeat constructor; cbn; lia. }
  destruct (deleted_id_not_reused "2025-02-02 08:00:00" "Bea" "+1666" "2025-03-03"
              "10:30" 1 Samples.one_row_db Hk eq_refl)
    as (row & db' & Hc & _ & Hid & _ & _ & Hexact).
  split; [exact Hk|]. split; [reflexivity|]. rewrite Hc. cbn [fst].
  rewrite (Hexact eq_refl), Hid. reflexivity.
Defined.

Lemma filter_one_less (i : Z) (rows : list Row) :
  StronglySorted Z.lt (map id rows) ->
  (exists r, In r rows /\ id r = i) ->
  S (length (List.filter (fun r => negb (id r =? i)%Z) rows)) = length rows.
Proof.
  induction rows as [|r rows IH]; simpl; intros Hs [r0 [Hin Hid]]; [contradiction|].
  inversion Hs as [|? ? Hs' Hall]; subst.
  destruct (Z.eqb_spec (id r) (id r0)) as [E|NE]; simpl.
  - rewrite (filter_absent id); [reflexivity|]. intros r' Hr' E'.
    rewrite List.Forall_forall in Hall.
    specialize (Hall (id r') (in_map id _ _ Hr')). lia.
  - f_equal. apply IH; [assumption|]. destruct Hin as [->|Hin]; [contradiction|].
    eauto.
Qed.

(** X3. Deleting removes the row of that id and nothing else: the rows
    left are the rows with another id, in their order; sequence and
    settings stay; the answer is success. With the keys in order and the
    id present, exactly one row goes. *)
Theorem delete_removes_the_row (i : Z) (db : DB)
    (Hkeys : keys_in_order db)
    (Hpresent : exists r, In r (appointments db) /\ id r = i) :
  let db' := snd (delete_appointment i db) in
  fst (delete_appointment i db) = json Success
  /\ (forall r, In r (appointments db') <-> In r (appointments db) /\ id r <> i)
  /\ S (length (appointments db')) = length (appointments db)
  /\ keys_in_order db'
  /\ sqlite_sequence db' = sqlite_sequence db
  /\ settings db' = settings db.
Proof.
  cbv zeta. split; [reflexivity|]. split; [|split; [|split; [|split; reflexivity]]].
  - intros r. cbn [delete_appointment snd appointments]. rewrite filter_In.
    destruct (Z.eqb_spec (id r) i); cbn; intuition congruence.
  - apply filter_one_less; [apply Hkeys|assumption].
  - exact (keys_in_order_handle (fun _ => Failed) (DeleteAppointment i) db Hkeys).
Qed.

Lemma delete_removes_the_row_witness :
  keys_in_order Samples.one_row_db
  /\ (exists r, In r (appointments Samples.one_row_db) /\ id r = 1%Z)
  /\ appointments (snd (delete_appointment 1 Samples.one_row_db)) = [].
Proof.
  assert (keys_in_order Samples.one_row_db) as Hk.
  { unfold keys_in_order, max_rowid. cbn.
    repeat split; repeat constructor; cbn; lia. }
  assert (exists r, In r (appointments Samples.one_row_db) /\ id r = 1%Z) as Hp
      by (exists (Samples.at_nine 1 "2025-03-01"); split; [left|]; reflexivity).
  destruct (delete_removes_the_row 1 Samples.one_row_db Hk Hp) as (_ & _ & Hlen & _).
  split; [exact Hk|]. split; [exact Hp|].
  destruct (appointments (snd (delete_appointment 1 Samples.one_row_db)));
    [reflexivity|cbn in Hlen; lia].
Defined.

(** X4. The trigger route changes the database only when the webhook
    answered with a 2xx status, and it calls the webhook at most once.
    Whatever the webhook does: either the answer is 200, the rows of the
    id are marked sent and exactly one call was made, which the webhook
    answered with a status in 200-299; or the answer is one of 404, 400,
    502, 504, 500 and the database is as before. A call, when one is
    made, goes to the configured URL with the stored row of that id. *)
Theorem trigger_changes_only_on_success
    (net : Call -> FetchOutcome) (i : Z) (db : DB) :
  let resp := fst (fst (trigger_reminder net i db)) in
  let db' := snd (fst (trigger_reminder net i db)) in
  let calls := snd (trigger_reminder net i db) in
  ((resp = json Success /\ db' = update_sent i db
    /\ exists call st, calls = [call] /\ net call = Responded st /\ ok st = true)
   \/ (In (code resp) [404; 400; 502; 504; 500]%nat /\ db' = db))
  /\ (length calls <= 1)%nat
  /\ (forall url row, In (url, row) calls ->
        In row (appointments db) /\ id row = i
        /\ settings db !! "n8n_webhook_url" = Some url /\ url <> EmptyString).
Proof.
  cbv zeta. unfold trigger_reminder.
  assert (forall c : nat, In c [404; 400; 502; 504; 500]%nat ->
            forall d : DB, In c [404; 400; 502; 504; 500]%nat /\ d = d) as Hcode by auto.
  destruct (find _ _) as [r|] eqn:Hfind.
  - apply find_some in Hfind as [Hin Hid]. apply Z.eqb_eq in Hid.
    destruct (settings db !! _) as [[|c url]|] eqn:Hurl; cbn [fst snd].
    + split; [right; apply Hcode; cbn; auto|]. split; [cbn; lia|]. intros ? ? [].
    + assert (forall u row, In (u, row) [(String c url, r)] ->
                In row (appointments db) /\ id row = i
                /\ Some (String c url) = Some u /\ u <> EmptyString) as Hcall.
      { intros u row [[= <- <-]|[]]. repeat split; try assumption. discriminate. }
      destruct (net _) as [st| |] eqn:Hnet; [destruct (ok st) eqn:Hok| |];
        cbn [fst snd]; (split; [|split; [cbn; lia|exact Hcall]]).
      * left. split; [reflexivity|]. split; [reflexivity|].
        exists (String c url, r), st. auto.
      * right. apply Hcode. cbn. auto.
      * right. apply Hcode. cbn. auto.
      * right. apply Hcode. cbn. auto 6.
    + split; [right; apply Hcode; cbn; auto|]. split; [cbn; lia|]. intros ? ? [].
  - cbn [fst snd]. split; [right; apply Hcode; cbn; auto|]. split; [cbn; lia|].
    intros ? ? [].
Qed.

(** X5. A dispatch that gets no answer leaves everything as it was. When
    the row exists and a URL is set, a call that is aborted by the
    15 second timer is answered 504 "Request to n8n timed out", and a
    call that fails otherwise 500 "Failed to connect to n8n"; in both
    cases the database is unchanged and one call was made. *)
Theorem trigger_unanswered
    (net : Call -> FetchOutcome) (i : Z) (db : DB) (url : string)
    (Hrow : exists r, In r (appointments db) /\ id r = i)
    (Hsetting : settings db !! "n8n_webhook_url" = Some url)
    (Hset : url <> EmptyString)
    (Hunanswered : forall row st, net (url, row) <> Responded st) :
  exists row,
    In row (appointments db) /\ id row = i
    /\ ((net (url, row) = Aborted
         /\ trigger_reminder net i db = (fail 504 N8nTimedOut, db, [(url, row)]))
        \/ (net (url, row) = Failed
            /\ trigger_reminder net i db = (fail 500 N8nConnectFailed, db, [(url, row)]))).
Proof.
  destruct (find_present id i (appointments db) Hrow) as (r & Hfind & Hr & Hid).
  exists r. repeat split; try assumption.
  unfold trigger_reminder. rewrite Hfind, Hsetting.
  destruct url as [|c url]; [contradiction|].
  specialize (Hunanswered r).
  destruct (net _) as [st| |]; [now destruct (Hunanswered st)|left|right]; auto.
Qed.

Lemma trigger_unanswered_witness :
  let net := fun _ : Call => Aborted in
  (exists r, In r (appointments Samples.one_row_db) /\ id r = 1%Z)
  /\ settings Samples.one_row_db !! "n8n_webhook_url"
     = Some "https://n8n.example/webhook"%string
  /\ "https://n8n.example/webhook"%string <> EmptyString
  /\ (forall row st, net ("https://n8n.example/webhook"%string, row) <> Responded st)
  /\ fst (trigger_reminder net 1 Samples.one_row_db)
     = (fail 504 N8nTimedOut, Samples.one_row_db).
Proof.
  cbv zeta.
  assert (exists r, In r (appointments Samples.one_row_db) /\ id r = 1%Z) as Hp
      by (exists (Samples.at_nine 1 "2025-03-01"); split; [left|]; reflexivity).
  destruct (trigger_unanswered (fun _ => Aborted) 1 Samples.one_row_db
              "https://n8n.example/webhook" Hp eq_refl ltac:(discriminate)
              ltac:(discriminate))
    as (row & _ & _ & [[_ H]|[Hf _]]); [|discriminate].
  split; [exact Hp|]. split; [reflexivity|]. split; [discriminate|].
  split; [discriminate|]. now rewrite H.
Defined.

(** X6. The webhook setting is read back as written, and decides the
    dispatch. After [POST /api/settings] with a URL, [GET /api/settings]
    returns that URL under n8n_webhook_url; a later write replaces it;
    appointments and sequence are untouched. With a non-empty URL a
    dispatch for a present id calls exactly that URL; with the empty URL
    it is answered 400 and calls nothing. *)
Theorem settings_written_then_used
    (net : Call -> FetchOutcome) (url url' : string) (i : Z) (db : DB)
    (Hrow : exists r, In r (appointments db) /\ id r = i) :
  let db1 := snd (post_settings url db) in
  fst (post_settings url db) = json Success
  /\ (exists m, fst (get_settings db1) = json (Settings m)
               /\ m !! "n8n_webhook_url" = Some url)
  /\ appointments db1 = appointments db
  /\ sqlite_sequence db1 = sqlite_sequence db
  /\ snd (post_settings url' db1) = snd (post_settings url' db)
  /\ (url <> EmptyString ->
      exists row, snd (trigger_reminder net i db1) = [(url, row)] /\ id row = i)
  /\ (url = EmptyString ->
      trigger_reminder net i db1 = (fail 400 WebhookNotConfigured, db1, [])).
Proof.
  cbv zeta. split; [reflexivity|]. split.
  { eexists. split; [reflexivity|]. cbn. apply lookup_insert_eq. }
  split; [reflexivity|]. split; [reflexivity|]. split.
  { unfold post_settings. cbn. f_equal. apply insert_insert_eq. }
  destruct (find_present id i (appointments db) Hrow) as (r & Hfind & Hr & Hid).
  split.
  - intros Hne. exists r. split; [|assumption].
    unfold trigger_reminder. cbn [post_settings snd appointments settings].
    rewrite Hfind, lookup_insert_eq. destruct url as [|c url]; [contradiction|].
    destruct (net _) as [st| |]; [destruct (ok st)| |]; reflexivity.
  - intros ->. unfold trigger_reminder. cbn [post_settings snd appointments settings].
    now rewrite Hfind, lookup_insert_eq.
Qed.

Lemma settings_written_then_used_witness :
  (exists r, In r (appointments Samples.one_row_db) /\ id r = 1%Z)
  /\ trigger_reminder (fun _ => Responded 200) 1
       (snd (post_settings EmptyString Samples.one_row_db))
     = (fail 400 WebhookNotConfigured,
        snd (post_settings EmptyString Samples.one_row_db), []).
Proof.
  assert (exists r, In r (appointments Samples.one_row_db) /\ id r = 1%Z) as Hp
      by (exists (Samples.at_nine 1 "2025-03-01"); split; [left|]; reflexivity).
  destruct (settings_written_then_used (fun _ => Responded 200) EmptyString EmptyString 1
              Samples.one_row_db Hp) as (_ & _ & _ & _ & _ & _ & H).
  split; [exact Hp|]. exact (H eq_refl).
Defined.

(** X7. A created appointment is listed, at its place. The listing that
    follows a creation is a rearrangement of the old rows and the new
    one, in ascending order of date and time; the new row carries the
    fields given, status pending, and the id the creation answered.
    The new id is taken to be a number that JavaScript holds exactly,
    at most 2^53 in absolute value. *)
Theorem created_row_is_listed
    (stamp name phone date time : string) (db : DB)
    (Hsafe : (- max_safe <= largest_rowid db + 1 <= max_safe)%Z) :
  let req := {| new_client_name := Some name; new_phone_number := Some phone;
                new_appointment_date := Some date; new_appointment_time := Some time |} in
  let row := {| id := largest_rowid db + 1; client_name := name; phone_number := phone;
                appointment_date := date; appointment_time := time;
                status := pending; created_at := stamp |} in
  fst (create_appointment stamp req db) = json (Inserted (id row))
  /\ exists rows,
       fst (list_appointments (snd (create_appointment stamp req db)))
       = json (Appointments rows)
       /\ Permutation (row :: appointments db) rows
       /\ In row rows
       /\ StronglySorted date_time_le rows.
Proof.
  cbv zeta.
  assert (largest_rowid db < max_rowid)%Z as Hroom
      by (unfold max_safe, max_rowid in *; lia).
  destruct (create_appends stamp name phone date time db Hroom) as [Hc _].
  cbv zeta in Hc. rewrite Hc. cbn [fst snd id].
  rewrite (to_number_exact _ Hsafe). split; [reflexivity|].
  match goal with
  | |- context [list_appointments ?d] =>
      destruct (list_appointments_sorted d) as (rows & Hl & Hp & Hs)
  end.
  exists rows. rewrite Hl. cbn [fst appointments] in *. split; [reflexivity|].
  assert (Permutation
            ({| id := largest_rowid db + 1; client_name := name; phone_number := phone;
                appointment_date := date; appointment_time := time;
                status := pending; created_at := stamp |} :: appointments db) rows) as Hp'.
  { etransitivity; [|exact Hp]. apply Permutation_cons_append. }
  split; [exact Hp'|]. split; [|exact Hs].
  eapply Permutation_in; [exact Hp'|]. now left.
Qed.

Lemma created_row_is_listed_witness :
  (- max_safe <= largest_rowid Samples.one_row_db + 1 <= max_safe)%Z
  /\ fst (create_appointment "2025-02-02 08:00:00"
            {| new_client_name := Some "Bea"%string;
               new_phone_number := Some "+1666"%string;
               new_appointment_date := Some "2025-02-20"%string;
               new_appointment_time := Some "10:30"%string |}
            Samples.one_row_db)
     = json (Inserted 2).
Proof.
  assert (- max_safe <= largest_rowid Samples.one_row_db + 1 <= max_safe)%Z as Hsafe
      by (split; discriminate).
  split; [exact Hsafe|].
  exact (proj1 (created_row_is_listed "2025-02-02 08:00:00" "Bea" "+1666" "2025-02-20"
                  "10:30" Samples.one_row_db Hsafe)).
Defined.

Lemma sequence_le_largest (db : DB) : (sqlite_sequence db <= largest_rowid db)%Z.
Proof.
  unfold largest_rowid. induction (appointments db) as [|r rows IH]; simpl; lia.
Qed.

(** X27. A creation changes the table only when it succeeds, and then
    only by appending. Whatever the body of the request: either the
    table is the old one followed by one row with a new id and status
    pending, the id is above every id in the table and above the
    recorded sequence value, which becomes the id, and the answer
    carries the id as a JavaScript number, which is the id itself when
    it is at most 2^53 in absolute value; or the answer is 500 and the
    database is as before. The settings are never touched. *)
Theorem create_changes_table_only_on_success
    (stamp : string) (req : NewAppointment) (db : DB) :
  let resp := fst (create_appointment stamp req db) in
  let db' := snd (create_appointment stamp req db) in
  settings db' = settings db
  /\ ((exists row,
         resp = json (Inserted (to_number (id row)))
         /\ ((- max_safe <= id row <= max_safe)%Z -> resp = json (Inserted (id row)))
         /\ appointments db' = appointments db ++ [row]
         /\ status row = pending /\ created_at row = stamp
         /\ new_client_name req = Some (client_name row)
         /\ new_phone_number req = Some (phone_number row)
         /\ new_appointment_date req = Some (appointment_date row)
         /\ new_appointment_time req = Some (appointment_time row)
         /\ (forall r, In r (appointments db) -> id r < id row)%Z
         /\ (sqlite_sequence db < id row)%Z
         /\ sqlite_sequence db' = id row)
      \/ (resp = fail 500 Uncaught /\ db' = db)).
Proof.
  cbv zeta. unfold create_appointment.
  destruct (new_client_name req) as [name|]; [|split; [reflexivity|now right]].
  destruct (new_phone_number req) as [phone|]; [|split; [reflexivity|now right]].
  destruct (new_appointment_date req) as [date|]; [|split; [reflexivity|now right]].
  destruct (new_appointment_time req) as [time|]; [|split; [reflexivity|now right]].
  destruct (largest_rowid db =? max_rowid)%Z; [split; [reflexivity|now right]|].
  cbn [fst snd settings appointments sqlite_sequence].
  split; [reflexivity|]. left.
  exists {| id := largest_rowid db + 1; client_name := name; phone_number := phone;
            appointment_date := date; appointment_time := time;
            status := pending; created_at := stamp |}.
  cbn [id status created_at client_name phone_number appointment_date appointment_time].
  split; [reflexivity|]. split; [intros Hsafe; now rewrite (to_number_exact _ Hsafe)|].
  repeat split.
  - intros r Hr. pose proof (largest_rowid_bound db r Hr). lia.
  - pose proof (sequence_le_largest db). lia.
Qed.
End ServerMore.

(** * Further properties of the storage services *)
Section StorageMore.
Import JS Client Page.

Lemma settings_of_to_json (s : AppSettings) : of_json (to_json s) = Some s.
Proof.
  destruct s as [url use tok rep pth br].
  cbn [of_json to_json settings_data n8n_webhook_url use_github github_token
       github_repo github_path github_branch].
  change (get (js "n8n_webhook_url") _) with (Some (JString url)).
  change (get (js "use_github") _) with (Some (JBool use)).
  change (get (js "github_token") _) with (Some (JString tok)).
  change (get (js "github_repo") _) with (Some (JString rep)).
  change (get (js "github_path") _) with (Some (JString pth)).
  change (get (js "github_branch") _) with (Some (JString br)).
  reflexivity.
Qed.

Lemma serialize_truthy (gap indent : jsstring) (v : json) :
  truthy (serialize gap indent v) = true.
Proof. destruct (serialize_opens gap indent v) as (c & t & -> & _). reflexivity. Qed.

Lemma load_stored {T} `{Data T} (key : jsstring) (v d : T) (w : World) :
  of_json (to_json v) = Some v ->
  localStorage w !! key = Some (stringify (to_json v)) ->
  load key d w = (Normal v, w).
Proof.
  intros Hv Hk. unfold load, bind, getItem, read. cbn [fst snd]. rewrite Hk.
  unfold stringify. rewrite serialize_truthy. cbn [negb].
  unfold try_catch, JSON_parse, bind, or_throw.
  fold (stringify (to_json v)). rewrite parse_stringify. cbn [ret]. now rewrite Hv.
Qed.

(** X8. What [LocalStorageService.save] writes, [load] reads back. When
    the local store takes the write, a save does not throw and, for
    settings and for record sets, under any key, a load that follows
    returns the saved value and not the default. The save touches no
    other key and nothing but the local store. *)
Theorem save_then_load
    (key : jsstring) (s d : AppSettings) (l dl : list Appointment) (w : World)
    (Haccepted : accepted w = true) :
  load key d (snd (save key s w)) = (Normal s, snd (save key s w))
  /\ load key dl (snd (save key l w)) = (Normal l, snd (save key l w))
  /\ (forall key', key' <> key ->
        localStorage (snd (save key s w)) !! key' = localStorage w !! key')
  /\ fst (save key s w) = Normal tt
  /\ app (snd (save key s w)) = app w
  /\ github (snd (save key s w)) = github w
  /\ trace (snd (save key s w)) = trace w ++ [SetItem key (stringify (to_json s))].
Proof.
  rewrite (save_world key s w), (save_world key l w). cbv zeta. rewrite Haccepted.
  cbn [fst snd localStorage log with_localStorage with_writes app github trace].
  split; [|split; [|split]].
  - apply load_stored; [apply settings_of_to_json|]. apply lookup_insert_eq.
  - apply load_stored; [apply appointments_of_to_json|]. apply lookup_insert_eq.
  - intros key' Hne. now apply lookup_insert_ne.
  - repeat split.
Qed.

Lemma save_then_load_witness :
  let w := Samples.page Samples.local_settings [] [] [] in
  accepted w = true
  /\ fst (load remindly_settings DEFAULT_SETTINGS
            (snd (save remindly_settings Samples.remote_settings w)))
     = Normal Samples.remote_settings.
Proof.
  cbv zeta. split; [reflexivity|].
  destruct (save_then_load remindly_settings Samples.remote_settings DEFAULT_SETTINGS
              [] [] (Samples.page Samples.local_settings [] [] []) eq_refl) as [H _].
  now rewrite H.
Defined.


Lemma calm_next (w : World) : calm w -> still (next_turn w).
Proof.
  unfold calm, next_turn. destruct (turns w) as [|t ts]; intros H.
  - split; reflexivity.
  - now inversion H.
Qed.

Lemma calm_tail (w w' : World) : calm w -> turns w' = tl (turns w) -> calm w'.
Proof.
  unfold calm. intros H ->. destruct (turns w); [constructor|now inversion H].
Qed.

Lemma getFile_world (config : GitHubConfig) (w : World) :
  snd (getFile config w)
  = log (Get (location config) (token config))
        (with_github (others (next_turn w) (github w)) (tl (turns w)) w).
Proof.
  unfold getFile, bind, fetch_get, request. fold (next_turn w).
  destruct (fault _) as [[|resp]|]; [reflexivity| |].
  - destruct (Http.status resp =? 404)%nat; [reflexivity|].
    destruct (negb (ok (Http.status resp))); [reflexivity|].
    unfold response_json, or_throw. now destruct (Http.body resp).
  - unfold api_get. now destruct (_ !! _).
Qed.

Lemma getFile_served (config : GitHubConfig) (w : World) :
  fault (next_turn w) = None ->
  fst (getFile config w)
  = Normal (match others (next_turn w) (github w) !! location config with
            | Some f => Some {| content := Some (wrap 60 (file_content f));
                                sha := Some (file_sha f); message := None |}
            | None => None
            end).
Proof.
  intros Hf. unfold getFile, bind, fetch_get, request. fold (next_turn w).
  rewrite Hf. unfold api_get. now destruct (_ !! _).
Qed.


Lemma saveData_calm (config : GitHubConfig) (l : list Appointment) (w : World)
    (text : jsstring) :
  calm w -> encode l = Some text ->
  (forall f, github w !! location config = Some f -> truthy (file_sha f) = true) ->
  exists w',
    saveData config l w = (Normal tt, w')
    /\ github w' = <[location config :=
                       {| file_content := text; file_sha := blob_sha w text |}]> (github w)
    /\ calm w'
    /\ app w' = app w /\ localStorage w' = localStorage w
    /\ webhook w' = webhook w /\ blob_sha w' = blob_sha w
    /\ exists b, trace w' = trace w ++ [Get (location config) (token config);
                                        Put (location config) (token config) b].
Proof.
  intros Hcalm Henc Hsha. unfold encode in Henc.
  destruct (calm_next w Hcalm) as [Hf Ho].
  pose proof (getFile_world config w) as Hw.
  pose proof (getFile_served config w Hf) as Hr.
  rewrite Ho in Hw, Hr.
  unfold saveData, bind. destruct (getFile config w) as [res w1].
  cbn [fst snd] in Hw, Hr. subst res w1. rewrite Henc. cbn [or_throw ret].
  set (w1 := log _ _).
  assert (calm w1) as Hcalm1 by (apply (calm_tail w); [assumption|reflexivity]).
  destruct (calm_next w1 Hcalm1) as [Hf1 Ho1].
  unfold fetch_put, request. fold (next_turn w1). rewrite Hf1, Ho1.
  assert (github w1 = github w) as Hg by reflexivity. rewrite Hg.
  assert (blob_sha w1 = blob_sha w) as Hb by reflexivity. rewrite Hb.
  unfold api_put. cbn [put_sha put_content].
  destruct (github w !! location config) as [f|] eqn:Hfile.
  - cbn [sha]. rewrite (Hsha f eq_refl).
    destruct (decide (file_sha f = file_sha f)) as [_|Hne]; [|contradiction].
    eexists. split; [reflexivity|].
    cbn [github app localStorage webhook blob_sha trace log with_github].
    repeat split.
    + apply (calm_tail w1); [assumption|reflexivity].
    + eexists. subst w1. cbn [trace log with_github]. now rewrite <- app_assoc.
  - eexists. split; [reflexivity|].
    cbn [github app localStorage webhook blob_sha trace log with_github].
    repeat split.
    + apply (calm_tail w1); [assumption|reflexivity].
    + eexists. subst w1. cbn [trace log with_github]. now rewrite <- app_assoc.
Qed.

Lemma loadData_calm (config : GitHubConfig) (v d : list Appointment) (w : World)
    (f : GitHubFile) :
  calm w -> github w !! location config = Some f ->
  decode (wrap 60 (file_content f)) = Some v ->
  loadData config d w
  = (Normal v, log (Get (location config) (token config))
                   (with_github (github w) (tl (turns w)) w)).
Proof.
  intros Hcalm Hfile Hdec. destruct (calm_next w Hcalm) as [Hf Ho].
  pose proof (getFile_world config w) as Hw.
  pose proof (getFile_served config w Hf) as Hr.
  rewrite Ho in Hw, Hr. rewrite Hfile in Hr.
  unfold loadData, try_catch, bind. destruct (getFile config w) as [res w1].
  cbn [fst snd] in Hw, Hr. subst res w1.
  cbn [content to_String]. unfold decode in Hdec.
  destruct (atob _) as [text|]; [|discriminate].
  cbn [or_throw ret]. unfold JSON_parse, bind.
  destruct (parse text) as [j|]; [|discriminate].
  cbn [or_throw ret]. now rewrite Hdec.
Qed.

(** X11. What [saveData] writes, [loadData] reads back. When the service
    answers and nobody else writes, a record set that has an encoding is
    saved without error, with one GET and one PUT, the remote file then
    holds that encoding under a new version token, other remote files
    are untouched, and a [loadData] that follows returns the set. The
    file that was there before, if any, must carry a version token. *)
Theorem saveData_then_loadData
    (config : GitHubConfig) (l d : list Appointment) (w : World) (text : jsstring)
    (Hcalm : calm w)
    (Hcontent : encode l = Some text)
    (Hsha : forall f, github w !! location config = Some f -> truthy (file_sha f) = true) :
  exists w1,
    saveData config l w = (Normal tt, w1)
    /\ github w1 !! location config
       = Some {| file_content := text; file_sha := blob_sha w text |}
    /\ (forall loc, loc <> location config -> github w1 !! loc = github w !! loc)
    /\ (exists b, trace w1 = trace w ++ [Get (location config) (token config);
                                         Put (location config) (token config) b])
    /\ fst (loadData config d w1) = Normal l.
Proof.
  destruct (saveData_calm config l w text Hcalm Hcontent Hsha)
    as (w1 & Hs & Hg & Hc1 & _ & _ & _ & _ & Ht).
  exists w1. split; [exact Hs|].
  assert (github w1 !! location config
          = Some {| file_content := text; file_sha := blob_sha w text |}) as Hfile
      by (rewrite Hg; apply lookup_insert_eq).
  split; [exact Hfile|]. split.
  { intros loc Hne. rewrite Hg. now apply lookup_insert_ne. }
  split; [exact Ht|].
  rewrite (loadData_calm config l d w1 _ Hc1 Hfile); [reflexivity|].
  now apply decode_encode.
Qed.

Lemma saveData_then_loadData_witness :
  let config := GitHubStorage Samples.remote_settings in
  let w := Samples.page Samples.remote_settings [Samples.ana] [] [] in
  calm w
  /\ (exists text, encode [Samples.ana] = Some text)
  /\ (forall f, github w !! location config = Some f -> truthy (file_sha f) = true)
  /\ fst (saveData config [Samples.ana] w) = Normal tt
  /\ fst (loadData config ([] : list Appointment) (snd (saveData config [Samples.ana] w)))
     = Normal [Samples.ana].
Proof.
  cbv zeta.
  assert (calm (Samples.page Samples.remote_settings [Samples.ana] [] [])) as Hcalm
      by constructor.
  assert (exists text, encode [Samples.ana] = Some text) as [text Htext]
      by (eexists; vm_compute; reflexivity).
  assert (forall f, github (Samples.page Samples.remote_settings [Samples.ana] [] [])
                    !! location (GitHubStorage Samples.remote_settings) = Some f
                    -> truthy (file_sha f) = true) as Hsha.
  { intros f Hf. cbn [github Samples.page] in Hf. rewrite lookup_empty in Hf.
    discriminate. }
  destruct (saveData_then_loadData (GitHubStorage Samples.remote_settings)
              [Samples.ana] [] _ text Hcalm Htext Hsha) as (w1 & Hs & _ & _ & _ & Hl).
  split; [exact Hcalm|]. split; [exists text; exact Htext|]. split; [exact Hsha|].
  rewrite Hs. split; [reflexivity|exact Hl].
Defined.

Lemma next_after (w w' : World) :
  turns w' = tl (turns w) -> next_turn w' = nth 1 (turns w) quiet.
Proof.
  unfold next_turn. intros ->. destruct (turns w) as [|t [|t' ts]]; reflexivity.
Qed.

(** X12. [saveData] stops at a failed GET. When the request for the
    current file is rejected, or answered with a status that is neither
    404 nor 2xx, [saveData] throws, and the GET is the only request it
    made: nothing is written. *)
Theorem saveData_stops_at_failed_get {T} `{Data T}
    (config : GitHubConfig) (data : T) (w : World)
    (Hget : fault (next_turn w) = Some Unreachable
            \/ exists r, fault (next_turn w) = Some (Answer r)
                         /\ Http.status r <> 404%nat /\ ok (Http.status r) = false) :
  exists e,
    fst (saveData config data w) = Throw e
    /\ trace (snd (saveData config data w))
       = trace w ++ [Get (location config) (token config)]
    /\ github (snd (saveData config data w)) = others (next_turn w) (github w).
Proof.
  unfold saveData, bind, getFile, bind, fetch_get, request. fold (next_turn w).
  destruct Hget as [Hf|(r & Hf & H404 & Hok)]; rewrite Hf.
  - eexists. repeat split.
  - apply Nat.eqb_neq in H404. rewrite H404, Hok. cbn [negb throw].
    eexists. repeat split.
Qed.

Lemma saveData_stops_at_failed_get_witness :
  let config := GitHubStorage Samples.remote_settings in
  let w := Samples.page Samples.remote_settings [] [Samples.offline] [] in
  fault (next_turn w) = Some Unreachable
  /\ fst (saveData config [Samples.ana] w) = Throw FailedToFetch
  /\ trace (snd (saveData config [Samples.ana] w))
     = trace w ++ [Get (location config) (token config)].
Proof.
  cbv zeta.
  assert (fault (next_turn (Samples.page Samples.remote_settings [] [Samples.offline] []))
          = Some Unreachable) as Hf by reflexivity.
  destruct (saveData_stops_at_failed_get (GitHubStorage Samples.remote_settings)
              [Samples.ana] _ (or_introl Hf)) as (e & He & Ht & _).
  split; [exact Hf|]. split; [reflexivity|exact Ht].
Defined.

(** X13. A [saveData] that returns has stored the data. If [saveData]
    completes without throwing and its PUT reached the file service,
    the data has an encoding and the remote file holds exactly that
    encoding, under the version token of that content. *)
Theorem saveData_returns_means_stored {T} `{Data T}
    (config : GitHubConfig) (data : T) (w : World)
    (Hdone : fst (saveData config data w) = Normal tt)
    (Hput : fault (nth 1 (turns w) quiet) = None) :
  exists text,
    encode data = Some text
    /\ github (snd (saveData config data w)) !! location config
       = Some {| file_content := text; file_sha := blob_sha w text |}.
Proof.
  revert Hdone. unfold saveData, bind, encode.
  pose proof (getFile_world config w) as Hw.
  destruct (getFile config w) as [[file|e] w1]; [|discriminate].
  cbn [snd] in Hw.
  destruct (btoa _) as [text|]; [|discriminate]. cbn [or_throw ret].
  assert (next_turn w1 = nth 1 (turns w) quiet) as Hn
      by (apply next_after; now subst w1).
  assert (blob_sha w1 = blob_sha w) as Hb by now subst w1.
  unfold fetch_put, request. fold (next_turn w1). rewrite Hn, Hput, Hb.
  unfold api_put. cbn [put_content put_sha].
  set (remote := others _ (github w1)).
  intros Hdone. exists text. split; [reflexivity|]. revert Hdone.
  destruct (remote !! location config) as [f|];
    destruct (match _ with Some _ => _ | None => None end) as [s|];
    try destruct (decide (s = file_sha f));
    cbn [negb ok Http.status conflict rejected response_json or_throw Http.body
         bind throw fst snd github log with_github];
    try discriminate; intros _; apply lookup_insert_eq.
Qed.

Lemma saveData_returns_means_stored_witness :
  let config := GitHubStorage Samples.remote_settings in
  let w := Samples.page Samples.remote_settings [] [] [] in
  fst (saveData config [Samples.ana] w) = Normal tt
  /\ fault (nth 1 (turns w) quiet) = None
  /\ exists text,
       encode [Samples.ana] = Some text
       /\ github (snd (saveData config [Samples.ana] w)) !! location config
          = Some {| file_content := text; file_sha := blob_sha w text |}.
Proof.
  cbv zeta.
  assert (fst (saveData (GitHubStorage Samples.remote_settings) [Samples.ana]
                 (Samples.page Samples.remote_settings [] [] [])) = Normal tt) as Hd
      by (vm_compute; reflexivity).
  split; [exact Hd|]. split; [reflexivity|].
  exact (saveData_returns_means_stored _ _ _ Hd eq_refl).
Defined.

(** X14. A PUT that is answered with an error makes [saveData] throw. When
    the file service answers the GET and the PUT is answered with a
    status outside 2xx and a JSON body, [saveData] throws the error
    [GitHub Save Error: ] followed by the message of the body, or by the
    status text when the message is missing or empty. *)
Theorem saveData_reports_failed_put {T} `{Data T}
    (config : GitHubConfig) (data : T) (w : World) (text : jsstring)
    (p : Response) (err : ApiJson)
    (Hget : fault (next_turn w) = None)
    (Hcontent : encode data = Some text)
    (Hput : fault (nth 1 (turns w) quiet) = Some (Answer p))
    (Hstatus : ok (Http.status p) = false)
    (Hbody : Http.body p = Some err) :
  fst (saveData config data w)
  = Throw (Error (js "GitHub Save Error: " ++
                  match message err with
                  | Some m => if truthy m then m else Http.statusText p
                  | None => Http.statusText p
                  end)).
Proof.
  unfold saveData, bind. unfold encode in Hcontent.
  pose proof (getFile_world config w) as Hw.
  pose proof (getFile_served config w Hget) as Hr.
  destruct (getFile config w) as [res w1]. cbn [fst snd] in Hw, Hr. subst res.
  rewrite Hcontent. cbn [or_throw ret].
  assert (next_turn w1 = nth 1 (turns w) quiet) as Hn
      by (apply next_after; now subst w1).
  unfold fetch_put, request. fold (next_turn w1). rewrite Hn, Hput.
  rewrite Hstatus. cbn [negb]. unfold response_json. rewrite Hbody.
  reflexivity.
Qed.

Lemma saveData_reports_failed_put_witness :
  let config := GitHubStorage Samples.remote_settings in
  let busy := {| others := fun r => r;
                 fault := Some (Answer (rejected 503 "Service Unavailable" [])) |} in
  let w := Samples.page Samples.remote_settings [] [quiet; busy] [] in
  fault (next_turn w) = None
  /\ fault (nth 1 (turns w) quiet)
     = Some (Answer (rejected 503 "Service Unavailable" []))
  /\ fst (saveData config [Samples.ana] w)
     = Throw (Error (js "GitHub Save Error: Service Unavailable")).
Proof.
  cbv zeta. split; [reflexivity|]. split; [reflexivity|].
  assert (exists text, encode [Samples.ana] = Some text) as [text Htext]
      by (eexists; vm_compute; reflexivity).
  exact (saveData_reports_failed_put (GitHubStorage Samples.remote_settings)
           [Samples.ana]
           (Samples.page Samples.remote_settings []
              [quiet; {| others := fun r => r;
                         fault := Some (Answer (rejected 503 "Service Unavailable" [])) |}]
              [])
           text (rejected 503 "Service Unavailable" []) _
           eq_refl Htext eq_refl eq_refl eq_refl).
Defined.
End StorageMore.

(** * Further properties of the page *)
Section PageMore.
Import JS Client Page.

Lemma load_returns {T} `{Data T} (key : jsstring) (d : T) (w : World) :
  exists v, load key d w = (Normal v, w).
Proof.
  unfold load, bind, getItem, read. cbn [fst snd].
  destruct (localStorage w !! key) as [text|]; [|now exists d].
  destruct (negb (truthy text)); [now exists d|].
  unfold try_catch, JSON_parse, bind, or_throw.
  destruct (parse text) as [j|]; [|now exists d].
  cbn [ret]. destruct (of_json j) as [v|]; [now exists v|now exists d].
Qed.

Lemma load_absent {T} `{Data T} (key : jsstring) (d : T) (w : World) :
  localStorage w !! key = None -> load key d w = (Normal d, w).
Proof.
  intros Hk. unfold load, bind, getItem, read. cbn [fst snd]. now rewrite Hk.
Qed.

Lemma loadData_returns {T} `{Data T} (config : GitHubConfig) (d : T) (w : World) :
  exists v, fst (loadData config d w) = Normal v.
Proof.
  unfold loadData, try_catch.
  match goal with |- context [bind ?m ?k w] => destruct (bind m k w) as [[v|e] w1] end.
  - eauto.
  - unfold bind, console_error, modify, ret. eauto.
Qed.

Lemma loadData_found {T} `{Data T} (config : GitHubConfig) (v d : T) (w : World)
    (f : GitHubFile) :
  fault (next_turn w) = None ->
  others (next_turn w) (github w) !! location config = Some f ->
  decode (wrap 60 (file_content f)) = Some v ->
  loadData config d w
  = (Normal v, log (Get (location config) (token config))
                   (with_github (others (next_turn w) (github w)) (tl (turns w)) w)).
Proof.
  intros Hf Hfile Hdec.
  pose proof (getFile_world config w) as Hw.
  pose proof (getFile_served config w Hf) as Hr. rewrite Hfile in Hr.
  unfold loadData, try_catch, bind. destruct (getFile config w) as [res w1].
  cbn [fst snd] in Hw, Hr. subst res w1.
  cbn [content to_String]. unfold decode in Hdec.
  destruct (atob _) as [text|]; [|discriminate].
  cbn [or_throw ret]. unfold JSON_parse, bind.
  destruct (parse text) as [j|]; [|discriminate].
  cbn [or_throw ret]. now rewrite Hdec.
Qed.

Lemma loadData_missing {T} `{Data T} (config : GitHubConfig) (d : T) (w : World) :
  fault (next_turn w) = None ->
  others (next_turn w) (github w) !! location config = None ->
  loadData config d w
  = (Normal d, log (Get (location config) (token config))
                   (with_github (others (next_turn w) (github w)) (tl (turns w)) w)).
Proof.
  intros Hf Hfile.
  pose proof (getFile_world config w) as Hw.
  pose proof (getFile_served config w Hf) as Hr. rewrite Hfile in Hr.
  unfold loadData, try_catch, bind. destruct (getFile config w) as [res w1].
  cbn [fst snd] in Hw, Hr. now subst res w1.
Qed.

(** The page state with the record set replaced. *)
Lemma loadInitialData_local (s : AppSettings) (w : World) :
  remote_enabled s = false ->
  exists v,
    load remindly_appointments ([] : list Appointment) w = (Normal v, w)
    /\ loadInitialData s w
       = (Normal tt, with_app (fun st => {| appointments := v; settings := settings st;
                                            newAppt := newAppt st |}) w).
Proof.
  intros Hs. destruct (load_returns remindly_appointments ([] : list Appointment) w)
    as [v Hv].
  exists v. split; [exact Hv|].
  unfold loadInitialData, try_catch. rewrite Hs. unfold bind. rewrite Hv.
  reflexivity.
Qed.

Lemma loadInitialData_remote (s : AppSettings) (w : World) :
  remote_enabled s = true ->
  exists v w1,
    loadData (GitHubStorage s) ([] : list Appointment) w = (Normal v, w1)
    /\ loadInitialData s w
       = (Normal tt, with_app (fun st => {| appointments := v; settings := settings st;
                                            newAppt := newAppt st |}) w1).
Proof.
  intros Hs.
  destruct (loadData_returns (GitHubStorage s) ([] : list Appointment) w) as [v Hv].
  destruct (loadData (GitHubStorage s) ([] : list Appointment) w) as [res w1] eqn:Hl.
  cbn [fst] in Hv. subst res. exists v, w1. split; [reflexivity|].
  unfold loadInitialData, try_catch. rewrite Hs. unfold bind. rewrite Hl.
  reflexivity.
Qed.


(** X16. With the remote store enabled and answering, [loadInitialData]
    shows what the remote file holds: the record set its content
    decodes to, or the empty set when there is no file. The local entry
    is not brought up to date with what was loaded. *)
Theorem loadInitialData_shows_remote (s : AppSettings) (w : World)
    (Hon : remote_enabled s = true)
    (Hanswer : fault (next_turn w) = None) :
  match others (next_turn w) (github w) !! location (GitHubStorage s) with
  | Some f =>
      forall l, decode (wrap 60 (file_content f)) = Some l ->
                appointments (app (snd (loadInitialData s w))) = l
  | None => appointments (app (snd (loadInitialData s w))) = []
  end
  /\ localStorage (snd (loadInitialData s w)) = localStorage w.
Proof.
  destruct (loadInitialData_remote s w Hon) as (v & w1 & Hl & Hi).
  rewrite Hi. cbn [snd app with_app appointments localStorage]. split.
  - destruct (_ !! _) as [f|] eqn:Hfile.
    + intros l Hdec.
      rewrite (loadData_found (GitHubStorage s) l [] w f Hanswer Hfile Hdec) in Hl.
      congruence.
    + rewrite (loadData_missing (GitHubStorage s) [] w Hanswer Hfile) in Hl.
      congruence.
  - destruct (remote_only_loadData (GitHubStorage s) ([] : list Appointment) w)
      as (_ & Hls & _). now rewrite Hl in Hls.
Qed.

Lemma loadInitialData_shows_remote_witness :
  let s := Samples.remote_settings in
  let w := Samples.page s [Samples.ana] [Samples.leaves Samples.seen_file] [] in
  remote_enabled s = true
  /\ fault (next_turn w) = None
  /\ appointments (app (snd (loadInitialData s w))) = []
  /\ localStorage (snd (loadInitialData s w)) = localStorage w.
Proof.
  cbv zeta. split; [reflexivity|]. split; [reflexivity|].
  destruct (loadInitialData_shows_remote Samples.remote_settings
              (Samples.page Samples.remote_settings [Samples.ana]
                 [Samples.leaves Samples.seen_file] []) eq_refl eq_refl) as [H1 H2].
  split; [|exact H2].
  assert (others (next_turn (Samples.page Samples.remote_settings [Samples.ana]
                               [Samples.leaves Samples.seen_file] []))
                 (github (Samples.page Samples.remote_settings [Samples.ana]
                            [Samples.leaves Samples.seen_file] []))
          !! location (GitHubStorage Samples.remote_settings)
          = Some Samples.seen_file) as Hfile by apply lookup_singleton_eq.
  rewrite Hfile in H1. apply H1. vm_compute. reflexivity.
Defined.

Lemma mount_eq (w : World) :
  exists s,
    load remindly_settings DEFAULT_SETTINGS w = (Normal s, w)
    /\ mount w
       = loadInitialData s
           (with_app (fun st => {| appointments := appointments st; settings := s;
                                   newAppt := newAppt st |}) w).
Proof.
  destruct (load_returns remindly_settings DEFAULT_SETTINGS w) as [s Hs].
  exists s. split; [exact Hs|]. unfold mount, bind. rewrite Hs. reflexivity.
Qed.

Lemma keys_differ : remindly_settings <> remindly_appointments.
Proof. discriminate. Qed.

(** X17. The first run. With neither entry in the local store, the effect
    run on mount leaves the page in its initial state, with the default
    settings and no appointments, and does nothing else: no request is
    made and nothing is written, whatever the remote store holds. *)
Theorem mount_first_run (w : World)
    (Hsettings : localStorage w !! remindly_settings = None)
    (Happointments : localStorage w !! remindly_appointments = None) :
  mount (opened w) = (Normal tt, opened w).
Proof.
  destruct (mount_eq (opened w)) as (s & Hs & Hm). rewrite Hm.
  rewrite (load_absent remindly_settings DEFAULT_SETTINGS (opened w) Hsettings) in Hs.
  injection Hs as <-.
  match goal with |- loadInitialData _ ?w1 = _ =>
    destruct (loadInitialData_local DEFAULT_SETTINGS w1 eq_refl) as (v & Hv & Hi);
    rewrite (load_absent remindly_appointments ([] : list Appointment) w1 Happointments)
      in Hv
  end.
  injection Hv as <-. rewrite Hi. reflexivity.
Qed.

Lemma mount_first_run_witness :
  let w := Samples.page Samples.remote_settings [Samples.ana] [] [] in
  localStorage w !! remindly_settings = None
  /\ localStorage w !! remindly_appointments = None
  /\ app (snd (mount (opened w))) = initial
  /\ trace (snd (mount (opened w))) = [].
Proof.
  cbv zeta.
  assert (forall k, localStorage (Samples.page Samples.remote_settings [Samples.ana] [] [])
                    !! k = None) as Hk by (intros k; apply lookup_empty).
  rewrite (mount_first_run _ (Hk _) (Hk _)).
  repeat split; apply Hk.
Defined.

(** X18. With the remote store not enabled, [persistData] is the update
    of the state and one call of [setItem], and no request is made.
    When the local store takes the write, the local entry holds the
    text of the new record set; when it refuses, the error is logged
    and the local store is as before, while the page shows the new
    record set all the same. *)
Theorem persistData_local_mode (l : list Appointment) (w : World)
    (Hlocal : remote_enabled (settings (app w)) = false) :
  persistData l w
  = let called :=
      log (SetItem remindly_appointments (stringify (to_json l)))
          (with_writes (tl (writes w))
             (with_app (fun st => {| appointments := l; settings := settings st;
                                     newAppt := newAppt st |}) w)) in
    (Normal tt,
     if accepted w
     then with_localStorage
            (<[remindly_appointments := stringify (to_json l)]> (localStorage w)) called
     else log ConsoleError called).
Proof.
  unfold persistData, bind, setAppointments, modify, try_catch, read.
  cbn [fst snd].
  match goal with |- context [save ?k l ?w1] =>
    rewrite (save_world k l w1); change (accepted w1) with (accepted w) end.
  cbv zeta. destruct (accepted w).
  - cbn [app with_app with_localStorage with_writes log settings]. now rewrite Hlocal.
  - reflexivity.
Qed.

Lemma persistData_local_mode_witness :
  let w := Samples.page Samples.local_settings [] [Samples.offline] [] in
  remote_enabled (settings (app w)) = false
  /\ trace (snd (persistData [Samples.ana] w))
     = [SetItem remindly_appointments (stringify (to_json [Samples.ana]))]
  /\ turns (snd (persistData [Samples.ana] w)) = [Samples.offline]
  /\ localStorage (snd (persistData [Samples.ana] (with_writes [Refused] w))) = ∅
  /\ appointments (app (snd (persistData [Samples.ana] (with_writes [Refused] w))))
     = [Samples.ana].
Proof.
  cbv zeta. split; [reflexivity|].
  rewrite (persistData_local_mode [Samples.ana]
             (Samples.page Samples.local_settings [] [Samples.offline] []) eq_refl).
  rewrite (persistData_local_mode [Samples.ana]
             (with_writes [Refused]
                (Samples.page Samples.local_settings [] [Samples.offline] [])) eq_refl).
  repeat split.
Defined.

(** X19. A reload shows what was persisted. With the remote store not
    enabled, the settings saved in the local store and the local store
    taking the write, opening the page anew after a [persistData] shows
    the persisted record set under the same settings, without any
    request. *)
Theorem reload_restores (l : list Appointment) (w : World)
    (Hlocal : remote_enabled (settings (app w)) = false)
    (Hsaved : localStorage w !! remindly_settings
              = Some (stringify (to_json (settings (app w)))))
    (Haccepted : accepted w = true) :
  exists w',
    mount (opened (snd (persistData l w))) = (Normal tt, w')
    /\ app w' = {| appointments := l; settings := settings (app w);
                   newAppt := empty_draft |}
    /\ localStorage w' = localStorage (snd (persistData l w))
    /\ trace w' = trace (snd (persistData l w)).
Proof.
  destruct (persistData_spec l w) as (w1 & Hp & _ & _ & _ & Hls & _).
  rewrite Hp. cbn [snd]. rewrite Haccepted in Hls.
  assert (localStorage (opened w1) !! remindly_settings
          = Some (stringify (to_json (settings (app w))))) as Hs1.
  { cbn [opened localStorage with_app]. rewrite Hls.
    rewrite lookup_insert_ne; [exact Hsaved|]. intros E. now apply keys_differ. }
  assert (localStorage (opened w1) !! remindly_appointments
          = Some (stringify (to_json l))) as Ha1.
  { cbn [opened localStorage with_app]. rewrite Hls. apply lookup_insert_eq. }
  destruct (mount_eq (opened w1)) as (s & Hs & Hm). rewrite Hm.
  rewrite (load_stored remindly_settings (settings (app w)) DEFAULT_SETTINGS
             (opened w1) (settings_of_to_json _) Hs1) in Hs.
  injection Hs as <-.
  match goal with |- context [loadInitialData _ ?w2] =>
    destruct (loadInitialData_local (settings (app w)) w2 Hlocal) as (v & Hv & Hi);
    rewrite (load_after_save l w2 Ha1) in Hv
  end.
  injection Hv as <-. rewrite Hi. eexists. split; [reflexivity|].
  repeat split.
Qed.

Lemma reload_restores_witness :
  let w := with_localStorage
             {[ remindly_settings := stringify (to_json Samples.local_settings) ]}
             (Samples.page Samples.local_settings [] [] []) in
  remote_enabled (settings (app w)) = false
  /\ localStorage w !! remindly_settings
     = Some (stringify (to_json (settings (app w))))
  /\ accepted w = true
  /\ app (snd (mount (opened (snd (persistData [Samples.ana] w)))))
     = {| appointments := [Samples.ana]; settings := Samples.local_settings;
          newAppt := empty_draft |}.
Proof.
  cbv zeta. split; [reflexivity|].
  assert (localStorage
            (with_localStorage
               {[ remindly_settings := stringify (to_json Samples.local_settings) ]}
               (Samples.page Samples.local_settings [] [] [])) !! remindly_settings
          = Some (stringify (to_json Samples.local_settings))) as Hs
      by apply lookup_singleton_eq.
  split; [exact Hs|]. split; [reflexivity|].
  destruct (reload_restores [Samples.ana]
              (with_localStorage
                 {[ remindly_settings := stringify (to_json Samples.local_settings) ]}
                 (Samples.page Samples.local_settings [] [] []))
              eq_refl Hs eq_refl) as (w' & Hm & Ha & _).
  rewrite Hm. exact Ha.
Defined.

Lemma persistData_in_sync (l : list Appointment) (w : World) :
  accepted w = true -> in_sync (snd (persistData l w)).
Proof.
  intros Hacc.
  destruct (persistData_spec l w) as (w' & Hp & Ha & _ & _ & Hls & _).
  rewrite Hp. unfold in_sync. cbn [snd]. rewrite Ha, Hls, Hacc.
  apply lookup_insert_eq.
Qed.

Lemma handleAddAppointment_world (now : Z) (w : World) :
  exists w',
    persistData (appointments (app w) ++
                 [{| id := now;
                     client_name := draft_client_name (newAppt (app w));
                     phone_number := draft_phone_number (newAppt (app w));
                     appointment_date := draft_appointment_date (newAppt (app w));
                     appointment_time := draft_appointment_time (newAppt (app w));
                     status := pending |}]) w = (Normal tt, w')
    /\ handleAddAppointment now w
       = (Normal tt, with_app (fun st => {| appointments := appointments st;
                                            settings := settings st;
                                            newAppt := empty_draft |}) w').
Proof.
  match goal with |- context [persistData ?l w] =>
    destruct (persistData_spec l w) as (w' & Hp & _) end.
  exists w'. split; [exact Hp|].
  unfold handleAddAppointment, bind, read. cbn [fst snd]. rewrite Hp. reflexivity.
Qed.

Lemma remote_events_no_post (es : list Event) :
  Forall remote_event es -> List.filter is_post es = [].
Proof.
  induction 1 as [|e es He _ IH]; [reflexivity|].
  destruct e; cbn in He; try contradiction; exact IH.
Qed.

(** What [handleTrigger] does, by cases: either the webhook answered
    with success and the rest is a [persistData], or all that happened
    is the request, if any, and a message. *)
Lemma handleTrigger_cases (i : Z) (w : World) :
  (exists appt st rest,
      find (fun a => (id a =? i)%Z) (appointments (app w)) = Some appt
      /\ truthy (n8n_webhook_url (settings (app w))) = true
      /\ webhook w = Responded st :: rest /\ ok st = true
      /\ handleTrigger i w
         = persistData (map (fun a => if (id a =? i)%Z then set_sent a else a)
                            (appointments (app w)))
                       (log (Post (n8n_webhook_url (settings (app w))) appt)
                            (with_webhook rest w)))
  \/ (exists w' es,
        handleTrigger i w = (Normal tt, w')
        /\ app w' = app w /\ localStorage w' = localStorage w
        /\ github w' = github w /\ turns w' = turns w
        /\ trace w' = trace w ++ es
        /\ Nat.le (length (List.filter is_post es)) 1).
Proof.
  destruct (find (fun a => (id a =? i)%Z) (appointments (app w))) as [appt|] eqn:Hfind.
  2:{ right. rewrite (handleTrigger_not_found i w Hfind).
      eexists _, [_]. repeat split. cbn. lia. }
  destruct (truthy (n8n_webhook_url (settings (app w)))) eqn:Hurl.
  2:{ right. rewrite (handleTrigger_no_url i w Hurl).
      eexists _, [_]. repeat split. cbn. lia. }
  destruct (webhook w) as [|[st|] rest] eqn:Hwh.
  - right. unfold handleTrigger, bind, read. cbn [fst snd]. rewrite Hfind, Hurl.
    unfold try_catch, bind, fetch_post. rewrite Hwh.
    unfold console_error, alert, modify. cbn [fst snd].
    eexists _, [_; _; _]. split; [reflexivity|].
    cbn [app localStorage github turns trace log with_webhook].
    rewrite <- !app_assoc. repeat split. cbn. lia.
  - destruct (ok st) eqn:Hok.
    + left. exists appt, st, rest. repeat split; try assumption.
      apply (handleTrigger_ok i w st rest appt); assumption.
    + right. unfold handleTrigger, bind, read. cbn [fst snd]. rewrite Hfind, Hurl.
      unfold try_catch, bind, fetch_post. rewrite Hwh, Hok.
      unfold alert, modify.
      eexists _, [_; _]. split; [reflexivity|].
      cbn [app localStorage github turns trace log with_webhook].
      rewrite <- !app_assoc. repeat split. cbn. lia.
  - right. unfold handleTrigger, bind, read. cbn [fst snd]. rewrite Hfind, Hurl.
    unfold try_catch, bind, fetch_post. rewrite Hwh.
    unfold console_error, alert, modify. cbn [fst snd].
    eexists _, [_; _; _]. split; [reflexivity|].
    cbn [app localStorage github turns trace log with_webhook].
    rewrite <- !app_assoc. repeat split. cbn. lia.
Qed.

(** X20. The local entry follows the page. When the local store takes
    the next write, after [persistData], [handleAddAppointment] and
    [handleDelete] the local entry holds the text of the record set the
    page shows, whatever happened to the remote write; [handleTrigger]
    keeps it so. *)
Theorem handlers_keep_in_sync (w : World)
    (Haccepted : accepted w = true) :
  (forall l, in_sync (snd (persistData l w)))
  /\ (forall now, in_sync (snd (handleAddAppointment now w)))
  /\ (forall i, in_sync (snd (handleDelete i w)))
  /\ (forall i, in_sync w -> in_sync (snd (handleTrigger i w))).
Proof.
  split; [intros l; now apply persistData_in_sync|].
  split; [|split].
  - intros now. destruct (handleAddAppointment_world now w) as (w' & Hp & Hh).
    rewrite Hh.
    match type of Hp with persistData ?l _ = _ =>
      pose proof (persistData_in_sync l w Haccepted) as Hs end.
    rewrite Hp in Hs. exact Hs.
  - intros i. unfold handleDelete, bind, read. cbn [fst snd].
    now apply persistData_in_sync.
  - intros i Hs. destruct (handleTrigger_cases i w)
      as [(appt & st & rest & _ & _ & _ & _ & Hh)|(w' & es & Hh & Ha & Hl & _)].
    + rewrite Hh. apply persistData_in_sync. exact Haccepted.
    + rewrite Hh. unfold in_sync in *. cbn [snd]. now rewrite Ha, Hl.
Qed.

Lemma handlers_keep_in_sync_witness :
  let w := Samples.page Samples.remote_settings [Samples.ana] [Samples.offline] [] in
  accepted w = true
  /\ in_sync (snd (handleDelete 1 w))
  /\ in_sync (snd (handleAddAppointment 2 w)).
Proof.
  cbv zeta.
  destruct (handlers_keep_in_sync
              (Samples.page Samples.remote_settings [Samples.ana] [Samples.offline] [])
              eq_refl) as (_ & Hadd & Hdel & _).
  split; [reflexivity|]. split; [apply Hdel|apply Hadd].
Defined.

(** X21. [handleTrigger] never raises, sends at most one request to the
    webhook, and changes the record set only after a 2xx answer: then
    the records with the id are marked sent, and otherwise the page
    state, the local store and the remote store are as before. The
    settings and the draft are never touched. *)
Theorem handleTrigger_changes_only_on_success (i : Z) (w : World) :
  exists w' es,
    handleTrigger i w = (Normal tt, w')
    /\ trace w' = trace w ++ es
    /\ Nat.le (length (List.filter is_post es)) 1
    /\ settings (app w') = settings (app w)
    /\ newAppt (app w') = newAppt (app w)
    /\ ((exists appt st,
           find (fun a => (id a =? i)%Z) (appointments (app w)) = Some appt
           /\ truthy (n8n_webhook_url (settings (app w))) = true
           /\ hd_error (webhook w) = Some (Responded st) /\ ok st = true
           /\ In (Post (n8n_webhook_url (settings (app w))) appt) es
           /\ appointments (app w')
              = map (fun a => if (id a =? i)%Z then set_sent a else a)
                    (appointments (app w)))
        \/ (app w' = app w /\ localStorage w' = localStorage w
            /\ github w' = github w /\ turns w' = turns w)).
Proof.
  destruct (handleTrigger_cases i w)
    as [(appt & st & rest & Hfind & Hurl & Hwh & Hok & Hh)
       |(w' & es & Hh & Ha & Hl & Hg & Ht & Htr & Hposts)].
  - match type of Hh with _ = persistData ?l ?w1 =>
      destruct (persistData_spec l w1) as (w' & Hp & Ha & Hs & Hn & _ & _ & es & Htr & Hes)
    end.
    rewrite Hp in Hh. eexists w', (_ :: _ :: es). split; [exact Hh|].
    cbn [trace log with_webhook app settings newAppt appointments] in Htr, Hs, Hn, Ha.
    rewrite <- app_assoc in Htr. split; [exact Htr|]. split.
    { cbn [List.filter is_post]. rewrite (remote_events_no_post es Hes). cbn. lia. }
    split; [exact Hs|]. split; [exact Hn|]. left. exists appt, st.
    rewrite Hwh. repeat split; try assumption. now left.
  - exists w', es. split; [exact Hh|]. split; [exact Htr|]. split; [exact Hposts|].
    rewrite Ha. repeat split; auto.
Qed.

(** X22. A request to the webhook that gets no answer. When the record is
    there and the URL is set but the request is rejected, [handleTrigger]
    logs the error and shows the network message; the record keeps its
    status and nothing is stored. *)
Theorem handleTrigger_network_error (i : Z) (w : World) (appt : Appointment)
    (Hfound : find (fun a => (id a =? i)%Z) (appointments (app w)) = Some appt)
    (Hurl : truthy (n8n_webhook_url (settings (app w))) = true)
    (Hnet : webhook w = [] \/ exists rest, webhook w = Rejected :: rest) :
  handleTrigger i w
  = (Normal tt,
     log (Alert (js "Network error. Make sure your n8n webhook allows CORS or check your connection."))
         (log ConsoleError
              (log (Post (n8n_webhook_url (settings (app w))) appt)
                   (with_webhook (tl (webhook w)) w)))).
Proof.
  unfold handleTrigger, bind, read. cbn [fst snd]. rewrite Hfound, Hurl.
  unfold try_catch, bind, fetch_post.
  destruct Hnet as [Hw|[rest Hw]]; rewrite Hw; reflexivity.
Qed.

Lemma handleTrigger_network_error_witness :
  let w := Samples.page Samples.local_settings [Samples.ana] [] [Rejected] in
  find (fun a => (id a =? 1)%Z) (appointments (app w)) = Some Samples.ana
  /\ truthy (n8n_webhook_url (settings (app w))) = true
  /\ appointments (app (snd (handleTrigger 1 w))) = [Samples.ana]
  /\ trace (snd (handleTrigger 1 w))
     = [Post (n8n_webhook_url Samples.local_settings) Samples.ana; ConsoleError;
        Alert (js "Network error. Make sure your n8n webhook allows CORS or check your connection.")].
Proof.
  cbv zeta. split; [reflexivity|]. split; [reflexivity|].
  rewrite (handleTrigger_network_error 1
             (Samples.page Samples.local_settings [Samples.ana] [] [Rejected])
             Samples.ana eq_refl eq_refl (or_intror (ex_intro _ [] eq_refl))).
  split; reflexivity.
Defined.

Lemma filter_keeps_distinct (i : Z) (l : list Appointment) :
  List.NoDup (map id l) ->
  List.NoDup (map id (List.filter (fun a => negb (id a =? i)%Z) l)).
Proof.
  induction l as [|a l IH]; cbn [map List.filter]; intros Hd; [constructor|].
  inversion Hd as [|? ? Hnotin Hd']; subst.
  destruct (negb (id a =? i)%Z); [|now apply IH].
  cbn [map]. constructor; [|now apply IH].
  intros Hin. apply Hnotin. apply in_map_iff in Hin as (b & Hb & Hin).
  apply filter_In in Hin as [Hin _]. apply in_map_iff. eauto.
Qed.

Lemma map_id_sent (i : Z) (l : list Appointment) :
  map id (map (fun a => if (id a =? i)%Z then set_sent a else a) l) = map id l.
Proof.
  rewrite map_map. apply map_ext. intros a. now destruct (id a =? i)%Z.
Qed.

Lemma saveData_writes {T} `{Data T} (config : GitHubConfig) (data : T) (w : World) :
  writes (snd (saveData config data w)) = writes w.
Proof.
  pose proof (getFile_world config w) as Hw.
  unfold saveData, bind.
  destruct (getFile config w) as [[file|e] w1]; cbn [snd] in Hw; subst w1;
    [|reflexivity].
  destruct (btoa _) as [text|]; cbn [or_throw ret throw]; [|reflexivity].
  unfold fetch_put, request.
  match goal with |- context [fault ?t] => destruct (fault t) as [[|resp]|] end.
  - reflexivity.
  - destruct (negb (ok (Http.status resp))); [|reflexivity].
    unfold response_json. now destruct (Http.body resp).
  - match goal with |- context [api_put ?h ?l ?b ?r] =>
      destruct (api_put h l b r) as [resp r'] end.
    destruct (negb (ok (Http.status resp))); [|reflexivity].
    unfold response_json. now destruct (Http.body resp).
Qed.

Lemma persistData_writes (l : list Appointment) (w : World) :
  writes (snd (persistData l w)) = tl (writes w).
Proof.
  unfold persistData, bind, try_catch, setAppointments, modify, read.
  cbn [fst snd].
  match goal with |- context [save ?k l ?w1] =>
    rewrite (save_world k l w1); change (accepted w1) with (accepted w) end.
  cbv zeta. destruct (accepted w); [|reflexivity].
  match goal with |- context [remote_enabled ?x] => destruct (remote_enabled x) end;
    [|reflexivity].
  match goal with |- context [saveData ?c l ?w2] =>
    pose proof (saveData_writes c l w2) as Hs;
    destruct (saveData c l w2) as [[[]|e] w3] end; exact Hs.
Qed.

Lemma roomy_accepted (w : World) : roomy w -> accepted w = true.
Proof.
  unfold roomy, accepted. destruct (writes w) as [|[|] rest]; intros Hr;
    [reflexivity|reflexivity|]. inversion Hr; discriminate.
Qed.

Lemma roomy_next (w w' : World) : roomy w -> writes w' = tl (writes w) -> roomy w'.
Proof.
  unfold roomy. intros Hr ->. destruct (writes w); [constructor|now inversion Hr].
Qed.

(** X23. Adding a record and deleting it again. When no record shown has
    the clock value as its id, [handleAddAppointment] followed by
    [handleDelete] of the new id shows the record set as it was; and
    when the local store takes its writes, the local entry holds that
    record set. *)
Theorem add_then_delete_restores (now : Z) (w : World)
    (Hfresh : forall a, In a (appointments (app w)) -> id a <> now) :
  appointments (app (snd (handleDelete now (snd (handleAddAppointment now w)))))
  = appointments (app w)
  /\ (roomy w ->
      localStorage (snd (handleDelete now (snd (handleAddAppointment now w))))
      !! remindly_appointments
      = Some (stringify (to_json (appointments (app w))))).
Proof.
  destruct (handleAddAppointment_world now w) as (w1 & Hp1 & Hadd).
  destruct (handleAddAppointment_spec now w) as (w' & Hadd' & Ha & _).
  cbv zeta in Ha. rewrite Hadd in Hadd'. injection Hadd' as <-.
  rewrite Hadd. cbn [snd].
  match goal with |- context [handleDelete now ?x] => set (w' := x) in * end.
  unfold handleDelete, bind, read. cbn [fst snd].
  assert (List.filter (fun a => negb (id a =? now)%Z) (appointments (app w'))
          = appointments (app w)) as Hl.
  { rewrite Ha, List.filter_app, (filter_absent id now _ Hfresh).
    cbn [List.filter id]. rewrite Z.eqb_refl. cbn [negb]. apply app_nil_r. }
  rewrite Hl.
  destruct (persistData_spec (appointments (app w)) w')
    as (w2 & Hp & Hshown & _ & _ & Hls & _).
  rewrite Hp. cbn [snd]. split; [exact Hshown|].
  intros Hroomy. rewrite Hls.
  assert (roomy w') as Hroomy'.
  { apply (roomy_next w); [exact Hroomy|]. subst w'. cbn [writes with_app].
    match type of Hp1 with persistData ?l0 _ = _ =>
      pose proof (persistData_writes l0 w) as Hw end.
    rewrite Hp1 in Hw. exact Hw. }
  rewrite (roomy_accepted w' Hroomy'). apply lookup_insert_eq.
Qed.

Lemma add_then_delete_restores_witness :
  let w := Samples.page Samples.local_settings [Samples.ana] [] [] in
  (forall a, In a (appointments (app w)) -> id a <> 7%Z)
  /\ roomy w
  /\ appointments (app (snd (handleDelete 7 (snd (handleAddAppointment 7 w)))))
     = [Samples.ana]
  /\ localStorage (snd (handleDelete 7 (snd (handleAddAppointment 7 w))))
     !! remindly_appointments
     = Some (stringify (to_json [Samples.ana])).
Proof.
  cbv zeta.
  assert (forall a, In a (appointments
                            (app (Samples.page Samples.local_settings [Samples.ana] [] [])))
                    -> id a <> 7%Z) as Hfresh.
  { intros a [<-|[]]. discriminate. }
  assert (roomy (Samples.page Samples.local_settings [Samples.ana] [] [])) as Hroomy
      by constructor.
  split; [exact Hfresh|]. split; [exact Hroomy|].
  destruct (add_then_delete_restores 7 _ Hfresh) as [H1 H2].
  split; [exact H1|exact (H2 Hroomy)].
Defined.

(** X24. The ids stay distinct. When the records shown have distinct ids,
    they still have after [handleDelete] and after [handleTrigger], and
    after [handleAddAppointment] when the clock value is the id of no
    record shown. [handleDelete] removes the records with the id and
    keeps the others. *)
Theorem handlers_keep_ids_distinct (w : World)
    (Hdistinct : List.NoDup (map id (appointments (app w)))) :
  (forall now, (forall a, In a (appointments (app w)) -> id a <> now) ->
     List.NoDup (map id (appointments (app (snd (handleAddAppointment now w))))))
  /\ (forall i,
        List.NoDup (map id (appointments (app (snd (handleDelete i w)))))
        /\ forall a, In a (appointments (app (snd (handleDelete i w))))
                     <-> In a (appointments (app w)) /\ id a <> i)
  /\ (forall i, List.NoDup (map id (appointments (app (snd (handleTrigger i w)))))).
Proof.
  split; [|split].
  - intros now Hfresh. destruct (handleAddAppointment_spec now w) as (w' & Hadd & Ha & _).
    cbv zeta in Ha. rewrite Hadd. cbn [snd]. rewrite Ha, map_app. cbn [map id].
    apply List.NoDup_app; [exact Hdistinct|repeat constructor; intros []|].
    intros x Hin [<-|[]]. apply in_map_iff in Hin as (a & Hid & Hin).
    exact (Hfresh a Hin Hid).
  - intros i. unfold handleDelete, bind, read. cbn [fst snd].
    match goal with |- context [persistData ?l w] =>
      destruct (persistData_spec l w) as (w' & Hp & Ha & _) end.
    rewrite Hp. cbn [snd]. rewrite Ha. split.
    + now apply filter_keeps_distinct.
    + intros a. rewrite filter_In. split; intros [Hin Hne]; split; try assumption.
      * apply negb_true_iff in Hne. now apply Z.eqb_neq.
      * apply negb_true_iff. now apply Z.eqb_neq.
  - intros i. destruct (handleTrigger_cases i w)
      as [(appt & st & rest & _ & _ & _ & _ & Hh)|(w' & es & Hh & Ha & _)].
    + match type of Hh with _ = persistData ?l ?w1 =>
        destruct (persistData_spec l w1) as (w' & Hp & Ha & _) end.
      rewrite Hh, Hp. cbn [snd]. rewrite Ha.
      cbn [app log with_webhook]. now rewrite map_id_sent.
    + rewrite Hh. cbn [snd]. now rewrite Ha.
Qed.

Lemma handlers_keep_ids_distinct_witness :
  let w := Samples.page Samples.local_settings [Samples.ana; Samples.lukasz] [] [] in
  List.NoDup (map id (appointments (app w)))
  /\ List.NoDup (map id (appointments (app (snd (handleAddAppointment 3 w)))))
  /\ List.NoDup (map id (appointments (app (snd (handleDelete 1 w)))))
  /\ List.NoDup (map id (appointments (app (snd (handleTrigger 1 w))))).
Proof.
  cbv zeta.
  assert (List.NoDup (map id (appointments
            (app (Samples.page Samples.local_settings [Samples.ana; Samples.lukasz] [] []))))) as Hd.
  { repeat constructor; cbn; intuition discriminate. }
  destruct (handlers_keep_ids_distinct _ Hd) as (Hadd & Hdel & Htrig).
  split; [exact Hd|]. split; [|split].
  - apply Hadd. intros a [<-|[<-|[]]]; discriminate.
  - apply Hdel.
  - apply Htrig.
Defined.

Lemma loadInitialData_frame (s : AppSettings) (w : World) :
  exists w',
    loadInitialData s w = (Normal tt, w')
    /\ settings (app w') = settings (app w)
    /\ localStorage w' = localStorage w.
Proof.
  destruct (remote_enabled s) eqn:Hs.
  - destruct (loadInitialData_remote s w Hs) as (v & w1 & Hl & Hi).
    destruct (remote_only_loadData (GitHubStorage s) ([] : list Appointment) w)
      as (Ha & Hls & _).
    rewrite Hl in Ha, Hls. cbn [snd] in Ha, Hls.
    eexists. split; [exact Hi|]. cbn [app with_app settings localStorage].
    now rewrite Ha, Hls.
  - destruct (loadInitialData_local s w Hs) as (v & _ & Hi).
    eexists. split; [exact Hi|]. split; reflexivity.
Qed.

(** X25. Saved settings are the settings of the next visit. When the
    local store takes the write, [saveSettings] does not raise, writes
    the text of the current settings to the local entry and leaves the
    settings shown as they are, and the effect run on mount when the
    page is opened anew then shows the same settings. When the local
    store refuses the write, [saveSettings] throws at once: nothing is
    stored, no message is shown and nothing is loaded. *)
Theorem saveSettings_then_mount (w : World) :
  settings (app (snd (saveSettings w))) = settings (app w)
  /\ (accepted w = true ->
      exists w',
        saveSettings w = (Normal tt, w')
        /\ localStorage w'
           = <[remindly_settings := stringify (to_json (settings (app w)))]>
               (localStorage w)
        /\ settings (app (snd (mount (opened w')))) = settings (app w))
  /\ (accepted w = false ->
      saveSettings w
      = (Throw QuotaExceededError,
         log (SetItem remindly_settings (stringify (to_json (settings (app w)))))
             (with_writes (tl (writes w)) w))).
Proof.
  unfold saveSettings, bind, read. cbn [fst snd].
  rewrite (save_world remindly_settings (settings (app w)) w). cbv zeta.
  destruct (accepted w).
  - unfold alert, modify. set (w2 := log (Alert _) _).
    destruct (loadInitialData_frame (settings (app w)) w2) as (w' & Hl & Hs & Hls).
    rewrite Hl. cbn [snd].
    assert (settings (app w2) = settings (app w)) as Hs2 by reflexivity.
    assert (localStorage w2
            = <[remindly_settings := stringify (to_json (settings (app w)))]>
                (localStorage w)) as Hls2 by reflexivity.
    rewrite Hs2 in Hs. rewrite Hls2 in Hls. split; [exact Hs|].
    split; [|discriminate]. intros _. exists w'. split; [reflexivity|].
    split; [exact Hls|].
    destruct (mount_eq (opened w')) as (s & Hload & Hm). rewrite Hm.
    assert (localStorage (opened w') !! remindly_settings
            = Some (stringify (to_json (settings (app w))))) as Hk.
    { cbn [opened localStorage with_app]. rewrite Hls. apply lookup_insert_eq. }
    rewrite (load_stored remindly_settings (settings (app w)) DEFAULT_SETTINGS
               (opened w') (settings_of_to_json _) Hk) in Hload.
    injection Hload as <-.
    match goal with |- context [loadInitialData _ ?w3] =>
      destruct (loadInitialData_frame (settings (app w)) w3) as (w4 & Hl4 & Hs4 & _) end.
    rewrite Hl4. cbn [snd]. rewrite Hs4. reflexivity.
  - split; [reflexivity|]. split; [discriminate|]. intros _. reflexivity.
Qed.

Lemma persistData_remote (l : list Appointment) (w : World) :
  remote_enabled (settings (app w)) = true ->
  accepted w = true ->
  persistData l w
  = let w0 := with_localStorage
                (<[remindly_appointments := stringify (to_json l)]> (localStorage w))
                (log (SetItem remindly_appointments (stringify (to_json l)))
                     (with_writes (tl (writes w))
                        (with_app (fun st => {| appointments := l;
                                                settings := settings st;
                                                newAppt := newAppt st |}) w))) in
    match saveData (GitHubStorage (settings (app w))) l w0 with
    | (Normal _, w1) => (Normal tt, w1)
    | (Throw _, w1) => (Normal tt, log ConsoleError w1)
    end.
Proof.
  intros Hon Hacc.
  unfold persistData, bind, setAppointments, modify, try_catch, read.
  cbn [fst snd].
  match goal with |- context [save ?k l ?w1] =>
    rewrite (save_world k l w1); change (accepted w1) with (accepted w) end.
  cbv zeta. rewrite Hacc.
  cbn [app with_app with_localStorage with_writes log settings localStorage writes].
  rewrite Hon.
  match goal with |- context [saveData ?c l ?w0] =>
    destruct (saveData c l w0) as [[[]|e] w1] end; reflexivity.
Qed.

(** X26. What one browser persists, another shows. With the remote store
    enabled, the local store taking the write, the service answering
    and nobody else writing, a record set that has an encoding and is
    persisted in one browser is the set shown when the page is opened
    in a browser that has the same settings saved and nothing else in
    its local store. *)
Theorem persisted_set_shows_elsewhere
    (l : list Appointment) (w : World) (text : jsstring)
    (Hon : remote_enabled (settings (app w)) = true)
    (Haccepted : accepted w = true)
    (Hcalm : calm w)
    (Hcontent : encode l = Some text)
    (Hsha : forall f, github w !! location (GitHubStorage (settings (app w))) = Some f ->
                      truthy (file_sha f) = true) :
  let there :=
    with_localStorage
      {[ remindly_settings := stringify (to_json (settings (app w))) ]}
      (opened (snd (persistData l w))) in
  fst (mount there) = Normal tt
  /\ appointments (app (snd (mount there))) = l
  /\ settings (app (snd (mount there))) = settings (app w).
Proof.
  cbv zeta. rewrite (persistData_remote l w Hon Haccepted). cbv zeta.
  set (w0 := with_localStorage _ (log _ _)).
  assert (calm w0) as Hcalm0 by exact Hcalm.
  destruct (saveData_calm (GitHubStorage (settings (app w))) l w0 text Hcalm0 Hcontent Hsha)
    as (w1 & Hs & Hg & Hcalm1 & _).
  rewrite Hs. cbn [snd].
  set (there := with_localStorage _ _).
  assert (localStorage there !! remindly_settings
          = Some (stringify (to_json (settings (app w))))) as Hk
      by apply lookup_singleton_eq.
  destruct (mount_eq there) as (s & Hload & Hm). rewrite Hm.
  rewrite (load_stored remindly_settings (settings (app w)) DEFAULT_SETTINGS
             there (settings_of_to_json _) Hk) in Hload.
  injection Hload as <-.
  match goal with |- context [loadInitialData _ ?x] => set (w3 := x) end.
  destruct (loadInitialData_remote (settings (app w)) w3 Hon) as (v & w4 & Hl & Hi).
  assert (calm w3) as Hcalm3 by exact Hcalm1.
  destruct (calm_next w3 Hcalm3) as [Hf Ho].
  assert (others (next_turn w3) (github w3)
          !! location (GitHubStorage (settings (app w)))
          = Some {| file_content := text; file_sha := blob_sha w0 text |}) as Hfile.
  { rewrite Ho. change (github w3) with (github w1). rewrite Hg.
    apply lookup_insert_eq. }
  rewrite (loadData_found (GitHubStorage (settings (app w))) l [] w3 _ Hf Hfile
             (decode_encode l text Hcontent)) in Hl.
  injection Hl as <- <-. rewrite Hi. repeat split.
Qed.

Lemma persisted_set_shows_elsewhere_witness :
  let w := Samples.page Samples.remote_settings [] [] [] in
  let there :=
    with_localStorage
      {[ remindly_settings := stringify (to_json (settings (app w))) ]}
      (opened (snd (persistData [Samples.ana] w))) in
  remote_enabled (settings (app w)) = true
  /\ accepted w = true
  /\ calm w
  /\ (exists text, encode [Samples.ana] = Some text)
  /\ appointments (app (snd (mount there))) = [Samples.ana].
Proof.
  cbv zeta. split; [reflexivity|]. split; [reflexivity|].
  assert (calm (Samples.page Samples.remote_settings [] [] [])) as Hcalm by constructor.
  split; [exact Hcalm|].
  assert (exists text, encode [Samples.ana] = Some text) as [text Htext]
      by (eexists; vm_compute; reflexivity).
  split; [exists text; exact Htext|].
  assert (forall f, github (Samples.page Samples.remote_settings [] [] [])
                    !! location (GitHubStorage Samples.remote_settings) = Some f
                    -> truthy (file_sha f) = true) as Hsha.
  { intros f Hf. cbn [github Samples.page] in Hf. rewrite lookup_empty in Hf.
    discriminate. }
  exact (proj1 (proj2 (persisted_set_shows_elsewhere [Samples.ana]
                         (Samples.page Samples.remote_settings [] [] [])
                         text eq_refl eq_refl Hcalm Htext Hsha))).
Defined.

(** X28. A local write that is refused. When [localStorage.setItem]
    throws, [persistData] still returns normally: the page shows the
    new record set, the error is logged, the local store is as before,
    and the remote write is skipped, so no request is made even with
    the remote store enabled. *)
Theorem persistData_refused_write (l : list Appointment) (w : World)
    (Hrefused : accepted w = false) :
  persistData l w
  = (Normal tt,
     log ConsoleError
         (log (SetItem remindly_appointments (stringify (to_json l)))
              (with_writes (tl (writes w))
                 (with_app (fun st => {| appointments := l; settings := settings st;
                                         newAppt := newAppt st |}) w)))).
Proof.
  unfold persistData, bind, setAppointments, modify, try_catch, read.
  cbn [fst snd].
  match goal with |- context [save ?k l ?w1] =>
    rewrite (save_world k l w1); change (accepted w1) with (accepted w) end.
  cbv zeta. now rewrite Hrefused.
Qed.

Lemma persistData_refused_write_witness :
  let w := with_writes [Refused] (Samples.page Samples.remote_settings [] [] []) in
  accepted w = false
  /\ fst (persistData [Samples.ana] w) = Normal tt
  /\ appointments (app (snd (persistData [Samples.ana] w))) = [Samples.ana]
  /\ localStorage (snd (persistData [Samples.ana] w)) = localStorage w
  /\ github (snd (persistData [Samples.ana] w)) = github w
  /\ trace (snd (persistData [Samples.ana] w))
     = [SetItem remindly_appointments (stringify (to_json [Samples.ana])); ConsoleError].
Proof.
  cbv zeta. split; [reflexivity|].
  rewrite (persistData_refused_write [Samples.ana]
             (with_writes [Refused] (Samples.page Samples.remote_settings [] [] []))
             eq_refl).
  repeat split.
Defined.
End PageMore.
